(** * Event-loop visualizer: the code-to-steps compiler and the queue state machine

    A shallow embedding of
      - [src/utils/codeExecutor.js]  (class [CodeExecutor]: [parseCodeToSteps],
        [traverseAST], [createExecutionStep] and their helpers), and
      - [src/store/eventLoopSlice.js] (the Redux slice: reducers and thunks),
    followed by the properties of the scheduling engine.

    JavaScript data is modelled as it is at run time: numbers are IEEE binary64
    floats, objects are ordered lists of properties, arrays are lists, and an
    exception is an explicit [Throw] result.  What the language runtime and the
    parser library provide (number formatting, [%], [**], the text of a
    [TypeError], [esprima.parseScript], the clock) is a parameter.  Reducers
    and thunks are modelled as the source writes them: a reducer is a function
    on the state, a thunk runs its body when dispatched and its [fulfilled]
    action is dispatched when its promise settles. *)

From Stdlib Require Import String Ascii List Bool Arith ZArith Lia.
From Stdlib Require Import Floats Uint63 DecimalString.
Import ListNotations.

Set Warnings "-register-all".
Local Open Scope list_scope.
Local Open Scope string_scope.

(* ===================================================================== *)
(** ** JavaScript values *)
(* ===================================================================== *)

Module JS.

(** The values the program handles: the syntax tree and what is extracted
    from it.  An object is the list of its own enumerable properties in
    enumeration order.  There are no functions among these values, and a
    [RegExp] (the value of a regular-expression literal) is not represented. *)
Inductive value : Type :=
| VUndef
| VNull
| VBool (b : bool)
| VNum (n : float)
| VStr (s : string)
| VArr (elems : list value)
| VObj (fields : list (string * value)).

(** Why the engine throws a [TypeError]: a property of [undefined] or [null]
    is read, what is called is not a function, an object has no primitive
    value (its own [toString] is not callable), or a property of a frozen
    object is assigned to in strict-mode code. *)
Inductive typeError : Type :=
| ReadOfNullish (property : string)
| NotAFunction (method : string)
| NoPrimitiveValue
| ReadOnlyProperty (property : string).

(** A thrown value: the [Error] of [esprima], with its message, or a
    [TypeError] of the engine. *)
Inductive exn : Type :=
| ParseError (message : string)
| TypeError (why : typeError).

Inductive result (A : Type) : Type :=
| Ok (a : A)
| Throw (e : exn).
Arguments Ok {A} a.
Arguments Throw {A} e.

Definition bind {A B} (r : result A) (k : A -> result B) : result B :=
  match r with
  | Ok a => k a
  | Throw e => Throw e
  end.

(** [try { body } catch (error) { handler }] *)
Definition try_catch {A} (body : result A) (handler : exn -> result A) : result A :=
  match body with
  | Ok a => Ok a
  | Throw e => handler e
  end.

Notation "x <- c1 ;; c2" := (bind c1 (fun x => c2))
  (at level 61, c1 at next level, right associativity).

(** What the engine supplies and the program only calls. *)
Class Engine : Type := {
  numToString : float -> string;          (* Number::toString *)
  numRemainder : float -> float -> float; (* the % operator *)
  numExponentiate : float -> float -> float; (* the ** operator *)
  stringToNumber : string -> float;       (* StringToNumber *)
  typeErrorMessage : typeError -> string  (* message of an engine TypeError *)
}.

Definition nat_to_num (n : nat) : float :=
  PrimFloat.of_uint63 (Uint63.of_Z (Z.of_nat n)).

(** ToBoolean *)
Definition truthy (v : value) : bool :=
  match v with
  | VUndef | VNull => false
  | VBool b => b
  | VNum n => negb (PrimFloat.eqb n 0 || PrimFloat.is_nan n)
  | VStr s => negb (String.eqb s "")
  | VArr _ | VObj _ => true
  end.

(** [typeof v === 'object'] for a truthy [v] *)
Definition is_object (v : value) : bool :=
  match v with
  | VArr _ | VObj _ => true
  | _ => false
  end.

(** [v === 'text'] *)
Definition is_str (v : value) (s : string) : bool :=
  match v with
  | VStr s' => String.eqb s' s
  | _ => false
  end.

(** Own property of an object literal, [undefined] when absent. *)
Fixpoint lookup (fields : list (string * value)) (p : string) : value :=
  match fields with
  | [] => VUndef
  | (k, v) :: rest => if String.eqb k p then v else lookup rest p
  end.

(** Is [p] an own property? *)
Fixpoint hasOwn (fields : list (string * value)) (p : string) : bool :=
  match fields with
  | [] => false
  | (k, _) :: rest => String.eqb k p || hasOwn rest p
  end.

(** [obj\[p\] = v]: overwrite in place, or add as the last property.  Two
    things the engine does differently are not modelled, and nothing below is
    stated about them: a key that is a canonical array index ("0", "1", ...)
    is enumerated before the other keys, in numeric order, wherever it was
    added; and an assignment to the key [__proto__] runs the inherited
    setter, which replaces the prototype or does nothing, and adds no own
    property. *)
Fixpoint obj_set (fields : list (string * value)) (p : string) (v : value)
  : list (string * value) :=
  match fields with
  | [] => [(p, v)]
  | (k, w) :: rest =>
      if String.eqb k p then (k, v) :: rest else (k, w) :: obj_set rest p v
  end.

(** [v.p], for the property names the program reads.  Reading a property of
    [undefined] or [null] throws; a primitive or an array has none of these
    names except [length]. *)
Definition getProp (v : value) (p : string) : result value :=
  match v with
  | VUndef | VNull => Throw (TypeError (ReadOfNullish p))
  | VObj fields => Ok (lookup fields p)
  | VArr l => Ok (if String.eqb p "length" then VNum (nat_to_num (List.length l)) else VUndef)
  | VStr s => Ok (if String.eqb p "length" then VNum (nat_to_num (String.length s)) else VUndef)
  | VBool _ | VNum _ => Ok VUndef
  end.

(** The receiver of [.map], [.forEach]: anything but an array has no such
    method (or is [undefined]), and the call throws. *)
Definition as_array (v : value) (method : string) : result (list value) :=
  match v with
  | VArr l => Ok l
  | VUndef | VNull => Throw (TypeError (ReadOfNullish method))
  | _ => Throw (TypeError (NotAFunction method))
  end.

Fixpoint join (sep : string) (l : list string) : string :=
  match l with
  | [] => ""
  | [s] => s
  | s :: rest => s ++ sep ++ join sep rest
  end.

Section WithEngine.
Context {E : Engine}.

(** ToString, as used by template literals, [join] and property keys.  No
    value of the model is callable, so an object with an own [toString]
    property has no primitive value (the inherited [valueOf] returns the
    object itself) and the conversion throws; any other object prints through
    [Object.prototype.toString], an array through [join]. *)
Fixpoint toString (v : value) : result string :=
  match v with
  | VUndef => Ok "undefined"
  | VNull => Ok "null"
  | VBool b => Ok (if b then "true" else "false")
  | VNum n => Ok (numToString n)
  | VStr s => Ok s
  | VArr l =>
      strings <- (fix each (l : list value) : result (list string) :=
                    match l with
                    | [] => Ok []
                    | x :: rest =>
                        s <- match x with
                             | VUndef | VNull => Ok ""
                             | _ => toString x
                             end;;
                        ss <- each rest;;
                        Ok (s :: ss)
                    end) l;;
      Ok (join "," strings)
  | VObj fields =>
      if hasOwn fields "toString" then Throw (TypeError NoPrimitiveValue)
      else Ok "[object Object]"
  end.

Fixpoint mapM {A B} (f : A -> result B) (l : list A) : result (list B) :=
  match l with
  | [] => Ok []
  | a :: rest => b <- f a;; bs <- mapM f rest;; Ok (b :: bs)
  end.

(** [Array.prototype.join]: [undefined] and [null] elements print as empty. *)
Definition array_join (l : list value) (sep : string) : result string :=
  strings <- mapM (fun x => match x with
                            | VUndef | VNull => Ok ""
                            | _ => toString x
                            end) l;;
  Ok (join sep strings).

Definition toNumber_prim (v : value) : float :=
  match v with
  | VNum n => n
  | VNull => 0
  | VBool b => if b then 1 else 0
  | _ => PrimFloat.nan
  end.

(** ToPrimitive: an object or array becomes its string. *)
Definition toPrimitive (v : value) : result value :=
  if is_object v then s <- toString v;; Ok (VStr s) else Ok v.

(** ToNumber *)
Definition toNumber (v : value) : result float :=
  p <- toPrimitive v;;
  match p with
  | VStr s => Ok (stringToNumber s)
  | _ => Ok (toNumber_prim p)
  end.

(** The [+] operator. *)
Definition js_add (a b : value) : result value :=
  pa <- toPrimitive a;;
  pb <- toPrimitive b;;
  match pa, pb with
  | VStr _, _ | _, VStr _ =>
      sa <- toString pa;;
      sb <- toString pb;;
      Ok (VStr (sa ++ sb))
  | _, _ => Ok (VNum (PrimFloat.add (toNumber_prim pa) (toNumber_prim pb)))
  end.

Definition message (e : exn) : string :=
  match e with
  | ParseError m => m
  | TypeError w => typeErrorMessage w
  end.

(** The text of a value where the conversion cannot throw (a primitive, an
    array of primitives, an object without an own [toString]). *)
Definition show (v : value) : string :=
  match toString v with
  | Ok s => s
  | Throw _ => "[object Object]"
  end.

End WithEngine.

(** [a || b] *)
Definition js_or (a b : value) : value := if truthy a then a else b.

End JS.

(* ===================================================================== *)
(** ** codeExecutor.js: the code-to-steps compiler *)
(* ===================================================================== *)

Module CodeExecutor.
Import JS.

(** One execution step.  The three object literals that build steps do not
    have the same properties: [range], [loc], [queue] and [priority] are absent
    ([undefined]) on the synthetic start, end and error steps. *)
Record Step : Type := mkStep {
  type : value;
  line : value;
  range : value;
  loc : value;
  description : string;
  action : string;
  isAsync : bool;
  delay : value;
  code : string;
  variables : list (string * value);
  output : value;
  queue : value;
  priority : value
}.

(** [esprima.parseScript(code, { range: true, loc: true })]: the parser is a
    dependency of the repository, not part of it. *)
Class Parser : Type := { parseScript : string -> result value }.

Section WithEngine.
Context {E : Engine}.

(** The arithmetic [switch (node.operator)] of [evaluateBinaryExpression]. *)
Definition arith (operator : value) (left right : float) : option float :=
  if is_str operator "+" then Some (PrimFloat.add left right)
  else if is_str operator "-" then Some (PrimFloat.sub left right)
  else if is_str operator "*" then Some (PrimFloat.mul left right)
  else if is_str operator "/" then Some (PrimFloat.div left right)
  else if is_str operator "%" then Some (numRemainder left right)
  else if is_str operator "**" then Some (numExponentiate left right)
  else None.

(** [`${left} ${node.operator} ${right}`] *)
Definition binaryText (left operator right : value) : result string :=
  l <- toString left;;
  o <- toString operator;;
  r <- toString right;;
  Ok (l ++ " " ++ o ++ " " ++ r).

(** What [evaluateBinaryExpression] computes once both operands are
    extracted. *)
Definition binaryResult (left operator right : value) : result value :=
  match left, right with
  | VNum l, VNum r =>
      match arith operator l r with
      | Some x => Ok (VNum x)
      | None => text <- binaryText left operator right;; Ok (VStr text)
      end
  | _, _ => text <- binaryText left operator right;; Ok (VStr text)
  end.

(** [prop.key.name || prop.key.value], the key of an object-literal property *)
Definition propertyKey (key : value) : result value :=
  name <- getProp key "name";;
  if truthy name then Ok name else getProp key "value".

(** [extractValue], with [evaluateBinaryExpression], [extractObjectProperties]
    and [extractArrayElements] (which call it back on the node they received)
    unfolded in place, so that the recursion is on the syntax tree.  The four
    functions are stated separately below and [extractValue_eq] shows that this
    definition satisfies the source's equations. *)
Fixpoint extractValue (node : value) : result value :=
  match node with
  | VObj fields =>
      let ty := lookup fields "type" in
      if is_str ty "Literal" then Ok (lookup fields "value")
      else if is_str ty "Identifier" then Ok (lookup fields "name")
      else if is_str ty "BinaryExpression" then
        try_catch
          (left <- (fix find (fs : list (string * value)) : result value :=
                      match fs with
                      | [] => Ok VUndef
                      | (k, v) :: rest =>
                          if String.eqb k "left" then extractValue v else find rest
                      end) fields;;
           right <- (fix find (fs : list (string * value)) : result value :=
                       match fs with
                       | [] => Ok VUndef
                       | (k, v) :: rest =>
                           if String.eqb k "right" then extractValue v else find rest
                       end) fields;;
           binaryResult left (lookup fields "operator") right)
          (fun _ => Ok (VStr "[Expression]"))
      else if is_str ty "ObjectExpression" then
        (fix find (fs : list (string * value)) : result value :=
           match fs with
           | [] => Throw (TypeError (ReadOfNullish "forEach"))
           | (k, v) :: rest =>
               if String.eqb k "properties" then
                 match v with
                 | VArr props =>
                     (fix each (ps : list value) (properties : list (string * value))
                        : result value :=
                        match ps with
                        | [] => Ok (VObj properties)
                        | prop :: ps' =>
                            match prop with
                            | VUndef | VNull => Throw (TypeError (ReadOfNullish "key"))
                            | VObj pf =>
                                if truthy (lookup pf "key") && truthy (lookup pf "value")
                                then
                                  key <- propertyKey (lookup pf "key");;
                                  name <- toString key;;
                                  x <- (fix findv (l : list (string * value)) : result value :=
                                          match l with
                                          | [] => Ok VUndef
                                          | (k', v') :: r =>
                                              if String.eqb k' "value"
                                              then extractValue v' else findv r
                                          end) pf;;
                                  each ps' (obj_set properties name x)
                                else each ps' properties
                            | _ => each ps' properties
                            end
                        end) props []
                 | VUndef | VNull => Throw (TypeError (ReadOfNullish "forEach"))
                 | _ => Throw (TypeError (NotAFunction "forEach"))
                 end
               else find rest
           end) fields
      else if is_str ty "ArrayExpression" then
        (fix find (fs : list (string * value)) : result value :=
           match fs with
           | [] => Throw (TypeError (ReadOfNullish "map"))
           | (k, v) :: rest =>
               if String.eqb k "elements" then
                 match v with
                 | VArr elements =>
                     (fix each (es : list value) (acc : list value) : result value :=
                        match es with
                        | [] => Ok (VArr acc)
                        | element :: es' =>
                            x <- extractValue element;;
                            each es' (acc ++ [x])%list
                        end) elements []
                 | VUndef | VNull => Throw (TypeError (ReadOfNullish "map"))
                 | _ => Throw (TypeError (NotAFunction "map"))
                 end
               else find rest
           end) fields
      else Ok (VStr "[Expression]")
  | _ => if truthy node then Ok (VStr "[Expression]") else Ok VUndef
  end.

Definition evaluateBinaryExpression (node : value) : result value :=
  try_catch
    (l <- getProp node "left";;
     left <- extractValue l;;
     r <- getProp node "right";;
     right <- extractValue r;;
     operator <- getProp node "operator";;
     binaryResult left operator right)
    (fun _ => Ok (VStr "[Expression]")).

Fixpoint extractObjectProperties_each (ps : list value) (properties : list (string * value))
  : result value :=
  match ps with
  | [] => Ok (VObj properties)
  | prop :: ps' =>
      k <- getProp prop "key";;
      v <- getProp prop "value";;
      if truthy k && truthy v then
        key <- propertyKey k;;
        name <- toString key;;
        x <- extractValue v;;
        extractObjectProperties_each ps' (obj_set properties name x)
      else extractObjectProperties_each ps' properties
  end.

Definition extractObjectProperties (node : value) : result value :=
  ps <- getProp node "properties";;
  props <- as_array ps "forEach";;
  extractObjectProperties_each props [].

Fixpoint extractArrayElements_each (es : list value) (acc : list value) : result value :=
  match es with
  | [] => Ok (VArr acc)
  | element :: es' =>
      x <- extractValue element;;
      extractArrayElements_each es' (acc ++ [x])%list%list
  end.

Definition extractArrayElements (node : value) : result value :=
  es <- getProp node "elements";;
  elements <- as_array es "map";;
  extractArrayElements_each elements [].

(** The body of [extractValue] as the source writes it. *)
Definition extractValue_body (node : value) : result value :=
  if negb (truthy node) then Ok VUndef
  else
    ty <- getProp node "type";;
    if is_str ty "Literal" then getProp node "value"
    else if is_str ty "Identifier" then getProp node "name"
    else if is_str ty "BinaryExpression" then evaluateBinaryExpression node
    else if is_str ty "ObjectExpression" then extractObjectProperties node
    else if is_str ty "ArrayExpression" then extractArrayElements node
    else Ok (VStr "[Expression]").

(** *** Recognisers and extractors used by [createExecutionStep] *)

Definition dquote : string := String (ascii_of_nat 34) EmptyString.

Definition isConsoleCall (node : value) : result bool :=
  callee <- getProp node "callee";;
  if negb (truthy callee) then Ok false
  else
    ty <- getProp callee "type";;
    if negb (is_str ty "MemberExpression") then Ok false
    else
      object <- getProp callee "object";;
      name <- getProp object "name";;
      if negb (is_str name "console") then Ok false
      else
        property <- getProp callee "property";;
        pname <- getProp property "name";;
        Ok (is_str pname "log" || is_str pname "error"
            || is_str pname "warn" || is_str pname "info").

(** [node.callee && node.callee.name === name] *)
Definition isCallTo (name : string) (node : value) : result bool :=
  callee <- getProp node "callee";;
  if negb (truthy callee) then Ok false
  else
    n <- getProp callee "name";;
    Ok (is_str n name).

Definition isSetTimeoutCall := isCallTo "setTimeout".
Definition isPromiseCall := isCallTo "Promise".
Definition isFetchCall := isCallTo "fetch".

Definition getFunctionName (node : value) : result value :=
  callee <- getProp node "callee";;
  ty <- getProp callee "type";;
  if is_str ty "Identifier" then getProp callee "name"
  else if is_str ty "MemberExpression" then
    object <- getProp callee "object";;
    oname <- getProp object "name";;
    property <- getProp callee "property";;
    pname <- getProp property "name";;
    o <- toString oname;;
    p <- toString pname;;
    Ok (VStr (o ++ "." ++ p))
  else Ok (VStr "anonymous").

Definition extractCodeFromNode (node : value) : result string :=
  ty <- getProp node "type";;
  text <- toString ty;;
  Ok (text ++ " statement").

Definition extractBinaryExpression (node : value) : result string :=
  l <- getProp node "left";;
  left <- extractValue l;;
  r <- getProp node "right";;
  right <- extractValue r;;
  operator <- getProp node "operator";;
  binaryText left operator right.

Definition extractConsoleLogMessage (node : value) : value :=
  match
    try_catch
      (a <- getProp node "arguments";;
       arguments <- as_array a "map";;
       args <- mapM (fun arg =>
                 ty <- getProp arg "type";;
                 if is_str ty "Literal" then getProp arg "value"
                 else if is_str ty "Identifier" then getProp arg "name"
                 else if is_str ty "BinaryExpression" then
                   s <- extractBinaryExpression arg;; Ok (VStr s)
                 else Ok (VStr "[Expression]")) arguments;;
       text <- array_join args " ";;
       Ok (VStr text))
      (fun _ => Ok (VStr "[Message]"))
  with
  | Ok v => v
  | Throw _ => VStr "[Message]"
  end.

(** [node.arguments\[1\]] *)
Definition index1 (arguments : value) : value :=
  match arguments with
  | VArr l => nth 1 l VUndef
  | VObj fields => lookup fields "1"
  | VStr s => match String.get 1 s with
              | Some c => VStr (String c EmptyString)
              | None => VUndef
              end
  | _ => VUndef
  end.

Definition extractTimeoutDelay (node : value) : value :=
  match
    try_catch
      (arguments <- getProp node "arguments";;
       len <- getProp arguments "length";;
       n <- toNumber len;;
       if PrimFloat.ltb 1 n then
         ty <- getProp (index1 arguments) "type";;
         if is_str ty "Literal" then getProp (index1 arguments) "value"
         else Ok (VNum 1000)
       else Ok (VNum 1000))
      (fun _ => Ok (VNum 1000))
  with
  | Ok v => v
  | Throw _ => VNum 1000
  end.

Fixpoint extractVariableAssignments_each (decls : list value)
  (assignments : list (string * value)) : result (list (string * value)) :=
  match decls with
  | [] => Ok assignments
  | decl :: rest =>
      id <- getProp decl "id";;
      init <- getProp decl "init";;
      if truthy id && truthy init then
        name <- getProp id "name";;
        key <- toString name;;
        x <- extractValue init;;
        extractVariableAssignments_each rest (obj_set assignments key x)
      else extractVariableAssignments_each rest assignments
  end.

Definition extractVariableAssignments (node : value) : result (list (string * value)) :=
  ds <- getProp node "declarations";;
  declarations <- as_array ds "forEach";;
  extractVariableAssignments_each declarations [].

Definition extractAssignment (node : value) : result string :=
  l <- getProp node "left";;
  name <- getProp l "name";;
  let left := js_or name (VStr "[Expression]") in
  r <- getProp node "right";;
  right <- extractValue r;;
  ls <- toString left;;
  rs <- toString right;;
  Ok (ls ++ " = " ++ rs).

(** *** [createExecutionStep]

    [None] is the source's [return null] (the [Program] node).  The
    name-to-definition table ([this.functions.set]) is display-only
    bookkeeping that no step reads, and is not modelled. *)
Definition createExecutionStep (node parent lineOffset : value) : result (option Step) :=
  ty <- getProp node "type";;
  lc <- getProp node "loc";;
  ln <- (if truthy lc
         then start <- getProp lc "start";;
              l <- getProp start "line";;
              js_add l lineOffset
         else Ok (VNum 1));;
  rg <- getProp node "range";;
  cd <- extractCodeFromNode node;;
  let step description action isAsync delay variables output queue priority :=
    Ok (Some (mkStep ty ln rg lc description action isAsync delay cd
                     variables output queue priority)) in
  let sync description action variables output :=
    step description action false (VNum 0) variables output
         (VStr "callStack") (VStr "normal") in
  if is_str ty "Program" then Ok None
  else if is_str ty "ExpressionStatement" then
    sync "Executing expression statement" "expression" [] VNull
  else if is_str ty "CallExpression" then
    c <- isConsoleCall node;;
    if c then
      sync "Console output statement" "console" [] (extractConsoleLogMessage node)
    else
      t <- isSetTimeoutCall node;;
      if t then
        let d := extractTimeoutDelay node in
        ds <- toString d;;
        step "setTimeout call - moving to Web APIs" "setTimeout" true d []
             (VStr ("Scheduled timeout with " ++ ds ++ "ms delay"))
             (VStr "webAPIs") (VStr "normal")
      else
        p <- isPromiseCall node;;
        if p then
          step "Promise creation - moving to microtask queue" "promise" true (VNum 0) []
               (VStr "Promise created") (VStr "microtaskQueue") (VStr "high")
        else
          f <- isFetchCall node;;
          if f then
            step "Fetch API call - moving to Web APIs" "fetch" true (VNum 0) []
                 (VStr "Network request initiated") (VStr "webAPIs") (VStr "normal")
          else
            name <- getFunctionName node;;
            text <- toString name;;
            sync ("Function call: " ++ text) "functionCall" [] VNull
  else if is_str ty "VariableDeclaration" then
    ds <- getProp node "declarations";;
    declarations <- as_array ds "map";;
    names <- mapM (fun d => id <- getProp d "id";; getProp id "name") declarations;;
    text <- array_join names ", ";;
    vars <- extractVariableAssignments node;;
    sync ("Variable declaration: " ++ text) "variableDeclaration" vars VNull
  else if is_str ty "VariableDeclarator" then
    id <- getProp node "id";;
    name <- getProp id "name";;
    text <- toString name;;
    init <- getProp node "init";;
    x <- extractValue init;;
    sync ("Assigning value to " ++ text) "variableAssignment" [(text, x)] VNull
  else if is_str ty "Literal" then
    v <- getProp node "value";;
    text <- match v with
            | VStr s => Ok (dquote ++ s ++ dquote)
            | _ => toString v
            end;;
    sync ("Literal value: " ++ text) "literal" [] v
  else if is_str ty "Identifier" then
    name <- getProp node "name";;
    text <- toString name;;
    sync ("Identifier: " ++ text) "identifier" [] name
  else if is_str ty "BinaryExpression" then
    s <- extractBinaryExpression node;;
    v <- evaluateBinaryExpression node;;
    sync ("Binary operation: " ++ s) "binaryOperation" [] v
  else if is_str ty "FunctionDeclaration" then
    id <- getProp node "id";;
    name <- getProp id "name";;
    text <- toString name;;
    sync ("Function declaration: " ++ text) "functionDeclaration" []
         (VStr ("Function " ++ text ++ " defined"))
  else if is_str ty "FunctionExpression" then
    sync "Function expression" "functionExpression" [] VNull
  else if is_str ty "ArrowFunctionExpression" then
    sync "Arrow function" "arrowFunction" [] VNull
  else if is_str ty "ReturnStatement" then
    a <- getProp node "argument";;
    v <- extractValue a;;
    sync "Return statement" "return" [] v
  else if is_str ty "IfStatement" then
    sync "If statement evaluation" "ifStatement" [] VNull
  else if is_str ty "WhileStatement" then
    sync "While loop" "whileLoop" [] VNull
  else if is_str ty "ForStatement" then
    sync "For loop" "forLoop" [] VNull
  else if is_str ty "AwaitExpression" then
    step "Await expression - creating microtask" "await" true (VNum 0) []
         (VStr "Awaiting promise resolution") (VStr "microtaskQueue") (VStr "high")
  else if is_str ty "YieldExpression" then
    step "Yield expression" "yield" true (VNum 0) [] VNull
         (VStr "microtaskQueue") (VStr "high")
  else if is_str ty "AssignmentExpression" then
    s <- extractAssignment node;;
    l <- getProp node "left";;
    name <- getProp l "name";;
    key <- toString name;;
    r <- getProp node "right";;
    x <- extractValue r;;
    sync ("Assignment: " ++ s) "assignment" [(key, x)] VNull
  else if is_str ty "ObjectExpression" then
    v <- extractObjectProperties node;;
    sync "Object creation" "objectCreation" [] v
  else if is_str ty "ArrayExpression" then
    v <- extractArrayElements node;;
    sync "Array creation" "arrayCreation" [] v
  else
    text <- toString ty;;
    sync (text ++ " statement") "statement" [] VNull.

(** [steps.push(step)] when [createExecutionStep] returned one *)
Definition push (steps : list Step) (step : option Step) : list Step :=
  match step with
  | Some s => (steps ++ [s])%list
  | None => steps
  end.

(** *** [traverseAST]

    [steps] is the array the source appends to; it is threaded through the
    walk.  [for (const key in node)] enumerates the properties of an object in
    order and the indices of an array; a property value is visited when it is
    truthy and an object, element by element when it is an array. *)
Fixpoint traverseAST (node : value) (steps : list Step) (parent lineOffset : value)
  {struct node} : result (list Step) :=
  if negb (truthy node) then Ok steps
  else
    step <- createExecutionStep node parent lineOffset;;
    let steps := push steps step in
    match node with
    | VObj fields =>
        (fix forIn (fs : list (string * value)) (steps : list Step)
           : result (list Step) :=
           match fs with
           | [] => Ok steps
           | (key, child) :: rest =>
               steps' <- match child with
                         | VArr l =>
                             (fix forEach (l : list value) (steps : list Step)
                                : result (list Step) :=
                                match l with
                                | [] => Ok steps
                                | c :: l' =>
                                    steps' <- traverseAST c steps node lineOffset;;
                                    forEach l' steps'
                                end) l steps
                         | VObj _ => traverseAST child steps node lineOffset
                         | _ => Ok steps
                         end;;
               forIn rest steps'
           end) fields steps
    | VArr elems =>
        (fix forIn (es : list value) (steps : list Step) : result (list Step) :=
           match es with
           | [] => Ok steps
           | child :: rest =>
               steps' <- match child with
                         | VArr l =>
                             (fix forEach (l : list value) (steps : list Step)
                                : result (list Step) :=
                                match l with
                                | [] => Ok steps
                                | c :: l' =>
                                    steps' <- traverseAST c steps node lineOffset;;
                                    forEach l' steps'
                                end) l steps
                         | VObj _ => traverseAST child steps node lineOffset
                         | _ => Ok steps
                         end;;
               forIn rest steps'
           end) elems steps
    | _ => Ok steps
    end.

(** *** [parseCodeToSteps] *)

Definition newline : ascii := ascii_of_nat 10.

(** [code.split('\n')], built from the end: [cur] is the line being read. *)
Fixpoint split_lines (code : string) : list string :=
  match code with
  | EmptyString => [EmptyString]
  | String c rest =>
      if Ascii.eqb c newline then EmptyString :: split_lines rest
      else match split_lines rest with
           | [] => [String c EmptyString]
           | cur :: lines => String c cur :: lines
           end
  end.

Definition startStep (code : string) : Step :=
  mkStep (VStr "Program") (VNum 1) VUndef VUndef "Program execution started" "start"
         false (VNum 0) (hd "" (split_lines code)) [] VNull VUndef VUndef.

Definition endStep (code : string) : Step :=
  mkStep (VStr "Program") (VNum (nat_to_num (List.length (split_lines code)))) VUndef VUndef
         "Program execution completed" "end" false (VNum 0) "" [] VNull VUndef VUndef.

Definition errorStep (code : string) (error : exn) : Step :=
  mkStep (VStr "Error") (VNum 1) VUndef VUndef ("Parse error: " ++ message error) "error"
         false (VNum 0) code [] VNull VUndef VUndef.

Context {P : Parser}.

(** The [try] block of [parseCodeToSteps]. *)
Definition parseCodeToSteps_try (code : string) : result (list Step) :=
  ast <- parseScript code;;
  steps <- traverseAST ast [startStep code] VNull (VNum 0);;
  Ok (steps ++ [endStep code])%list.

Definition parseCodeToSteps (code : string) : list Step :=
  match parseCodeToSteps_try code with
  | Ok steps => steps
  | Throw error => [errorStep code error]
  end.

End WithEngine.
End CodeExecutor.

(* ===================================================================== *)
(** ** A reference engine and sample syntax trees

    The theorems hold for every [Engine] and every [Parser].  To run the
    program on concrete inputs, [refEngine] implements the runtime operations
    on the values the examples use: it agrees with ECMAScript on integers
    (printing, reading, [%], and [**] with a natural exponent); a non-integer
    prints as its exact decimal expansion. *)
(* ===================================================================== *)

Module Samples.
Import JS CodeExecutor.

Definition dec (z : Z) : string := NilZero.string_of_int (Z.to_int z).

Fixpoint zeros (n : nat) : string :=
  match n with
  | O => ""
  | S n' => String "0" (zeros n')
  end.

(** The integer a float denotes, when it denotes one. *)
Definition float_to_Z (f : float) : option Z :=
  match Prim2SF f with
  | S754_zero _ => Some 0%Z
  | S754_finite s m e =>
      let z := if s then Z.neg m else Z.pos m in
      if (0 <=? e)%Z then Some (z * 2 ^ e)%Z
      else if (Z.pos m mod 2 ^ (- e) =? 0)%Z then Some (z / 2 ^ (- e))%Z
      else None
  | _ => None
  end.

Definition Z_to_float (z : Z) : float :=
  if (z <? 0)%Z then PrimFloat.opp (PrimFloat.of_uint63 (Uint63.of_Z (- z)))
  else PrimFloat.of_uint63 (Uint63.of_Z z).

(** [digits] without the zeros at its end *)
Fixpoint stripZeros (digits : string) : string :=
  match digits with
  | EmptyString => EmptyString
  | String c rest =>
      match stripZeros rest with
      | EmptyString => if Ascii.eqb c "0" then EmptyString else String c EmptyString
      | kept => String c kept
      end
  end.

Definition ref_numToString (f : float) : string :=
  match Prim2SF f with
  | S754_zero _ => "0"
  | S754_infinity s => if s then "-Infinity" else "Infinity"
  | S754_nan => "NaN"
  | S754_finite s m e =>
      (if s then "-" else "") ++
      (if (0 <=? e)%Z then dec (Z.pos m * 2 ^ e)
       else
         let k := (- e)%Z in
         let fp := ((Z.pos m mod 2 ^ k) * 5 ^ k)%Z in
         if (fp =? 0)%Z then dec (Z.pos m / 2 ^ k)
         else
           let digits := dec fp in
           dec (Z.pos m / 2 ^ k) ++ "."
               ++ stripZeros (zeros (Z.to_nat k - String.length digits) ++ digits))
  end.

Definition ref_numRemainder (a b : float) : float :=
  match float_to_Z a, float_to_Z b with
  | Some x, Some y => if (y =? 0)%Z then PrimFloat.nan else Z_to_float (Z.rem x y)
  | _, _ => PrimFloat.nan
  end.

Fixpoint powN (x : float) (n : nat) : float :=
  match n with
  | O => 1
  | S n' => PrimFloat.mul x (powN x n')
  end.

Definition ref_numExponentiate (a b : float) : float :=
  match float_to_Z b with
  | Some n => if (0 <=? n)%Z then powN a (Z.to_nat n) else PrimFloat.nan
  | None => PrimFloat.nan
  end.

Fixpoint digitsValue (s : string) (acc : Z) : option Z :=
  match s with
  | EmptyString => Some acc
  | String c rest =>
      let d := (Z.of_nat (nat_of_ascii c) - 48)%Z in
      if ((0 <=? d) && (d <=? 9))%Z then digitsValue rest (10 * acc + d)%Z else None
  end.

Definition ref_stringToNumber (s : string) : float :=
  match digitsValue s 0%Z with
  | Some z => Z_to_float z
  | None => PrimFloat.nan
  end.

#[export] Instance refEngine : Engine := {|
  numToString := ref_numToString;
  numRemainder := ref_numRemainder;
  numExponentiate := ref_numExponentiate;
  stringToNumber := ref_stringToNumber;
  typeErrorMessage := fun why =>
    match why with
    | ReadOfNullish p => "Cannot read properties of undefined (reading '" ++ p ++ "')"
    | NotAFunction m => m ++ " is not a function"
    | NoPrimitiveValue => "Cannot convert object to primitive value"
    | ReadOnlyProperty p =>
        "Cannot assign to read only property '" ++ p ++ "' of object '#<Object>'"
    end
|}.

(** A parser whose answer is fixed: the closed examples give it the tree
    [esprima] builds for the source at hand. *)
Definition parserReturning (r : result value) : Parser :=
  {| parseScript := fun _ => r |}.

(** *** Trees in the shape [esprima] builds them

    A node is an object with [type] first, the fields of its kind next, and
    (under [{ range: true, loc: true }]) [range] and [loc] last. *)

Definition position (ln column : float) : value :=
  VObj [("line", VNum ln); ("column", VNum column)].

Definition location (l1 c1 l2 c2 : float) : value :=
  VObj [("start", position l1 c1); ("end", position l2 c2)].

Definition tree (ty : string) (fields : list (string * value)) (r1 r2 : float) (lc : value)
  : value :=
  VObj ((("type", VStr ty) :: fields)
          ++ [("range", VArr [VNum r1; VNum r2]); ("loc", lc)])%list.

Definition program (body : list value) (r1 r2 : float) (lc : value) : value :=
  tree "Program" [("body", VArr body); ("sourceType", VStr "script")] r1 r2 lc.

Definition identifier (name : string) (r1 r2 : float) (lc : value) : value :=
  tree "Identifier" [("name", VStr name)] r1 r2 lc.

Definition numericLiteral (n : float) (raw : string) (r1 r2 : float) (lc : value) : value :=
  tree "Literal" [("value", VNum n); ("raw", VStr raw)] r1 r2 lc.

(** The empty source: [esprima] starts counting lines at 0 when there is no
    text. *)
Definition ast_empty : value := program [] 0 0 (location 0 0 0 0).

Definition newlineString : string := String newline EmptyString.

(** Two statements on two lines: [a;] and [b;]. *)
Definition src_two_lines : string := "a;" ++ newlineString ++ "b;".

Definition ast_two_lines : value :=
  program
    [ tree "ExpressionStatement"
        [("expression", identifier "a" 0 1 (location 1 0 1 1))] 0 2 (location 1 0 1 2);
      tree "ExpressionStatement"
        [("expression", identifier "b" 3 4 (location 2 0 2 1))] 3 5 (location 2 0 2 2) ]
    0 5 (location 1 0 2 2).

Definition variableDeclaration (name : string) (init : value) (r1 r2 : float) (lc : value)
  (idr1 idr2 : float) (idlc : value) : value :=
  tree "VariableDeclaration"
    [("declarations",
      VArr [tree "VariableDeclarator"
              [("id", identifier name idr1 idr2 idlc); ("init", init)]
              idr1 (PrimFloat.sub r2 1) (location 1 idr1 1 (PrimFloat.sub r2 1))]);
     ("kind", VStr "const")] r1 r2 lc.






(** [const a = {toString: 1} + 1;] *)
Definition src_toString : string := "const a = {toString: 1} + 1;".

Definition object_with_toString : value :=
  tree "ObjectExpression"
    [("properties",
      VArr [tree "Property"
              [("key", identifier "toString" 11 19 (location 1 11 1 19));
               ("computed", VBool false);
               ("value", numericLiteral 1 "1" 21 22 (location 1 21 1 22));
               ("kind", VStr "init");
               ("method", VBool false);
               ("shorthand", VBool false)]
              11 22 (location 1 11 1 22)])]
    10 23 (location 1 10 1 23).

Definition ast_toString : value :=
  program [variableDeclaration "a"
             (tree "BinaryExpression"
                [("operator", VStr "+");
                 ("left", object_with_toString);
                 ("right", numericLiteral 1 "1" 26 27 (location 1 26 1 27))]
                10 27 (location 1 10 1 27))
             0 28 (location 1 0 1 28) 6 7 (location 1 6 1 7)]
          0 28 (location 1 0 1 28).

End Samples.

(* ===================================================================== *)
(** ** eventLoopSlice.js: the queue state machine *)
(* ===================================================================== *)

Module EventLoopSlice.
Import JS.
Import CodeExecutor(Step).

Module TASK_TYPES.
Inductive t : Type :=
| SYNCHRONOUS | SET_TIMEOUT | PROMISE | ASYNC_AWAIT | SET_INTERVAL
| FETCH | CONSOLE_LOG | VARIABLE_ASSIGNMENT | FUNCTION_CALL.
End TASK_TYPES.

Module TASK_STATUS.
Inductive t : Type := PENDING | EXECUTING | COMPLETED | ERROR | WAITING.
End TASK_STATUS.

Module ANIMATION_STATES.
Inductive t : Type := IDLE | MOVING | EXECUTING | TRANSITIONING.
End ANIMATION_STATES.

Module EXECUTION_STEPS.
Inductive t : Type :=
| IDLE | ENTERING_CALL_STACK | EXECUTING_CODE | CREATING_PROMISE
| AWAITING_RESOLUTION | MOVING_TO_QUEUE | COMPLETING.
End EXECUTION_STEPS.

Module CODE_EXECUTION_STEPS.
Inductive t : Type := PARSING | EXECUTING | COMPLETED | ERROR.
End CODE_EXECUTION_STEPS.

(** A task object.  [ref] is not a property: it is the identity of the
    JavaScript object, fixed by the object literal that created it, and the
    program never reads it.  Two tasks may agree on every property, [id]
    included, and still be two objects. *)
Record Task : Type := mkTask {
  ref : nat;
  id : float;
  type : TASK_TYPES.t;
  description : string;
  delay : value;
  status : TASK_STATUS.t;
  timestamp : float;
  animationState : ANIMATION_STATES.t;
  codeSample : string;
  executionSteps : list Step;
  currentStep : nat
}.

Definition set_status (x : TASK_STATUS.t) (task : Task) : Task :=
  mkTask (ref task) (id task) (type task) (description task) (delay task) x (timestamp task) (animationState task) (codeSample task) (executionSteps task) (currentStep task).
Definition set_animationState (x : ANIMATION_STATES.t) (task : Task) : Task :=
  mkTask (ref task) (id task) (type task) (description task) (delay task) (status task) (timestamp task) x (codeSample task) (executionSteps task) (currentStep task).

(** An entry of [consoleOutput]. *)
Record ConsoleEntry : Type := mkEntry {
  message : value;
  entryTimestamp : float;
  entryType : string
}.

(** The slice state.  The properties that only the rendering reads or writes
    (running/paused/speed flags, selection and tooltip, the code samples and
    editor text, the results of the legacy executor) are left out; no reducer
    below depends on them. *)
Record State : Type := mkState {
  callStack : list Task;
  webAPIs : list Task;
  callbackQueue : list Task;
  microtaskQueue : list Task;
  nextTaskId : float;
  currentExecutingTask : option Task;
  executionStep : EXECUTION_STEPS.t;
  consoleOutput : list ConsoleEntry;
  codeExecutionSteps : list Step;
  currentCodeStep : nat;
  codeExecutionState : CODE_EXECUTION_STEPS.t;
  codeExecutionProgress : float;
  codeExecutionVariables : list (string * value);
  isCodeExecuting : bool;
  codeExecutionPaused : bool
}.

Definition set_callStack (x : list Task) (s : State) : State :=
  mkState x (webAPIs s) (callbackQueue s) (microtaskQueue s) (nextTaskId s) (currentExecutingTask s) (executionStep s) (consoleOutput s) (codeExecutionSteps s) (currentCodeStep s) (codeExecutionState s) (codeExecutionProgress s) (codeExecutionVariables s) (isCodeExecuting s) (codeExecutionPaused s).
Definition set_webAPIs (x : list Task) (s : State) : State :=
  mkState (callStack s) x (callbackQueue s) (microtaskQueue s) (nextTaskId s) (currentExecutingTask s) (executionStep s) (consoleOutput s) (codeExecutionSteps s) (currentCodeStep s) (codeExecutionState s) (codeExecutionProgress s) (codeExecutionVariables s) (isCodeExecuting s) (codeExecutionPaused s).
Definition set_callbackQueue (x : list Task) (s : State) : State :=
  mkState (callStack s) (webAPIs s) x (microtaskQueue s) (nextTaskId s) (currentExecutingTask s) (executionStep s) (consoleOutput s) (codeExecutionSteps s) (currentCodeStep s) (codeExecutionState s) (codeExecutionProgress s) (codeExecutionVariables s) (isCodeExecuting s) (codeExecutionPaused s).
Definition set_microtaskQueue (x : list Task) (s : State) : State :=
  mkState (callStack s) (webAPIs s) (callbackQueue s) x (nextTaskId s) (currentExecutingTask s) (executionStep s) (consoleOutput s) (codeExecutionSteps s) (currentCodeStep s) (codeExecutionState s) (codeExecutionProgress s) (codeExecutionVariables s) (isCodeExecuting s) (codeExecutionPaused s).
Definition set_nextTaskId (x : float) (s : State) : State :=
  mkState (callStack s) (webAPIs s) (callbackQueue s) (microtaskQueue s) x (currentExecutingTask s) (executionStep s) (consoleOutput s) (codeExecutionSteps s) (currentCodeStep s) (codeExecutionState s) (codeExecutionProgress s) (codeExecutionVariables s) (isCodeExecuting s) (codeExecutionPaused s).
Definition set_currentExecutingTask (x : option Task) (s : State) : State :=
  mkState (callStack s) (webAPIs s) (callbackQueue s) (microtaskQueue s) (nextTaskId s) x (executionStep s) (consoleOutput s) (codeExecutionSteps s) (currentCodeStep s) (codeExecutionState s) (codeExecutionProgress s) (codeExecutionVariables s) (isCodeExecuting s) (codeExecutionPaused s).
Definition set_executionStep (x : EXECUTION_STEPS.t) (s : State) : State :=
  mkState (callStack s) (webAPIs s) (callbackQueue s) (microtaskQueue s) (nextTaskId s) (currentExecutingTask s) x (consoleOutput s) (codeExecutionSteps s) (currentCodeStep s) (codeExecutionState s) (codeExecutionProgress s) (codeExecutionVariables s) (isCodeExecuting s) (codeExecutionPaused s).
Definition set_consoleOutput (x : list ConsoleEntry) (s : State) : State :=
  mkState (callStack s) (webAPIs s) (callbackQueue s) (microtaskQueue s) (nextTaskId s) (currentExecutingTask s) (executionStep s) x (codeExecutionSteps s) (currentCodeStep s) (codeExecutionState s) (codeExecutionProgress s) (codeExecutionVariables s) (isCodeExecuting s) (codeExecutionPaused s).
Definition set_codeExecutionSteps (x : list Step) (s : State) : State :=
  mkState (callStack s) (webAPIs s) (callbackQueue s) (microtaskQueue s) (nextTaskId s) (currentExecutingTask s) (executionStep s) (consoleOutput s) x (currentCodeStep s) (codeExecutionState s) (codeExecutionProgress s) (codeExecutionVariables s) (isCodeExecuting s) (codeExecutionPaused s).
Definition set_currentCodeStep (x : nat) (s : State) : State :=
  mkState (callStack s) (webAPIs s) (callbackQueue s) (microtaskQueue s) (nextTaskId s) (currentExecutingTask s) (executionStep s) (consoleOutput s) (codeExecutionSteps s) x (codeExecutionState s) (codeExecutionProgress s) (codeExecutionVariables s) (isCodeExecuting s) (codeExecutionPaused s).
Definition set_codeExecutionState (x : CODE_EXECUTION_STEPS.t) (s : State) : State :=
  mkState (callStack s) (webAPIs s) (callbackQueue s) (microtaskQueue s) (nextTaskId s) (currentExecutingTask s) (executionStep s) (consoleOutput s) (codeExecutionSteps s) (currentCodeStep s) x (codeExecutionProgress s) (codeExecutionVariables s) (isCodeExecuting s) (codeExecutionPaused s).
Definition set_codeExecutionProgress (x : float) (s : State) : State :=
  mkState (callStack s) (webAPIs s) (callbackQueue s) (microtaskQueue s) (nextTaskId s) (currentExecutingTask s) (executionStep s) (consoleOutput s) (codeExecutionSteps s) (currentCodeStep s) (codeExecutionState s) x (codeExecutionVariables s) (isCodeExecuting s) (codeExecutionPaused s).
Definition set_codeExecutionVariables (x : list (string * value)) (s : State) : State :=
  mkState (callStack s) (webAPIs s) (callbackQueue s) (microtaskQueue s) (nextTaskId s) (currentExecutingTask s) (executionStep s) (consoleOutput s) (codeExecutionSteps s) (currentCodeStep s) (codeExecutionState s) (codeExecutionProgress s) x (isCodeExecuting s) (codeExecutionPaused s).
Definition set_isCodeExecuting (x : bool) (s : State) : State :=
  mkState (callStack s) (webAPIs s) (callbackQueue s) (microtaskQueue s) (nextTaskId s) (currentExecutingTask s) (executionStep s) (consoleOutput s) (codeExecutionSteps s) (currentCodeStep s) (codeExecutionState s) (codeExecutionProgress s) (codeExecutionVariables s) x (codeExecutionPaused s).
Definition set_codeExecutionPaused (x : bool) (s : State) : State :=
  mkState (callStack s) (webAPIs s) (callbackQueue s) (microtaskQueue s) (nextTaskId s) (currentExecutingTask s) (executionStep s) (consoleOutput s) (codeExecutionSteps s) (currentCodeStep s) (codeExecutionState s) (codeExecutionProgress s) (codeExecutionVariables s) (isCodeExecuting s) x.

Definition initialState : State :=
  mkState [] [] [] [] 1 None EXECUTION_STEPS.IDLE [] [] 0 CODE_EXECUTION_STEPS.PARSING 0
          [] false false.

(** What a reducer or thunk reads from the environment while it runs:
    [Date.now()], [Math.random()], [new Date().toLocaleTimeString()]. *)
Record Clock : Type := mkClock {
  now : float;
  random : float;
  timeString : string
}.

(** *** The regular expressions of [getTaskExecutionResult]

    [/prefix(.+)/]: the leftmost place where [prefix] is followed by at least
    one character that is not a line terminator; the capture runs to the next
    line terminator.  Strings are UTF-8 here, so U+2028 and U+2029 are the
    three bytes E2 80 A8 and E2 80 A9. *)

Definition lineTerminatorAt (s : string) : bool :=
  match s with
  | String c rest =>
      if (nat_of_ascii c =? 10)%nat || (nat_of_ascii c =? 13)%nat then true
      else match rest with
           | String c1 (String c2 _) =>
               (nat_of_ascii c =? 226)%nat && (nat_of_ascii c1 =? 128)%nat
               && ((nat_of_ascii c2 =? 168)%nat || (nat_of_ascii c2 =? 169)%nat)
           | _ => false
           end
  | EmptyString => false
  end.

Fixpoint dotPlus (s : string) : string :=
  match s with
  | EmptyString => EmptyString
  | String c rest => if lineTerminatorAt s then EmptyString else String c (dotPlus rest)
  end.

Fixpoint skip (n : nat) (s : string) : string :=
  match n, s with
  | S n', String _ rest => skip n' rest
  | _, _ => s
  end.

Definition captureHere (prefix s : string) : option string :=
  if String.prefix prefix s then
    match dotPlus (skip (String.length prefix) s) with
    | EmptyString => None
    | capture => Some capture
    end
  else None.

Fixpoint matchAfter (prefix s : string) : option string :=
  match captureHere prefix s with
  | Some capture => Some capture
  | None =>
      match s with
      | EmptyString => None
      | String _ rest => matchAfter prefix rest
      end
  end.

Section WithEngine.
Context {E : Engine}.

Import TASK_TYPES.

(** *** Console messages *)

Definition getTaskStartMessage (task : Task) (timestamp : string) : string :=
  match type task with
  | CONSOLE_LOG => "📝 [" ++ timestamp ++ "] Executing console.log: " ++ description task
  | SET_TIMEOUT =>
      "⏰ [" ++ timestamp ++ "] Executing setTimeout callback (" ++ show (delay task) ++ "ms)"
  | PROMISE => "🔮 [" ++ timestamp ++ "] Executing Promise microtask"
  | ASYNC_AWAIT => "🔄 [" ++ timestamp ++ "] Executing async/await operation"
  | VARIABLE_ASSIGNMENT => "📊 [" ++ timestamp ++ "] Executing variable assignment"
  | FUNCTION_CALL => "📞 [" ++ timestamp ++ "] Executing function call"
  | SYNCHRONOUS => "⚡ [" ++ timestamp ++ "] Executing synchronous task"
  | _ => "🔄 [" ++ timestamp ++ "] Executing: " ++ description task
  end.

Definition getTaskCompletionMessage (task : Task) (timestamp : string) : string :=
  match type task with
  | CONSOLE_LOG => "✅ [" ++ timestamp ++ "] Console.log completed: " ++ description task
  | SET_TIMEOUT =>
      "✅ [" ++ timestamp ++ "] setTimeout callback completed (" ++ show (delay task) ++ "ms)"
  | PROMISE => "✅ [" ++ timestamp ++ "] Promise microtask completed"
  | ASYNC_AWAIT => "✅ [" ++ timestamp ++ "] Async/await operation completed"
  | VARIABLE_ASSIGNMENT => "✅ [" ++ timestamp ++ "] Variable assignment completed"
  | FUNCTION_CALL => "✅ [" ++ timestamp ++ "] Function call completed"
  | SYNCHRONOUS => "✅ [" ++ timestamp ++ "] Synchronous task completed"
  | _ => "✅ [" ++ timestamp ++ "] Task completed: " ++ description task
  end.

(** [None] is the source's [null]. *)
Definition getTaskExecutionResult (task : Task) (timestamp : string) : option string :=
  match type task with
  | CONSOLE_LOG =>
      match matchAfter "Console.log: " (description task) with
      | Some m => Some ("📤 [" ++ timestamp ++ "] Output: " ++ m)
      | None => None
      end
  | VARIABLE_ASSIGNMENT =>
      match matchAfter "Variable assignment: " (description task) with
      | Some m => Some ("📊 [" ++ timestamp ++ "] Result: " ++ m)
      | None => None
      end
  | FUNCTION_CALL =>
      match matchAfter "Function call: " (description task) with
      | Some m => Some ("📞 [" ++ timestamp ++ "] Function executed: " ++ m)
      | None => None
      end
  | SET_TIMEOUT =>
      Some ("⏰ [" ++ timestamp ++ "] Callback executed after " ++ show (delay task)
              ++ "ms delay")
  | PROMISE => Some ("🔮 [" ++ timestamp ++ "] Promise resolved successfully")
  | ASYNC_AWAIT => Some ("🔄 [" ++ timestamp ++ "] Async operation resolved")
  | _ => None
  end.

(** *** Reducers

    A reducer is a function from the state and the action payload to the next
    state.  Assignments to the payload object ([task.status = ...]) are made
    on the task before it is stored.  The reducers that assign to their
    payload are given here for a payload that can be written, an object of
    the dispatcher's own; what happens to a payload read from the store is
    [marksPayload] below. *)

Definition entry (clock : Clock) (msg : value) (kind : string) : ConsoleEntry :=
  mkEntry msg (now clock) kind.

(** [if (length > 20) consoleOutput = consoleOutput.slice(-20)] *)
Definition keepLast20 (out : list ConsoleEntry) : list ConsoleEntry :=
  if (20 <? List.length out)%nat then skipn (List.length out - 20) out else out.

Definition pending (task : Task) : Task :=
  set_animationState ANIMATION_STATES.MOVING (set_status TASK_STATUS.PENDING task).

Definition waiting (task : Task) : Task :=
  set_animationState ANIMATION_STATES.MOVING (set_status TASK_STATUS.WAITING task).

Definition executing (task : Task) : Task :=
  set_animationState ANIMATION_STATES.EXECUTING (set_status TASK_STATUS.EXECUTING task).

Definition addToCallStack (state : State) (task : Task) : State :=
  set_nextTaskId (PrimFloat.add (nextTaskId state) 1)
    (set_callStack (callStack state ++ [pending task])%list state).

Definition addToWebAPIs (state : State) (task : Task) : State :=
  set_nextTaskId (PrimFloat.add (nextTaskId state) 1)
    (set_webAPIs (webAPIs state ++ [waiting task])%list state).

Definition addToCallbackQueue (state : State) (task : Task) : State :=
  set_callbackQueue (callbackQueue state ++ [pending task])%list state.

Definition addToMicrotaskQueue (state : State) (task : Task) : State :=
  set_nextTaskId (PrimFloat.add (nextTaskId state) 1)
    (set_microtaskQueue (microtaskQueue state ++ [pending task])%list state).

(** [queue.filter(t => t.id !== task.id)] *)
Definition without (task : Task) (queue : list Task) : list Task :=
  filter (fun t => negb (PrimFloat.eqb (id t) (id task))) queue.

(** The part the three [execute...WithSteps] reducers share: mark the task,
    make it the executing task, log its start. *)
Definition beginExecution (state : State) (task : Task) (step : EXECUTION_STEPS.t)
  (clock : Clock) : State :=
  set_consoleOutput
    (consoleOutput state
       ++ [entry clock (VStr (getTaskStartMessage task (timeString clock))) "info"])%list
    (set_executionStep step
       (set_currentExecutingTask (Some (executing task)) state)).

Definition executeSynchronousTaskWithSteps (state : State) (task : Task) (clock : Clock)
  : State :=
  let state := beginExecution state task EXECUTION_STEPS.ENTERING_CALL_STACK clock in
  set_callStack (without task (callStack state)) state.

Definition executeCallbackWithSteps (state : State) (task : Task) (clock : Clock) : State :=
  let state := beginExecution state task EXECUTION_STEPS.EXECUTING_CODE clock in
  set_callbackQueue (without task (callbackQueue state)) state.

Definition executeMicrotaskWithSteps (state : State) (task : Task) (clock : Clock) : State :=
  let state := beginExecution state task EXECUTION_STEPS.EXECUTING_CODE clock in
  set_microtaskQueue (without task (microtaskQueue state)) state.

(** *** Payloads read from the store

    The store is made by [configureStore] from the reducer of [createSlice],
    so every state is produced by Immer, which freezes it deeply: each task
    object the store holds is frozen.  A reducer receives its payload as it
    was dispatched, not as a draft, and the slice is strict-mode code.  So
    when the payload is an object read from the store, the first statement of
    a reducer that marks its payload, [task.status = ...], throws a
    [TypeError] before the reducer has changed anything, and the store keeps
    its state. *)
Inductive Origin : Type :=
| Own      (* an object of the dispatcher's own *)
| Stored.  (* an object read from the store: frozen *)

(** A reducer that starts with [task.status = ...], dispatched with a payload
    of the given origin; [next] is what the reducer makes of a payload it can
    write. *)
Definition marksPayload (payload : Origin) (next : State) : result State :=
  match payload with
  | Own => Ok next
  | Stored => Throw (TypeError (ReadOnlyProperty "status"))
  end.

Definition completeTaskExecution (state : State) (taskId : float) (clock : Clock) : State :=
  match currentExecutingTask state with
  | Some task =>
      if PrimFloat.eqb (id task) taskId then
        let out :=
          (consoleOutput state
             ++ [entry clock (VStr (getTaskCompletionMessage task (timeString clock)))
                       "success"])%list in
        let out :=
          match getTaskExecutionResult task (timeString clock) with
          | Some executionResult => (out ++ [entry clock (VStr executionResult) "result"])%list
          | None => out
          end in
        set_consoleOutput (keepLast20 out)
          (set_executionStep EXECUTION_STEPS.IDLE
             (set_currentExecutingTask None state))
      else state
  | None => state
  end.

Definition setTaskError (state : State) (taskId : float) (error : value) (clock : Clock)
  : State :=
  match currentExecutingTask state with
  | Some task =>
      if PrimFloat.eqb (id task) taskId then
        let out :=
          (consoleOutput state
             ++ [entry clock
                       (VStr ("❌ Error in " ++ description task ++ ": " ++ show error))
                       "error"])%list in
        set_consoleOutput (keepLast20 out)
          (set_executionStep EXECUTION_STEPS.IDLE
             (set_currentExecutingTask None state))
      else state
  | None => state
  end.

Definition setExecutionStep (state : State) (step : EXECUTION_STEPS.t) : State :=
  set_executionStep step state.

Definition addConsoleOutput (state : State) (payload : value) (clock : Clock) : State :=
  set_consoleOutput (keepLast20 (consoleOutput state ++ [entry clock payload "log"])%list)
    state.

Definition clearConsoleOutput (state : State) : State := set_consoleOutput [] state.

Definition clearCodeExecutionState (state : State) : State :=
  set_codeExecutionPaused false
    (set_isCodeExecuting false
       (set_codeExecutionVariables []
          (set_codeExecutionProgress 0
             (set_codeExecutionState CODE_EXECUTION_STEPS.PARSING
                (set_currentCodeStep 0
                   (set_codeExecutionSteps [] state)))))).

Definition clearAll (state : State) : State :=
  clearCodeExecutionState
    (set_executionStep EXECUTION_STEPS.IDLE
       (set_currentExecutingTask None
          (set_microtaskQueue []
             (set_callbackQueue []
                (set_webAPIs []
                   (set_callStack [] state)))))).

(** [webAPIs.findIndex(t => t.id === taskId)], [None] for [-1] *)
Fixpoint findIndex (taskId : float) (queue : list Task) : option nat :=
  match queue with
  | [] => None
  | t :: rest =>
      if PrimFloat.eqb (id t) taskId then Some 0%nat
      else option_map S (findIndex taskId rest)
  end.

(** [queue.splice(index, 1)] *)
Definition splice1 (index : nat) (queue : list Task) : list Task :=
  (firstn index queue ++ skipn (S index) queue)%list.

Definition moveFromWebAPIToCallback (state : State) (taskId : float) : State :=
  match findIndex taskId (webAPIs state) with
  | Some taskIndex =>
      match nth_error (webAPIs state) taskIndex with
      | Some task =>
          let task := set_animationState ANIMATION_STATES.MOVING task in
          set_callbackQueue (callbackQueue state ++ [task])%list
            (set_webAPIs (splice1 taskIndex (webAPIs state)) state)
      | None => state
      end
  | None => state
  end.

(** [codeExecutionProgress]: [(step / length) * 100], or 0 without steps *)
Definition progress (step : nat) (steps : list Step) : float :=
  if (0 <? List.length steps)%nat
  then PrimFloat.mul (PrimFloat.div (nat_to_num step) (nat_to_num (List.length steps))) 100
  else 0.

Definition setCodeExecutionSteps (state : State) (steps : list Step) : State :=
  set_codeExecutionProgress 0 (set_currentCodeStep 0 (set_codeExecutionSteps steps state)).

Definition setCodeExecutionState (state : State) (x : CODE_EXECUTION_STEPS.t) : State :=
  set_codeExecutionState x state.

(** [{ ...state.codeExecutionVariables, ...action.payload }] *)
Definition updateCodeExecutionVariables (state : State) (payload : list (string * value))
  : State :=
  set_codeExecutionVariables
    (fold_left (fun acc kv => obj_set acc (fst kv) (snd kv)) payload
               (codeExecutionVariables state))
    state.

(** *** [extraReducers]: what a settled thunk does to the state *)

Definition addTask_fulfilled (state : State) (task : Task) : State :=
  let state :=
    match type task with
    | SYNCHRONOUS | CONSOLE_LOG | VARIABLE_ASSIGNMENT | FUNCTION_CALL =>
        set_callStack (callStack state ++ [task])%list state
    | PROMISE | ASYNC_AWAIT =>
        set_microtaskQueue (microtaskQueue state ++ [task])%list state
    | _ => set_webAPIs (webAPIs state ++ [task])%list state
    end in
  set_nextTaskId (PrimFloat.add (nextTaskId state) 1) state.

Definition executeCustomCode_fulfilled (state : State) : State :=
  set_codeExecutionPaused false (set_isCodeExecuting true state).

Definition executeNextCodeStep_fulfilled (state : State) (payload : option Step) : State :=
  match payload with
  | Some _ =>
      let state := set_currentCodeStep (currentCodeStep state + 1) state in
      let state :=
        set_codeExecutionProgress
          (progress (currentCodeStep state) (codeExecutionSteps state)) state in
      if (List.length (codeExecutionSteps state) <=? currentCodeStep state)%nat then
        set_codeExecutionState CODE_EXECUTION_STEPS.COMPLETED
          (set_isCodeExecuting false state)
      else state
  | None => state
  end.

(** *** Thunks

    A thunk reads the state, dispatches reducers (each takes effect at once)
    and returns a payload; its [fulfilled] action is dispatched later, when
    the promise settles.  [ref] is the identity of the task object the thunk
    creates. *)

Record AddTaskArgs : Type := mkArgs {
  argType : TASK_TYPES.t;
  argDelay : value;              (* [undefined] when omitted: defaults to 0 *)
  argDescription : string;
  argCodeSample : option string  (* defaults to 'synchronous' *)
}.

(** The payload creator of [addTask]. *)
Definition addTask (state : State) (args : AddTaskArgs) (clock : Clock) (ref : nat) : Task :=
  mkTask ref (nextTaskId state) (argType args) (argDescription args)
         (match argDelay args with VUndef => VNum 0 | d => d end)
         TASK_STATUS.PENDING (now clock) ANIMATION_STATES.IDLE
         (match argCodeSample args with Some c => c | None => "synchronous" end)
         [] 0.

Definition getTaskTypeFromStep (step : Step) : TASK_TYPES.t :=
  let action := CodeExecutor.action step in
  if String.eqb action "console" then CONSOLE_LOG
  else if String.eqb action "setTimeout" then SET_TIMEOUT
  else if String.eqb action "promise" then PROMISE
  else if String.eqb action "fetch" then FETCH
  else if String.eqb action "await" then ASYNC_AWAIT
  else if String.eqb action "variableAssignment" || String.eqb action "variableDeclaration"
  then VARIABLE_ASSIGNMENT
  else if String.eqb action "functionCall" || String.eqb action "functionDeclaration"
  then FUNCTION_CALL
  else SYNCHRONOUS.

(** The object literal [executeNextCodeStep] passes to the admission reducer. *)
Definition taskOfStep (step : Step) (status : TASK_STATUS.t) (clock : Clock) (ref : nat)
  : Task :=
  mkTask ref (PrimFloat.add (now clock) (random clock)) (getTaskTypeFromStep step)
         (CodeExecutor.description step) (js_or (CodeExecutor.delay step) (VNum 0))
         status (now clock) ANIMATION_STATES.MOVING "custom" [step] 0.

(** The [switch (step.queue)] of [executeNextCodeStep]; it has no [default]. *)
Definition admitStep (state : State) (step : Step) (clock : Clock) (ref : nat) : State :=
  let queue := CodeExecutor.queue step in
  if is_str queue "callStack" then
    addToCallStack state (taskOfStep step TASK_STATUS.PENDING clock ref)
  else if is_str queue "webAPIs" then
    addToWebAPIs state (taskOfStep step TASK_STATUS.WAITING clock ref)
  else if is_str queue "microtaskQueue" then
    addToMicrotaskQueue state (taskOfStep step TASK_STATUS.PENDING clock ref)
  else state.

Definition executeNextCodeStep (state : State) (clock : Clock) (ref : nat)
  : State * option Step :=
  if negb (isCodeExecuting state)
     || (List.length (codeExecutionSteps state) <=? currentCodeStep state)%nat
  then (state, None)
  else
    match nth_error (codeExecutionSteps state) (currentCodeStep state) with
    | None => (state, None)
    | Some step =>
        let state := admitStep state step clock ref in
        let state :=
          if truthy (CodeExecutor.output step)
          then addConsoleOutput state (CodeExecutor.output step) clock
          else state in
        let state :=
          match CodeExecutor.variables step with
          | [] => state
          | vars => updateCodeExecutionVariables state vars
          end in
        (state, Some step)
    end.

Context {P : CodeExecutor.Parser}.

Definition executeCustomCode (state : State) (code : string) : State :=
  let steps := CodeExecutor.parseCodeToSteps code in
  setCodeExecutionState
    (setCodeExecutionSteps (clearCodeExecutionState state) steps)
    CODE_EXECUTION_STEPS.EXECUTING.

(** What [executeNextTask] returns: [{ task, type }]. *)
Record Selection : Type := mkSelection {
  task : Task;
  kind : string
}.

(** [dispatch(execute...WithSteps(task)); return { task, type }] inside
    [executeNextTask].  The payload is [state.eventLoop.<queue>\[0\]], an
    object of the store.  An exception of the dispatch leaves the payload
    creator: the thunk is rejected with it and nothing is returned. *)
Definition dispatchStart (state next : State) (task : Task) (kind : string)
  : State * result (option Selection) :=
  match marksPayload Stored next with
  | Ok state' => (state', Ok (Some (mkSelection (executing task) kind)))
  | Throw error => (state, Throw error)
  end.

(** [executeNextTask]: pick the head of the first non-empty queue and dispatch
    its [execute...WithSteps] reducer with it.  [Ok None] is the thunk
    returning [null], [Throw] the thunk rejected. *)
Definition executeNextTask (state : State) (clock : Clock)
  : State * result (option Selection) :=
  match microtaskQueue state with
  | task :: _ =>
      dispatchStart state (executeMicrotaskWithSteps state task clock) task "microtask"
  | [] =>
      match callbackQueue state with
      | task :: _ =>
          dispatchStart state (executeCallbackWithSteps state task clock) task "callback"
      | [] =>
          match callStack state with
          | task :: _ =>
              dispatchStart state (executeSynchronousTaskWithSteps state task clock)
                            task "synchronous"
          | [] => (state, Ok None)
          end
      end
  end.

Definition executeStep (state : State) (step : EXECUTION_STEPS.t) (clock : Clock) : State :=
  match currentExecutingTask state with
  | None => state
  | Some currentTask =>
      match step with
      | EXECUTION_STEPS.IDLE => state
      | EXECUTION_STEPS.EXECUTING_CODE =>
          addConsoleOutput (setExecutionStep state step)
            (VStr ("Executing: " ++ description currentTask)) clock
      | EXECUTION_STEPS.CREATING_PROMISE =>
          addConsoleOutput (setExecutionStep state step)
            (VStr "Creating Promise...") clock
      | EXECUTION_STEPS.AWAITING_RESOLUTION =>
          addConsoleOutput (setExecutionStep state step)
            (VStr "Awaiting Promise resolution...") clock
      | EXECUTION_STEPS.COMPLETING =>
          addConsoleOutput (setExecutionStep state step)
            (VStr ("Completed: " ++ description currentTask)) clock
      | _ => setExecutionStep state step
      end
  end.

(** *** The store over time

    [inFlight] holds the [fulfilled] actions of the thunks that have run and
    not settled yet; they settle in any order. *)

Inductive Action : Type :=
| AddTaskFulfilled (task : Task)
| ExecuteNextCodeStepFulfilled (payload : option Step)
| ExecuteCustomCodeFulfilled.

Record System : Type := mkSystem {
  store : State;
  nextRef : nat;
  inFlight : list Action
}.

Inductive Event : Type :=
| DispatchAddTask (args : AddTaskArgs) (clock : Clock)
| DispatchExecuteNextCodeStep (clock : Clock)
| DispatchExecuteCustomCode (code : string)
| DispatchExecuteNextTask (clock : Clock)
| DispatchExecuteStep (step : EXECUTION_STEPS.t) (clock : Clock)
| Settle (n : nat)
| MoveFromWebAPIToCallback (taskId : float)
| CompleteTaskExecution (taskId : float) (clock : Clock)
| SetTaskError (taskId : float) (error : value) (clock : Clock)
| AddConsoleOutput (payload : value) (clock : Clock)
| ClearConsoleOutput
| ClearAll.

Definition reduce (state : State) (a : Action) : State :=
  match a with
  | AddTaskFulfilled task => addTask_fulfilled state task
  | ExecuteNextCodeStepFulfilled payload => executeNextCodeStep_fulfilled state payload
  | ExecuteCustomCodeFulfilled => executeCustomCode_fulfilled state
  end.

Definition remove_nth {A} (n : nat) (l : list A) : list A :=
  (firstn n l ++ skipn (S n) l)%list.

Definition dispatch (sys : System) (ev : Event) : System :=
  let state := store sys in
  match ev with
  | DispatchAddTask args clock =>
      mkSystem state (S (nextRef sys))
               (inFlight sys ++ [AddTaskFulfilled (addTask state args clock (nextRef sys))])%list
  | DispatchExecuteNextCodeStep clock =>
      let (state', payload) := executeNextCodeStep state clock (nextRef sys) in
      mkSystem state' (S (nextRef sys))
               (inFlight sys ++ [ExecuteNextCodeStepFulfilled payload])%list
  | DispatchExecuteCustomCode code =>
      mkSystem (executeCustomCode state code) (nextRef sys)
               (inFlight sys ++ [ExecuteCustomCodeFulfilled])%list
  | DispatchExecuteNextTask clock =>
      mkSystem (fst (executeNextTask state clock)) (nextRef sys) (inFlight sys)
  | DispatchExecuteStep step clock =>
      mkSystem (executeStep state step clock) (nextRef sys) (inFlight sys)
  | Settle n =>
      match nth_error (inFlight sys) n with
      | Some a => mkSystem (reduce state a) (nextRef sys) (remove_nth n (inFlight sys))
      | None => sys
      end
  | MoveFromWebAPIToCallback taskId =>
      mkSystem (moveFromWebAPIToCallback state taskId) (nextRef sys) (inFlight sys)
  | CompleteTaskExecution taskId clock =>
      mkSystem (completeTaskExecution state taskId clock) (nextRef sys) (inFlight sys)
  | SetTaskError taskId error clock =>
      mkSystem (setTaskError state taskId error clock) (nextRef sys) (inFlight sys)
  | AddConsoleOutput payload clock =>
      mkSystem (addConsoleOutput state payload clock) (nextRef sys) (inFlight sys)
  | ClearConsoleOutput => mkSystem (clearConsoleOutput state) (nextRef sys) (inFlight sys)
  | ClearAll => mkSystem (clearAll state) (nextRef sys) (inFlight sys)
  end.

Definition initialSystem : System := mkSystem initialState 0 [].

Definition run (sys : System) (events : list Event) : System :=
  fold_left dispatch events sys.

End WithEngine.

End EventLoopSlice.

(* ===================================================================== *)
(** ** Scenarios: concrete clocks, admissions and runs *)
(* ===================================================================== *)

Module Scenarios.
Import JS CodeExecutor EventLoopSlice Samples.

(** The scenarios run on the reference engine. *)
#[local] Existing Instance refEngine.

(** A clock reading; the random draw differs between readings taken in the
    same millisecond. *)
Definition at_ms (ms draw : float) : Clock := mkClock ms draw "12:00:00".

Definition noon : Clock := at_ms 1700000000000 0.5.

Definition logArgs : AddTaskArgs :=
  mkArgs TASK_TYPES.CONSOLE_LOG VUndef "Console output: console.log('a');" None.

Definition promiseArgs : AddTaskArgs :=
  mkArgs TASK_TYPES.PROMISE VUndef "Promise microtask" None.

Definition timeoutArgs : AddTaskArgs :=
  mkArgs TASK_TYPES.SET_TIMEOUT (VNum 500) "setTimeout callback (500ms)" None.

(** The parser of the scenarios answers with the tree of [a; b;] on two lines. *)
#[local] Instance twoLines : Parser := parserReturning (Ok ast_two_lines).

(** Two promise tasks admitted one after the other, each settled before the
    next is dispatched. *)
Definition twoMicrotasks : System :=
  run initialSystem
      [DispatchAddTask promiseArgs noon; Settle 0;
       DispatchAddTask promiseArgs noon; Settle 0].

(** [addTask] dispatched twice in a row, as the loop of [executeCode] in
    [EventLoopVisualizer.jsx] does; the two promises settle afterwards. *)
Definition backToBack : System :=
  run initialSystem
      [DispatchAddTask logArgs noon; DispatchAddTask promiseArgs noon;
       Settle 0; Settle 0].

(** Custom code is loaded and its first two steps past the synthetic start
    step are admitted within one millisecond. *)
Definition sameMillisecond : System :=
  run initialSystem
      [DispatchExecuteCustomCode src_two_lines; Settle 0;
       DispatchExecuteNextCodeStep noon; Settle 0;
       DispatchExecuteNextCodeStep (at_ms 1700000000000 0.75); Settle 0;
       DispatchExecuteNextCodeStep (at_ms 1700000000000 0.25); Settle 0].

(** Custom code is loaded and is about to execute its first step. *)
Definition loaded : State :=
  store (run initialSystem [DispatchExecuteCustomCode src_two_lines; Settle 0]).

(** Twenty plain outputs. *)
Definition fullLog : System :=
  run initialSystem (repeat (AddConsoleOutput (VStr "tick") noon) 20).

(** After them a promise task is admitted and [executeNextTask] dispatched. *)
Definition fullLogThenStart : System :=
  run fullLog [DispatchAddTask promiseArgs noon; Settle 0; DispatchExecuteNextTask noon].

(** A task object written out by whoever dispatches a start reducer with it:
    it is not read from the store. *)
Definition ownPromise : Task :=
  mkTask 0 1 TASK_TYPES.PROMISE "Promise microtask" (VNum 0) TASK_STATUS.PENDING
         (now noon) ANIMATION_STATES.IDLE "synchronous" [] 0.

(** A step written out by hand: its [queue] names no container, it has an
    output and a variable.  [setCodeExecutionSteps] installs it and the
    execution is switched on. *)
Definition oddStep : Step :=
  mkStep (VStr "ExpressionStatement") (VNum 1) VUndef VUndef "A step for no container"
         "expression" false (VNum 0) "x = 1;" [("x", VNum 1)] (VStr "out")
         (VStr "nowhere") (VNum 1).

Definition withOddStep : State :=
  executeCustomCode_fulfilled (setCodeExecutionSteps initialState [oddStep]).

End Scenarios.

(* ===================================================================== *)
(** ** Notions the properties are stated with *)
(* ===================================================================== *)

Module Notions.
Import JS CodeExecutor EventLoopSlice.

(** Every task held by one of the four containers, container by container. *)
Definition queued (state : State) : list Task :=
  (callStack state ++ webAPIs state ++ callbackQueue state ++ microtaskQueue state)%list.

(** Does the container hold the task object [r]? *)
Definition holds (container : list Task) (r : nat) : bool :=
  existsb (fun t => Nat.eqb (ref t) r) container.

(** In how many of the four containers does the object [r] sit? *)
Definition containersHolding (state : State) (r : nat) : nat :=
  (if holds (callStack state) r then 1 else 0)
  + (if holds (webAPIs state) r then 1 else 0)
  + (if holds (callbackQueue state) r then 1 else 0)
  + (if holds (microtaskQueue state) r then 1 else 0).

(** How many times the object [r] occurs in a list of tasks. *)
Definition occurrences (r : nat) (tasks : list Task) : nat :=
  List.length (filter (fun t => Nat.eqb (ref t) r) tasks).

(** The values [traverseAST] visits, in the order the specification names:
    pre-order.  A visited value comes first, then what is reached through its
    properties, property after property; an array-valued property contributes
    its elements one after the other. *)
Fixpoint preorder (node : value) : list value :=
  if negb (truthy node) then []
  else
    node ::
    match node with
    | VObj fields =>
        (fix properties (fs : list (string * value)) : list value :=
           match fs with
           | [] => []
           | (_, child) :: rest =>
               (match child with
                | VArr l =>
                    (fix elements (l : list value) : list value :=
                       match l with
                       | [] => []
                       | c :: l' => preorder c ++ elements l'
                       end) l
                | VObj _ => preorder child
                | _ => []
                end ++ properties rest)%list
           end) fields
    | VArr elems =>
        (fix properties (es : list value) : list value :=
           match es with
           | [] => []
           | child :: rest =>
               (match child with
                | VArr l =>
                    (fix elements (l : list value) : list value :=
                       match l with
                       | [] => []
                       | c :: l' => preorder c ++ elements l'
                       end) l
                | VObj _ => preorder child
                | _ => []
                end ++ properties rest)%list
           end) elems
    | _ => []
    end.

(** What a node's properties lead to: the values of an object's properties,
    the elements of an array. *)
Definition children (node : value) : list value :=
  match node with
  | VObj fields => map snd fields
  | VArr elems => elems
  | _ => []
  end.

(** What is visited through one property value. *)
Definition below (child : value) : list value :=
  match child with
  | VArr l => flat_map preorder l
  | VObj _ => preorder child
  | _ => []
  end.

(** A loop that threads a state and stops at the first exception. *)
Fixpoint foldM {A S} (f : A -> S -> result S) (l : list A) (s : S) : result S :=
  match l with
  | [] => Ok s
  | a :: rest => bind (f a s) (foldM f rest)
  end.

(** The body of the [for ... in] loop of [traverseAST]. *)
Definition traverseChild {E : Engine} (lineOffset node child : value) (steps : list Step)
  : result (list Step) :=
  match child with
  | VArr l => foldM (fun c steps => traverseAST c steps node lineOffset) l steps
  | VObj _ => traverseAST child steps node lineOffset
  | _ => Ok steps
  end.

(** The steps of a list of visited values, appended to [steps] in order. *)
Fixpoint emit {E : Engine} (lineOffset : value) (nodes : list value) (steps : list Step)
  : result (list Step) :=
  match nodes with
  | [] => Ok steps
  | node :: rest =>
      step <- createExecutionStep node VNull lineOffset;;
      emit lineOffset rest (push steps step)
  end.

(** The line of a step, as a number. *)
Definition lineNumber (step : Step) : float := toNumber_prim (line step).

Fixpoint nonDecreasing (lines : list float) : bool :=
  match lines with
  | a :: (b :: _) as rest => PrimFloat.leb a b && nonDecreasing rest
  | _ => true
  end.

Fixpoint countNewlines (code : string) : nat :=
  match code with
  | EmptyString => 0
  | String c rest => (if Ascii.eqb c newline then 1 else 0) + countNewlines rest
  end.

(** Induction on values, with the hypothesis for every element of an array
    and every property of an object. *)
Section ValueInduction.
Variable Q : value -> Prop.
Hypothesis Hundef : Q VUndef.
Hypothesis Hnull : Q VNull.
Hypothesis Hbool : forall b, Q (VBool b).
Hypothesis Hnum : forall n, Q (VNum n).
Hypothesis Hstr : forall s, Q (VStr s).
Hypothesis Harr : forall l, Forall Q l -> Q (VArr l).
Hypothesis Hobj : forall fs, Forall (fun kv => Q (snd kv)) fs -> Q (VObj fs).

Fixpoint value_induction (v : value) : Q v :=
  match v with
  | VUndef => Hundef
  | VNull => Hnull
  | VBool b => Hbool b
  | VNum n => Hnum n
  | VStr s => Hstr s
  | VArr l =>
      Harr l ((fix all (l : list value) : Forall Q l :=
                 match l with
                 | [] => Forall_nil Q
                 | x :: rest => Forall_cons x (value_induction x) (all rest)
                 end) l)
  | VObj fs =>
      Hobj fs ((fix all (fs : list (string * value))
                  : Forall (fun kv => Q (snd kv)) fs :=
                  match fs with
                  | [] => Forall_nil _
                  | kv :: rest =>
                      Forall_cons kv (value_induction (snd kv)) (all rest)
                  end) fs)
  end.
End ValueInduction.


End Notions.

(* ===================================================================== *)
(** ** Properties of the queue state machine *)
(* ===================================================================== *)

Module SchedulerProperties.
Import JS CodeExecutor EventLoopSlice Notions.

Section Selection.
Context {E : Engine} {P : Parser}.

Lemma without_spec (head t : Task) (queue : list Task) :
  In t (without head queue) <->
  In t queue /\ PrimFloat.eqb (id t) (id head) = false.
Proof.
  unfold without. rewrite filter_In, negb_true_iff. tauto.
Qed.

(** What a call of [executeNextTask] comes to: the queues are consulted in
    the order microtask queue, callback queue, call stack; with a task in
    one of them the start reducer is dispatched with that task, an object of
    the store, and throws; the state is never changed. *)
Lemma executeNextTask_outcome (state : State) (clock : Clock) :
  fst (executeNextTask state clock) = state
  /\ snd (executeNextTask state clock)
     = match microtaskQueue state, callbackQueue state, callStack state with
       | [], [], [] => Ok None
       | _, _, _ => Throw (TypeError (ReadOnlyProperty "status"))
       end.
Proof.
  unfold executeNextTask, dispatchStart, marksPayload.
  destruct (microtaskQueue state); [|split; reflexivity].
  destruct (callbackQueue state); [|split; reflexivity].
  destruct (callStack state); split; reflexivity.
Qed.


(** The reducers that follow the admission in [executeNextCodeStep] leave
    the containers and the id counter alone. *)
Lemma executeNextCodeStep_after_admit (state : State) (clock : Clock) (ref : nat)
  (step : Step) :
  isCodeExecuting state = true ->
  nth_error (codeExecutionSteps state) (currentCodeStep state) = Some step ->
  let result := executeNextCodeStep state clock ref in
  snd result = Some step
  /\ callStack (fst result) = callStack (admitStep state step clock ref)
  /\ webAPIs (fst result) = webAPIs (admitStep state step clock ref)
  /\ callbackQueue (fst result) = callbackQueue (admitStep state step clock ref)
  /\ microtaskQueue (fst result) = microtaskQueue (admitStep state step clock ref)
  /\ nextTaskId (fst result) = nextTaskId (admitStep state step clock ref).
Proof.
  intros Hrun Hstep. unfold executeNextCodeStep. rewrite Hrun, Hstep. simpl.
  assert (Hlt : (List.length (codeExecutionSteps state) <=? currentCodeStep state)%nat = false).
  { apply Nat.leb_gt. apply nth_error_Some. congruence. }
  rewrite Hlt. simpl.
  destruct (truthy (output step)); destruct (variables step); repeat split; reflexivity.
Qed.

(** C7, as the code has it.  While custom code is executing,
    [executeNextCodeStep] always returns the current step.  The step is
    admitted, as a new task at the end of the container, only when its
    [queue] is ['callStack'], ['webAPIs'] or ['microtaskQueue']; for any other
    [queue] no task is created: the four containers and the id counter are
    unchanged.  Whatever the [queue], the step's output, when it is truthy,
    is appended to the log by [addConsoleOutput], and its variables are
    merged into the variables of the execution as
    [updateCodeExecutionVariables] merges them. *)
Theorem executeNextCodeStep_admission (state : State) (clock : Clock) (ref : nat)
  (step : Step) :
  isCodeExecuting state = true ->
  nth_error (codeExecutionSteps state) (currentCodeStep state) = Some step ->
  let result := executeNextCodeStep state clock ref in
  let state' := fst result in
  snd result = Some step
  /\ callbackQueue state' = callbackQueue state
  /\ (is_str (queue step) "callStack" = true ->
      callStack state'
      = (callStack state ++ [pending (taskOfStep step TASK_STATUS.PENDING clock ref)])%list
      /\ webAPIs state' = webAPIs state /\ microtaskQueue state' = microtaskQueue state)
  /\ (is_str (queue step) "webAPIs" = true ->
      webAPIs state'
      = (webAPIs state ++ [waiting (taskOfStep step TASK_STATUS.WAITING clock ref)])%list
      /\ callStack state' = callStack state /\ microtaskQueue state' = microtaskQueue state)
  /\ (is_str (queue step) "microtaskQueue" = true ->
      microtaskQueue state'
      = (microtaskQueue state ++ [pending (taskOfStep step TASK_STATUS.PENDING clock ref)])%list
      /\ callStack state' = callStack state /\ webAPIs state' = webAPIs state)
  /\ (is_str (queue step) "callStack" = false ->
      is_str (queue step) "webAPIs" = false ->
      is_str (queue step) "microtaskQueue" = false ->
      callStack state' = callStack state /\ webAPIs state' = webAPIs state
      /\ microtaskQueue state' = microtaskQueue state
      /\ nextTaskId state' = nextTaskId state)
  /\ consoleOutput state'
     = (if truthy (output step)
        then keepLast20 (consoleOutput state ++ [entry clock (output step) "log"])%list
        else consoleOutput state)
  /\ codeExecutionVariables state'
     = codeExecutionVariables (updateCodeExecutionVariables state (variables step)).
Proof.
  intros Hrun Hstep result state'.
  destruct (executeNextCodeStep_after_admit state clock ref step Hrun Hstep)
    as (Hp & Hcs & Hw & Hcb & Hm & Hn).
  fold result in Hp, Hcs, Hw, Hcb, Hm, Hn. fold state' in Hcs, Hw, Hcb, Hm, Hn.
  assert (Hlog : consoleOutput state'
                 = (if truthy (output step)
                    then keepLast20 (consoleOutput state ++ [entry clock (output step) "log"])%list
                    else consoleOutput state)
                 /\ codeExecutionVariables state'
                    = codeExecutionVariables
                        (updateCodeExecutionVariables state (variables step))).
  { subst state' result. unfold executeNextCodeStep. rewrite Hrun, Hstep.
    assert (Hlt : (List.length (codeExecutionSteps state) <=? currentCodeStep state)%nat
                  = false).
    { apply Nat.leb_gt. apply nth_error_Some. congruence. }
    rewrite Hlt. cbn [negb orb fst]. unfold admitStep.
    destruct (is_str (queue step) "callStack");
      [|destruct (is_str (queue step) "webAPIs");
         [|destruct (is_str (queue step) "microtaskQueue")]];
      destruct (truthy (output step)); destruct (variables step);
      split; reflexivity. }
  destruct Hlog as [Hout Hvars].
  rewrite Hp, Hcs, Hw, Hcb, Hm, Hn. unfold admitStep.
  split; [reflexivity|].
  split.
  { destruct (is_str (queue step) "callStack"); [reflexivity|].
    destruct (is_str (queue step) "webAPIs"); [reflexivity|].
    destruct (is_str (queue step) "microtaskQueue"); reflexivity. }
  split; [|split; [|split; [|split; [|split; [exact Hout | exact Hvars]]]]].
  - intros H1. rewrite H1. repeat split; reflexivity.
  - intros H2. destruct (is_str (queue step) "callStack") eqn:H1.
    + destruct (queue step); try discriminate H1. cbn [is_str] in H1, H2.
      apply String.eqb_eq in H1. subst. discriminate H2.
    + rewrite H2. repeat split; reflexivity.
  - intros H3. destruct (is_str (queue step) "callStack") eqn:H1.
    + destruct (queue step); try discriminate H1. cbn [is_str] in H1, H3.
      apply String.eqb_eq in H1. subst. discriminate H3.
    + destruct (is_str (queue step) "webAPIs") eqn:H2.
      * destruct (queue step); try discriminate H2. cbn [is_str] in H2, H3.
        apply String.eqb_eq in H2. subst. discriminate H3.
      * rewrite H3. repeat split; reflexivity.
  - intros H1 H2 H3. rewrite H1, H2, H3. repeat split; reflexivity.
Qed.

End Selection.

(** *** The state machine on the scenarios *)

Import Samples Scenarios.

(** C1, at the failing input and in general.  With a promise task queued,
    [executeNextTask] does not return the head of the microtask queue: the
    thunk is rejected with the [TypeError] of the start reducer, which
    assigns to the task object it was handed, an object of the store, and
    the state stays as it was.  The same holds in every state with a task in
    the microtask queue, in the callback queue or on the call stack; only
    with the three empty does the call return, and then nothing.  So no call
    returns a task, in any state. *)
Theorem executeNextTask_is_rejected :
  (List.length (microtaskQueue (store twoMicrotasks)) = 2
   /\ snd (executeNextTask (store twoMicrotasks) noon)
      = Throw (TypeError (ReadOnlyProperty "status"))
   /\ fst (executeNextTask (store twoMicrotasks) noon) = store twoMicrotasks)
  /\ (forall (E : Engine) state clock,
        fst (executeNextTask state clock) = state
        /\ (forall t q, microtaskQueue state = t :: q ->
              snd (executeNextTask state clock)
              = Throw (TypeError (ReadOnlyProperty "status")))
        /\ (forall t q, callbackQueue state = t :: q ->
              snd (executeNextTask state clock)
              = Throw (TypeError (ReadOnlyProperty "status")))
        /\ (forall t q, callStack state = t :: q ->
              snd (executeNextTask state clock)
              = Throw (TypeError (ReadOnlyProperty "status")))
        /\ (microtaskQueue state = [] -> callbackQueue state = [] -> callStack state = [] ->
            snd (executeNextTask state clock) = Ok None)
        /\ (forall sel, snd (executeNextTask state clock) <> Ok (Some sel))).
Proof.
  split; [repeat split; vm_compute; reflexivity|].
  intros E state clock.
  destruct (executeNextTask_outcome state clock) as [Hstate Hout].
  split; [exact Hstate|]. rewrite Hout.
  split; [|split; [|split; [|split]]].
  - intros t q ->. reflexivity.
  - intros t q ->. destruct (microtaskQueue state); reflexivity.
  - intros t q ->. destruct (microtaskQueue state); [|reflexivity].
    destruct (callbackQueue state); reflexivity.
  - intros -> -> ->. reflexivity.
  - intros sel. destruct (microtaskQueue state); [|discriminate].
    destruct (callbackQueue state); [|discriminate].
    destruct (callStack state); discriminate.
Qed.


(** The reducers that trim: after them the log has at most twenty entries. *)
Lemma keepLast20_length (out : list ConsoleEntry) :
  List.length (keepLast20 out) <= 20.
Proof.
  unfold keepLast20. destruct (20 <? List.length out)%nat eqn:Hlen.
  - apply Nat.ltb_lt in Hlen. rewrite length_skipn. lia.
  - apply Nat.ltb_ge in Hlen. exact Hlen.
Qed.

Lemma trimming_reducers_respect_cap (E : Engine) (state : State) (clock : Clock) :
  (forall payload,
      List.length (consoleOutput (addConsoleOutput state payload clock)) <= 20)
  /\ (forall taskId,
        completeTaskExecution state taskId clock = state
        \/ List.length (consoleOutput (completeTaskExecution state taskId clock)) <= 20)
  /\ (forall taskId error,
        setTaskError state taskId error clock = state
        \/ List.length (consoleOutput (setTaskError state taskId error clock)) <= 20).
Proof.
  repeat split.
  - intros payload. apply keepLast20_length.
  - intros taskId. unfold completeTaskExecution.
    destruct (currentExecutingTask state) as [t|]; [|left; reflexivity].
    destruct (PrimFloat.eqb (id t) taskId); [|left; reflexivity].
    right. apply keepLast20_length.
  - intros taskId error. unfold setTaskError.
    destruct (currentExecutingTask state) as [t|]; [|left; reflexivity].
    destruct (PrimFloat.eqb (id t) taskId); [|left; reflexivity].
    right. apply keepLast20_length.
Qed.

(** C6, at the failing input.  The three reducers that start a task append
    their start entry without trimming the log: with twenty entries logged,
    [executeMicrotaskWithSteps] dispatched with a task object of the
    dispatcher's own leaves twenty-one, and each of the three reducers adds
    one entry to a log of any length.  Through [executeNextTask] the
    reducer does not get that far: with the same log and a promise task
    queued, the rejected thunk leaves the twenty entries. *)
Theorem start_entry_exceeds_cap :
  List.length (consoleOutput (store fullLog)) = 20
  /\ marksPayload Own (executeMicrotaskWithSteps (store fullLog) ownPromise noon)
     = Ok (executeMicrotaskWithSteps (store fullLog) ownPromise noon)
  /\ List.length (consoleOutput (executeMicrotaskWithSteps (store fullLog) ownPromise noon))
     = 21
  /\ (forall (E : Engine) state t clock,
        List.length (consoleOutput (executeMicrotaskWithSteps state t clock))
        = S (List.length (consoleOutput state))
        /\ List.length (consoleOutput (executeCallbackWithSteps state t clock))
           = S (List.length (consoleOutput state))
        /\ List.length (consoleOutput (executeSynchronousTaskWithSteps state t clock))
           = S (List.length (consoleOutput state)))
  /\ List.length (consoleOutput (store fullLogThenStart)) = 20.
Proof.
  split; [vm_compute; reflexivity|]. split; [reflexivity|].
  split; [vm_compute; reflexivity|]. split; [|vm_compute; reflexivity].
  intros E state t clock. simpl. rewrite !length_app. simpl.
  repeat split; lia.
Qed.

(** C5, at the failing inputs.  Two [addTask] dispatched back to back both
    read [nextTaskId] before either is fulfilled, and both tasks get id 1;
    two steps admitted by [executeNextCodeStep] in one millisecond get ids in
    the order of the random draws, here decreasing. *)
Theorem task_ids_collide :
  map id (callStack (store backToBack)) = [1%float]
  /\ map id (microtaskQueue (store backToBack)) = [1%float]
  /\ map id (callStack (store sameMillisecond))
     = [1700000000000.75%float; 1700000000000.25%float]
  /\ PrimFloat.ltb 1700000000000.25 1700000000000.75 = true.
Proof.
  repeat split; vm_compute; reflexivity.
Qed.

(** Membership on a run: after the back-to-back admissions the two tasks,
    although they carry the same id, are two objects, each in one container. *)
Example backToBack_membership :
  map ref (queued (store backToBack)) = [0; 1]
  /\ map (containersHolding (store backToBack)) [0; 1] = [1; 1]
  /\ map id (queued (store backToBack)) = [1%float; 1%float].
Proof.
  repeat split; vm_compute; reflexivity.
Qed.

(** C7, counterexample.  The first step of every parsed program is the
    synthetic start step, which has no [queue]; [executeNextCodeStep] returns
    it and admits nothing: the call stack, like the other containers, stays
    empty. *)
Lemma unknown_queue_not_admitted :
  let result := executeNextCodeStep loaded noon 0 in
  isCodeExecuting loaded = true
  /\ nth_error (codeExecutionSteps loaded) (currentCodeStep loaded)
     = Some (startStep src_two_lines)
  /\ queue (startStep src_two_lines) = VUndef
  /\ snd result = Some (startStep src_two_lines)
  /\ callStack (fst result) = []
  /\ queued (fst result) = [].
Proof.
  repeat split; vm_compute; reflexivity.
Qed.

(** The admission theorem applies to a step that names no container and
    has an output and a variable: no task is created, the output is logged
    and the variable merged. *)
Lemma executeNextCodeStep_admission_witness :
  let result := executeNextCodeStep withOddStep noon 0 in
  snd result = Some oddStep
  /\ queued (fst result) = []
  /\ nextTaskId (fst result) = nextTaskId withOddStep
  /\ map message (consoleOutput (fst result)) = [VStr "out"]
  /\ codeExecutionVariables (fst result) = [("x", VNum 1)].
Proof.
  intros result.
  destruct (executeNextCodeStep_admission withOddStep noon 0 oddStep eq_refl eq_refl)
    as (Hp & Hcb & _ & _ & _ & Hnone & Hout & Hvars).
  destruct (Hnone eq_refl eq_refl eq_refl) as (Hcs & Hw & Hm & Hn).
  fold result in Hp, Hcb, Hcs, Hw, Hm, Hn, Hout, Hvars.
  split; [exact Hp|]. split.
  { unfold queued. rewrite Hcs, Hw, Hcb, Hm. reflexivity. }
  split; [exact Hn|]. split.
  { rewrite Hout. reflexivity. }
  rewrite Hvars. reflexivity.
Defined.


(** *** Container membership *)

Section Membership.
Context {E : Engine} {P : Parser}.



Lemma occurrences_without r (head : Task) (l : list Task) :
  occurrences r (without head l) <= occurrences r l.
Proof.
  unfold occurrences, without. induction l as [|t l IH]; simpl; [lia|].
  destruct (negb (PrimFloat.eqb (id t) (id head))); simpl;
    destruct (Nat.eqb (ref t) r); simpl; lia.
Qed.

Lemma cut_middle {A} (l1 l2 : list A) (a : A) :
  (firstn (List.length l1) (l1 ++ a :: l2) ++ skipn (S (List.length l1)) (l1 ++ a :: l2)
   = l1 ++ l2)%list.
Proof.
  induction l1 as [|x l1 IH]; simpl; [reflexivity|]. f_equal. exact IH.
Qed.

























End Membership.
End SchedulerProperties.

(* ===================================================================== *)
(** ** Properties of the code-to-steps compiler *)
(* ===================================================================== *)

Module CompilerProperties.
Import JS CodeExecutor Notions.

Section Compiler.
Context {E : Engine}.

(** *** [extractValue] satisfies the source's equations *)

Lemma extractValue_field (p : string) (fields : list (string * value)) :
  (fix find (fs : list (string * value)) : result value :=
     match fs with
     | [] => Ok VUndef
     | (k, v) :: rest => if String.eqb k p then extractValue v else find rest
     end) fields
  = extractValue (lookup fields p).
Proof.
  induction fields as [|[k v] rest IH]; [reflexivity|].
  cbn [lookup]. destruct (String.eqb k p); [reflexivity | exact IH].
Qed.

Lemma extractValue_eq (node : value) : extractValue node = extractValue_body node.
Proof.
  destruct node as [| | b | n | s | l | fields]; try reflexivity.
  - unfold extractValue_body. cbn. destruct b; reflexivity.
  - unfold extractValue_body. cbn. destruct (negb _); reflexivity.
  - unfold extractValue_body. cbn. destruct (negb _); reflexivity.
  - unfold extractValue_body. cbn [extractValue truthy negb getProp bind].
    destruct (is_str (lookup fields "type") "Literal"); [reflexivity|].
    destruct (is_str (lookup fields "type") "Identifier"); [reflexivity|].
    destruct (is_str (lookup fields "type") "BinaryExpression").
    { unfold evaluateBinaryExpression. cbn [getProp bind].
      rewrite !extractValue_field. reflexivity. }
    destruct (is_str (lookup fields "type") "ObjectExpression").
    { unfold extractObjectProperties. cbn [getProp bind].
      induction fields as [|[k v] rest IH]; [reflexivity|].
      cbn [lookup]. destruct (String.eqb k "properties"); [|exact IH].
      destruct v as [| | | | | props |]; try reflexivity.
      cbn [as_array bind]. generalize (@nil (string * value)) as acc.
      induction props as [|prop props IHp]; intros acc; [reflexivity|].
      cbn [extractObjectProperties_each].
      destruct prop as [| | | | | |pf]; try reflexivity; try (cbn; apply IHp).
      cbn [getProp bind].
      destruct (truthy (lookup pf "key") && truthy (lookup pf "value")); [|apply IHp].
      destruct (propertyKey (lookup pf "key")) as [key|e]; [|reflexivity].
      cbn [bind]. destruct (toString key) as [name|e]; [|reflexivity].
      cbn [bind]. rewrite extractValue_field.
      destruct (extractValue (lookup pf "value")); [apply IHp | reflexivity]. }
    destruct (is_str (lookup fields "type") "ArrayExpression"); [|reflexivity].
    unfold extractArrayElements. cbn [getProp bind].
    induction fields as [|[k v] rest IH]; [reflexivity|].
    cbn [lookup]. destruct (String.eqb k "elements"); [|exact IH].
    destruct v as [| | | | | elements |]; reflexivity.
Qed.

(** *** [traverseAST] emits the visited values in pre-order *)

Lemma traverseAST_eq node steps parent lo :
  traverseAST node steps parent lo =
  if negb (truthy node) then Ok steps
  else bind (createExecutionStep node parent lo)
            (fun step => foldM (traverseChild lo node) (children node) (push steps step)).
Proof.
  assert (Hchild : forall node child acc,
      match child with
      | VArr l0 =>
          (fix forEach (l : list value) (steps0 : list Step) {struct l} : result (list Step) :=
             match l with
             | [] => Ok steps0
             | c :: l' => steps' <- traverseAST c steps0 node lo;; forEach l' steps'
             end) l0 acc
      | VObj _ => traverseAST child acc node lo
      | _ => Ok acc
      end = traverseChild lo node child acc).
  { intros node' child acc. destruct child as [| | | | | l0 |]; try reflexivity.
    unfold traverseChild. revert acc. induction l0 as [|c l0 IH0]; intros acc; [reflexivity|].
    cbn [foldM]. destruct (traverseAST c acc node' lo); [apply IH0 | reflexivity]. }
  destruct node as [| | b | n | s | l | fs]; try reflexivity.
  - cbn [traverseAST truthy negb].
    destruct (createExecutionStep (VArr l) parent lo) as [step|e]; [|reflexivity].
    cbn [bind children]. generalize (push steps step) as acc.
    generalize (VArr l) as node. intros node.
    induction l as [|child rest IH]; intros acc; [reflexivity|].
    cbn [foldM]. rewrite <- Hchild.
    match goal with
    | |- _ = bind ?m _ => destruct m; [apply IH | reflexivity]
    end.
  - cbn [traverseAST truthy negb].
    destruct (createExecutionStep (VObj fs) parent lo) as [step|e]; [|reflexivity].
    cbn [bind children]. generalize (push steps step) as acc.
    generalize (VObj fs) as node. intros node.
    induction fs as [|[key child] rest IH]; intros acc; [reflexivity|].
    cbn [foldM map snd]. rewrite <- Hchild.
    match goal with
    | |- _ = bind ?m _ => destruct m; [apply IH | reflexivity]
    end.
Qed.

Lemma preorder_eq node :
  preorder node = if negb (truthy node) then [] else node :: flat_map below (children node).
Proof.
  destruct node as [| | b | n | s | l | fs]; try reflexivity.
  cbn [preorder truthy negb children]. f_equal.
  induction fs as [|[key child] rest IH]; [reflexivity|].
  cbn [flat_map map snd]. rewrite <- IH. destruct child; reflexivity.
Qed.

Lemma emit_app lo (a b : list value) (steps : list Step) :
  emit lo (a ++ b) steps = bind (emit lo a steps) (emit lo b).
Proof.
  revert steps. induction a as [|n a IH]; intros steps; simpl; [reflexivity|].
  destruct (createExecutionStep n VNull lo) as [step|e]; simpl; [apply IH | reflexivity].
Qed.

Definition walks (lo : value) (node : value) : Prop :=
  forall steps parent, traverseAST node steps parent lo = emit lo (preorder node) steps.

Lemma walks_elements lo node (l : list value) :
  Forall (walks lo) l ->
  forall steps,
    foldM (fun c steps => traverseAST c steps node lo) l steps
    = emit lo (flat_map preorder l) steps.
Proof.
  induction 1 as [|c l Hc _ IH]; intros steps; [reflexivity|].
  cbn [foldM flat_map]. rewrite emit_app, Hc.
  destruct (emit lo (preorder c) steps); [apply IH | reflexivity].
Qed.

Lemma walks_children lo node (l : list value) :
  Forall (fun child => walks lo child
                       /\ match child with VArr l' => Forall (walks lo) l' | _ => True end) l ->
  forall steps,
    foldM (traverseChild lo node) l steps = emit lo (flat_map below l) steps.
Proof.
  induction 1 as [|child l [Hchild Hdeep] _ IH]; intros steps; [reflexivity|].
  cbn [foldM flat_map]. rewrite emit_app.
  assert (Hc : traverseChild lo node child steps = emit lo (below child) steps).
  { destruct child as [| | | | | l' |]; try reflexivity.
    - apply walks_elements, Hdeep.
    - apply Hchild. }
  rewrite Hc. destruct (emit lo (below child) steps); [apply IH | reflexivity].
Qed.

Lemma walks_node lo node :
  Forall (fun child => walks lo child
                       /\ match child with VArr l' => Forall (walks lo) l' | _ => True end)
         (children node) ->
  walks lo node.
Proof.
  intros Hch steps parent. rewrite traverseAST_eq, preorder_eq.
  destruct (negb (truthy node)); [reflexivity|].
  cbn [emit].
  change (createExecutionStep node parent lo) with (createExecutionStep node VNull lo).
  destruct (createExecutionStep node VNull lo) as [step|e]; [|reflexivity].
  apply walks_children, Hch.
Qed.

Lemma walks_all lo node :
  walks lo node /\ match node with VArr l => Forall (walks lo) l | _ => True end.
Proof.
  induction node as [| | b | n | s | l IH | fs IH] using value_induction;
    try (split; [apply walks_node; constructor | exact I]).
  - split; [apply walks_node; exact IH|].
    eapply Forall_impl; [|exact IH]. intros a [Ha _]. exact Ha.
  - split; [|exact I]. apply walks_node. cbn [children].
    apply Forall_map. exact IH.
Qed.


Lemma traverseAST_preorder node steps parent lo :
  traverseAST node steps parent lo = emit lo (preorder node) steps.
Proof. apply walks_all. Qed.

Lemma emit_from lo (nodes : list value) (steps : list Step) :
  emit lo nodes steps = bind (emit lo nodes []) (fun mid => Ok (steps ++ mid)%list).
Proof.
  revert steps. induction nodes as [|n nodes IH]; intros steps; cbn [emit bind].
  - rewrite app_nil_r. reflexivity.
  - destruct (createExecutionStep n VNull lo) as [step|e]; cbn [bind]; [|reflexivity].
    rewrite (IH (push steps step)), (IH (push [] step)).
    destruct (emit lo nodes []) as [mid|e]; cbn [bind]; [|reflexivity].
    destruct step as [st|]; cbn [push]; [|reflexivity].
    rewrite <- app_assoc. reflexivity.
Qed.

Lemma split_lines_length (code : string) :
  List.length (split_lines code) = S (countNewlines code).
Proof.
  induction code as [|c rest IH]; [reflexivity|].
  cbn [split_lines countNewlines].
  destruct (Ascii.eqb c newline); cbn [List.length Nat.add]; [rewrite IH; reflexivity|].
  destruct (split_lines rest) as [|cur lines]; [discriminate IH | exact IH].
Qed.

Context {P : Parser}.

Lemma parseCodeToSteps_try_eq (code : string) :
  parseCodeToSteps_try code
  = (ast <- parseScript code;;
     mid <- emit (VNum 0) (preorder ast) [];;
     Ok (startStep code :: mid ++ [endStep code])%list).
Proof.
  unfold parseCodeToSteps_try.
  destruct (parseScript code) as [ast|e]; cbn [bind]; [|reflexivity].
  rewrite traverseAST_preorder, emit_from.
  destruct (emit (VNum 0) (preorder ast) []) as [mid|e]; reflexivity.
Qed.

(** C2, as the code has it.  When the source parses and a step can be
    created for every visited value, the result is the start step, then the
    steps of the visited values in pre-order (a value's step before the steps
    of what its properties lead to, property after property and element
    after element), then the end step.  The [line] fields follow from the
    visited values and are not ordered. *)
Theorem parseCodeToSteps_preorder (code : string) (ast : value) (mid : list Step) :
  parseScript code = Ok ast ->
  emit (VNum 0) (preorder ast) [] = Ok mid ->
  parseCodeToSteps code = (startStep code :: mid ++ [endStep code])%list
  /\ traverseAST ast [startStep code] VNull (VNum 0) = Ok (startStep code :: mid)
  /\ (forall node,
        preorder node
        = if truthy node then node :: flat_map below (children node) else []).
Proof.
  intros Hast Hmid. split; [|split].
  - unfold parseCodeToSteps.
    rewrite parseCodeToSteps_try_eq, Hast. cbn [bind]. rewrite Hmid. reflexivity.
  - rewrite traverseAST_preorder, emit_from, Hmid. reflexivity.
  - intros node. rewrite preorder_eq. destruct (truthy node); reflexivity.
Qed.

(** C8, as the code has it.  When the parser throws, the result is exactly
    one [Error] step whose description is "Parse error: " followed by the
    parser's message.  No exception leaves [parseCodeToSteps]: whatever the
    source, it returns either one error step or a list that starts with the
    start step and ends with the end step, so never an empty list; a source
    that parses and is walked without error, the empty one included, yields
    at least those two steps. *)
Theorem parseCodeToSteps_total (code : string) :
  (forall error,
      parseScript code = Throw error ->
      parseCodeToSteps code = [errorStep code error]
      /\ type (errorStep code error) = VStr "Error"
      /\ description (errorStep code error) = "Parse error: " ++ message error)
  /\ ((exists error, parseCodeToSteps code = [errorStep code error])
      \/ (exists mid, parseCodeToSteps code = (startStep code :: mid ++ [endStep code])%list))
  /\ parseCodeToSteps code <> []
  /\ (forall steps, parseCodeToSteps_try code = Ok steps ->
        parseCodeToSteps code = steps /\ 2 <= List.length steps).
Proof.
  repeat split.
  - unfold parseCodeToSteps, parseCodeToSteps_try. rewrite H. reflexivity.
  - unfold parseCodeToSteps. rewrite parseCodeToSteps_try_eq.
    destruct (parseScript code) as [ast|e]; cbn [bind]; [|left; exists e; reflexivity].
    destruct (emit (VNum 0) (preorder ast) []) as [mid|e]; cbn [bind].
    + right. exists mid. reflexivity.
    + left. exists e. reflexivity.
  - unfold parseCodeToSteps. rewrite parseCodeToSteps_try_eq.
    destruct (parseScript code) as [ast|e]; cbn [bind]; [|discriminate].
    destruct (emit (VNum 0) (preorder ast) []) as [mid|e]; cbn [bind]; discriminate.
  - unfold parseCodeToSteps. rewrite H. reflexivity.
  - rewrite parseCodeToSteps_try_eq in H.
    destruct (parseScript code) as [ast|e]; cbn [bind] in H; [|discriminate].
    destruct (emit (VNum 0) (preorder ast) []) as [mid|e]; cbn [bind] in H; [|discriminate].
    injection H as <-. cbn [List.length]. rewrite length_app. cbn [List.length]. lia.
Qed.

(** X19.  When the source parses and its tree is walked without an
    exception, the result has at least two steps; the first is the synthetic
    start step (action "start", line 1) and the last the synthetic end step (action
    "end", line the number of lines of the source, one more than its
    newlines).  Both are built from the source text alone, not from a node of
    the tree. *)
Lemma parseCodeToSteps_start_end (code : string) (ast : value) (steps : list Step) :
  parseScript code = Ok ast ->
  traverseAST ast [startStep code] VNull (VNum 0) = Ok steps ->
  parseCodeToSteps code = (steps ++ [endStep code])%list
  /\ 2 <= List.length (parseCodeToSteps code)
  /\ hd_error (parseCodeToSteps code) = Some (startStep code)
  /\ last (parseCodeToSteps code) (startStep code) = endStep code
  /\ action (startStep code) = "start"
  /\ line (startStep code) = VNum 1
  /\ action (endStep code) = "end"
  /\ line (endStep code) = VNum (nat_to_num (List.length (split_lines code)))
  /\ List.length (split_lines code) = S (countNewlines code).
Proof.
  intros Hast Hwalk.
  assert (Hres : parseCodeToSteps code = (steps ++ [endStep code])%list).
  { unfold parseCodeToSteps, parseCodeToSteps_try. rewrite Hast. cbn [bind].
    rewrite Hwalk. reflexivity. }
  rewrite traverseAST_preorder, emit_from in Hwalk.
  destruct (emit (VNum 0) (preorder ast) []) as [mid|e]; cbn [bind] in Hwalk; [|discriminate].
  injection Hwalk as <-.
  rewrite Hres. repeat split; try reflexivity.
  - rewrite !length_app. cbn [List.length]. lia.
  - apply last_last.
  - apply split_lines_length.
Qed.

End Compiler.

(** *** The compiler on the sample sources *)

Import Samples.



(** C2, counterexample.  For [a;] and [b;] on two lines the steps of the
    second statement (line 2) are followed by steps with line 1: the [line]
    fields of the result are not in non-decreasing order. *)
Lemma lines_not_sorted :
  let steps := parseCodeToSteps (E := refEngine) (P := parserReturning (Ok ast_two_lines)) src_two_lines in
  nonDecreasing (map lineNumber steps) = false
  /\ map lineNumber (firstn 3 (skipn 11 steps)) = [2%float; 2%float; 1%float]
  /\ PrimFloat.leb 2 1 = false.
Proof.
  repeat split; vm_compute; reflexivity.
Qed.

(** C8, counterexample.  The empty source parses; the result has five steps
    (start, three for the location record of the program node, end), neither
    none nor one. *)
Lemma empty_source_steps :
  let steps := parseCodeToSteps (E := refEngine) (P := parserReturning (Ok ast_empty)) "" in
  List.length steps = 5
  /\ map action steps = ["start"; "statement"; "statement"; "statement"; "end"]
  /\ ~ List.length steps <= 1.
Proof.
  repeat split; try (vm_compute; reflexivity).
  vm_compute. lia.
Qed.

(** The start and end steps of the two-line source. *)
Lemma parseCodeToSteps_start_end_two_lines :
  let steps := parseCodeToSteps (E := refEngine) (P := parserReturning (Ok ast_two_lines)) src_two_lines in
  hd_error steps = Some (startStep src_two_lines)
  /\ last steps (startStep src_two_lines) = endStep src_two_lines
  /\ line (endStep src_two_lines) = VNum 2.
Proof.
  destruct (parseCodeToSteps_start_end
              (E := refEngine) (P := parserReturning (Ok ast_two_lines))
              src_two_lines ast_two_lines
              (match traverseAST (E := refEngine) ast_two_lines [startStep src_two_lines] VNull (VNum 0) with
               | Ok steps => steps
               | Throw _ => []
               end)
              eq_refl ltac:(vm_compute; reflexivity))
    as (_ & _ & Hhd & Hlast & _ & _ & _ & _ & _).
  split; [exact Hhd|]. split; [exact Hlast|]. vm_compute. reflexivity.
Defined.

(** The pre-order theorem applies to the two-line source. *)
Lemma parseCodeToSteps_preorder_witness :
  let steps :=
    parseCodeToSteps (E := refEngine) (P := parserReturning (Ok ast_two_lines))
                     src_two_lines in
  List.length steps = 28
  /\ map action (firstn 3 steps) = ["start"; "expression"; "identifier"]
  /\ option_map action (nth_error steps 27) = Some "end".
Proof.
  destruct (parseCodeToSteps_preorder
              (E := refEngine) (P := parserReturning (Ok ast_two_lines))
              src_two_lines ast_two_lines
              (match emit (E := refEngine) (VNum 0) (preorder ast_two_lines) [] with
               | Ok mid => mid
               | Throw _ => []
               end)
              eq_refl ltac:(vm_compute; reflexivity))
    as (Hsteps & _ & _).
  cbv zeta. rewrite Hsteps.
  repeat split; vm_compute; reflexivity.
Defined.

(** C10, at the failing input.  [const a = {toString: 1} + 1;] parses, but
    the step of its binary expression cannot be created: the text of the
    extracted left operand, an object with an own [toString] property, has no
    primitive value, and [extractBinaryExpression] does not catch the
    [TypeError] as [evaluateBinaryExpression] does.  The result is the single
    error step, without start or end step. *)
Theorem walk_exception_replaces_result (E : Engine) :
  parseScript (Parser := parserReturning (Ok ast_toString)) src_toString = Ok ast_toString
  /\ extractValue object_with_toString = Ok (VObj [("toString", VNum 1)])
  /\ toString (VObj [("toString", VNum 1)]) = Throw (TypeError NoPrimitiveValue)
  /\ option_map variables
       (nth_error (match emit (VNum 0) (firstn 2 (preorder ast_toString)) [] with
                   | Ok steps => steps
                   | Throw _ => []
                   end) 0)
     = Some [("a", VStr "[Expression]")]
  /\ parseCodeToSteps (P := parserReturning (Ok ast_toString)) src_toString
     = [errorStep src_toString (TypeError NoPrimitiveValue)]
  /\ map action (parseCodeToSteps (P := parserReturning (Ok ast_toString)) src_toString)
     = ["error"]
  /\ description (errorStep (E := Samples.refEngine) src_toString (TypeError NoPrimitiveValue))
     = "Parse error: Cannot convert object to primitive value".
Proof.
  repeat split; vm_compute; reflexivity.
Qed.

End CompilerProperties.

(* ===================================================================== *)
(** ** Ticks and rounds: the thunks dispatched repeatedly *)
(* ===================================================================== *)

Module Rounds.
Import JS CodeExecutor EventLoopSlice Notions.

Section WithEngine.
Context {E : Engine}.

(** [executeNextTask] dispatched once per clock reading, as the interval of
    the visualizer does; the tasks the calls returned, in order.  A call that
    returns [null] or is rejected contributes none. *)
Fixpoint ticks (state : State) (clocks : list Clock) : State * list Selection :=
  match clocks with
  | [] => (state, [])
  | clock :: rest =>
      let (state', selected) := executeNextTask state clock in
      let (final, later) := ticks state' rest in
      (final, match selected with
              | Ok (Some sel) => sel :: later
              | _ => later
              end)
  end.

(** One round of custom-code execution: [executeNextCodeStep] is dispatched
    and its [fulfilled] action settles before anything else happens. *)
Definition round (state : State) (clock : Clock) (ref : nat) : State :=
  let (state', payload) := executeNextCodeStep state clock ref in
  executeNextCodeStep_fulfilled state' payload.

(** Rounds one after the other; the task object of round [i] is [ref + i]. *)
Fixpoint rounds (state : State) (clocks : list Clock) (ref : nat) : State :=
  match clocks with
  | [] => state
  | clock :: rest => rounds (round state clock ref) rest (S ref)
  end.

(** Is the step admitted by the [switch (step.queue)]? *)
Definition routed (step : Step) : bool :=
  is_str (queue step) "callStack" || is_str (queue step) "webAPIs"
  || is_str (queue step) "microtaskQueue".

End WithEngine.
End Rounds.

(* ===================================================================== *)
(** ** eventLoopSlice.js: the legacy reducers *)
(* ===================================================================== *)

Module LegacyReducers.
Import JS CodeExecutor EventLoopSlice.




End LegacyReducers.

(* ===================================================================== *)
(** ** codeExecutor.js: [validateCode] *)
(* ===================================================================== *)

Module Validation.
Import JS EventLoopSlice.

(** The regular expressions of [dangerousPatterns] are sequences of literal
    text, [\s*] and [\s+].  Strings are UTF-8 here, so a white-space
    character of [\s] is one, two or three bytes long. *)
Inductive atom : Type :=
| Text (text : string)
| Spaces (atLeastOne : bool).

Record Pattern : Type := mkPattern {
  source : string;       (* [pattern.source] *)
  atoms : list atom
}.

(** TAB, LF, VT, FF, CR and the space *)
Definition space1 (c : ascii) : bool :=
  let n := nat_of_ascii c in
  ((9 <=? n) && (n <=? 13) || (n =? 32))%nat.

(** U+00A0 *)
Definition space2 (c c1 : ascii) : bool :=
  ((nat_of_ascii c =? 194) && (nat_of_ascii c1 =? 160))%nat.

(** U+1680, U+2000 to U+200A, U+2028, U+2029, U+202F, U+205F, U+3000 and
    U+FEFF *)
Definition space3 (c c1 c2 : ascii) : bool :=
  let n := nat_of_ascii c in
  let n1 := nat_of_ascii c1 in
  let n2 := nat_of_ascii c2 in
  ((n =? 225) && (n1 =? 154) && (n2 =? 128)
   || (n =? 226) && (n1 =? 128)
      && ((128 <=? n2) && (n2 <=? 138) || (n2 =? 168) || (n2 =? 169) || (n2 =? 175))
   || (n =? 226) && (n1 =? 129) && (n2 =? 159)
   || (n =? 227) && (n1 =? 128) && (n2 =? 128)
   || (n =? 239) && (n1 =? 187) && (n2 =? 191))%nat.

(** What follows the white-space character at the head of [s], if there is
    one. *)
Definition afterSpace (s : string) : option string :=
  match s with
  | String c rest =>
      if space1 c then Some rest
      else match rest with
           | String c1 rest1 =>
               if space2 c c1 then Some rest1
               else match rest1 with
                    | String c2 rest2 => if space3 c c1 c2 then Some rest2 else None
                    | EmptyString => None
                    end
           | EmptyString => None
           end
  | EmptyString => None
  end.

(** [\s*] followed by what [continue] accepts: after any number of
    white-space characters. *)
Fixpoint star (continue : string -> bool) (s : string) {struct s} : bool :=
  continue s
  || match s with
     | String c rest =>
         if space1 c then star continue rest
         else match rest with
              | String c1 rest1 =>
                  if space2 c c1 then star continue rest1
                  else match rest1 with
                       | String c2 rest2 =>
                           if space3 c c1 c2 then star continue rest2 else false
                       | EmptyString => false
                       end
              | EmptyString => false
              end
     | EmptyString => false
     end.

(** Does the pattern match at the head of [s]? *)
Fixpoint matchHere (pattern : list atom) : string -> bool :=
  match pattern with
  | [] => fun _ => true
  | Text text :: rest =>
      fun s =>
        if String.prefix text s then matchHere rest (skip (String.length text) s)
        else false
  | Spaces atLeastOne :: rest =>
      fun s =>
        if atLeastOne then
          match afterSpace s with
          | Some s' => star (matchHere rest) s'
          | None => false
          end
        else star (matchHere rest) s
  end.

(** [pattern.test(code)]: a match anywhere in the text. *)
Fixpoint test (pattern : list atom) (code : string) : bool :=
  matchHere pattern code
  || match code with
     | String _ rest => test pattern rest
     | EmptyString => false
     end.

Definition call (name : string) (src : string) : Pattern :=
  mkPattern src [Text name; Spaces false; Text "("].

Definition dangerousPatterns : list Pattern :=
  [ call "eval" "eval\s*\(";
    call "Function" "Function\s*\(";
    call "setTimeout" "setTimeout\s*\(";
    call "setInterval" "setInterval\s*\(";
    call "fetch" "fetch\s*\(";
    mkPattern "XMLHttpRequest" [Text "XMLHttpRequest"];
    mkPattern "localStorage" [Text "localStorage"];
    mkPattern "sessionStorage" [Text "sessionStorage"];
    mkPattern "document\." [Text "document."];
    mkPattern "window\." [Text "window."];
    mkPattern "process\." [Text "process."];
    call "require" "require\s*\(";
    mkPattern "import\s+" [Text "import"; Spaces true];
    mkPattern "export\s+" [Text "export"; Spaces true] ].

Record Verdict : Type := mkVerdict {
  isValid : bool;
  warnings : list string
}.

(** [validateCode(code)] for a [code] that is a string. *)
Definition validateCode (code : string) : Verdict :=
  let warnings :=
    map (fun pattern => "Potentially unsafe code detected: " ++ source pattern)
        (filter (fun pattern => test (atoms pattern) code) dangerousPatterns) in
  mkVerdict (List.length warnings =? 0)%nat warnings.

(** Does [word] occur in [code]?  ([code.includes(word)]) *)
Fixpoint occursIn (word code : string) : bool :=
  String.prefix word code
  || match code with
     | String _ rest => occursIn word rest
     | EmptyString => false
     end.

End Validation.

(* ===================================================================== *)
(** ** EventLoopVisualizer.jsx: what the components dispatch *)
(* ===================================================================== *)

Module Visualizer.
Import JS CodeExecutor EventLoopSlice.

(** The condition under which the timer effect of the visualizer starts the
    timer of a Web-API task, for a task on which [timeoutSet] has not been
    set:
    [task.type === TASK_TYPES.SET_TIMEOUT && task.status === TASK_STATUS.WAITING]. *)
Definition armsTimer (task : Task) : bool :=
  match type task, status task with
  | TASK_TYPES.SET_TIMEOUT, TASK_STATUS.WAITING => true
  | _, _ => false
  end.

(** The actions of the model that the components dispatch.  The two
    custom-code thunks and [setTaskError] are exported by the slice and
    dispatched nowhere. *)
Definition dispatchedByComponents (ev : Event) : bool :=
  match ev with
  | DispatchExecuteNextCodeStep _ | DispatchExecuteCustomCode _ | SetTaskError _ _ _ => false
  | _ => true
  end.

End Visualizer.

(* ===================================================================== *)
(** ** Workloads: more concrete runs and nodes *)
(* ===================================================================== *)

Module Workloads.
Import JS CodeExecutor EventLoopSlice Samples Scenarios.

#[local] Existing Instance refEngine.
#[local] Instance twoLineParser : Parser := parserReturning (Ok ast_two_lines).

Definition slowArgs : AddTaskArgs :=
  mkArgs TASK_TYPES.SET_TIMEOUT (VNum 1000) "setTimeout callback (1000ms)" None.

(** A log line, a 500ms timer and a promise, admitted one after the other;
    then the timer elapses. *)
Definition mixedQueues : State :=
  store (run initialSystem
           [DispatchAddTask logArgs noon; Settle 0;
            DispatchAddTask timeoutArgs noon; Settle 0;
            DispatchAddTask promiseArgs noon; Settle 0;
            MoveFromWebAPIToCallback 2]).

(** A 1000ms timer admitted before a 500ms timer. *)
Definition twoTimers : State :=
  store (run initialSystem
           [DispatchAddTask slowArgs noon; Settle 0;
            DispatchAddTask timeoutArgs noon; Settle 0]).

Definition slowTimer : Task := addTask initialState slowArgs noon 0.

Definition fastTimer : Task :=
  addTask (set_nextTaskId 2 initialState) timeoutArgs noon 1.


(** A task as the visualizer builds it for the line [const x = 1;]. *)
Definition assignmentTask : Task :=
  addTask initialState
          (mkArgs TASK_TYPES.VARIABLE_ASSIGNMENT VUndef
                  "Variable assignment: const x = 1;" (Some "const x = 1;"))
          noon 0.

(** [Promise.resolve()] *)
Definition promise_resolve : value :=
  tree "CallExpression"
    [("callee",
      tree "MemberExpression"
        [("computed", VBool false);
         ("object", identifier "Promise" 0 7 (location 1 0 1 7));
         ("property", identifier "resolve" 8 15 (location 1 8 1 15))]
        0 15 (location 1 0 1 15));
     ("arguments", VArr [])]
    0 17 (location 1 0 1 17).

(** Two task objects written out by whoever dispatches a start reducer with
    them: new objects with the ids of the promise task and of the timer task
    of [mixedQueues]. *)
Definition promiseCopy : Task :=
  mkTask 3 3 TASK_TYPES.PROMISE "Promise microtask" (VNum 0) TASK_STATUS.PENDING
         (now noon) ANIMATION_STATES.IDLE "synchronous" [] 0.

Definition timerCopy : Task :=
  mkTask 4 2 TASK_TYPES.SET_TIMEOUT "setTimeout callback (500ms)" (VNum 500)
         TASK_STATUS.PENDING (now noon) ANIMATION_STATES.IDLE "synchronous" [] 0.

End Workloads.

(* ===================================================================== *)
(** ** Properties of the step classifier *)
(* ===================================================================== *)

Module ClassifierProperties.
Import JS EventLoopSlice CodeExecutor Notions Rounds Samples.

(** [node.type], as [traverseAST] finds it on a visited value: [undefined]
    on an array and on an object without that property. *)
Definition nodeType (node : value) : value :=
  match getProp node "type" with
  | Ok ty => ty
  | Throw _ => VUndef
  end.

Definition isProgram (node : value) : bool := is_str (nodeType node) "Program".

(** The node kinds [createExecutionStep] has a [case] for. *)
Definition recognisedKinds : list string :=
  ["Program"; "ExpressionStatement"; "CallExpression"; "VariableDeclaration";
   "VariableDeclarator"; "Literal"; "Identifier"; "BinaryExpression";
   "FunctionDeclaration"; "FunctionExpression"; "ArrowFunctionExpression";
   "ReturnStatement"; "IfStatement"; "WhileStatement"; "ForStatement";
   "AwaitExpression"; "YieldExpression"; "AssignmentExpression";
   "ObjectExpression"; "ArrayExpression"].

(** [node.loc ? node.loc.start.line + lineOffset : 1] *)
Definition stepLine {E : Engine} (node lineOffset : value) : result value :=
  lc <- getProp node "loc";;
  if truthy lc
  then start <- getProp lc "start";;
       l <- getProp start "line";;
       js_add l lineOffset
  else Ok (VNum 1).

(** Case analysis along the [bind]s and tests of a computation that is known
    to have returned. *)
Ltac step_cases H :=
  repeat match type of H with
         | bind ?c _ = _ => destruct c eqn:?; cbn [bind] in H
         | (if ?b then _ else _) = _ => destruct b eqn:?
         | Throw _ = _ => discriminate H
         | Ok None = Ok (Some _) => discriminate H
         | Ok (Some _) = Ok None => discriminate H
         | Ok (Some _) = Ok (Some _) => injection H as <-
         end.

Section Classifier.
Context {E : Engine}.

(** X1.  Every step [createExecutionStep] builds is routed to one of three
    containers, and its flags follow from the container: a call-stack step is
    synchronous, of normal priority and without delay; a Web-API step is
    asynchronous and of normal priority, and it is a [setTimeout] step
    carrying the extracted delay or a [fetch] step without delay; a
    microtask step is asynchronous, the only kind of high priority, without
    delay, and its action is [promise], [await] or [yield].  The callback
    queue is never a step's target. *)
Theorem createExecutionStep_routing (node parent lineOffset : value) (step : Step) :
  createExecutionStep node parent lineOffset = Ok (Some step) ->
  (queue step = VStr "callStack" /\ isAsync step = false
   /\ priority step = VStr "normal" /\ delay step = VNum 0
   /\ ~ In (action step) ["setTimeout"; "fetch"; "promise"; "await"; "yield"])
  \/ (queue step = VStr "webAPIs" /\ isAsync step = true
      /\ priority step = VStr "normal"
      /\ ((action step = "setTimeout" /\ delay step = extractTimeoutDelay node)
          \/ (action step = "fetch" /\ delay step = VNum 0)))
  \/ (queue step = VStr "microtaskQueue" /\ isAsync step = true
      /\ priority step = VStr "high" /\ delay step = VNum 0
      /\ In (action step) ["promise"; "await"; "yield"]).
Proof.
  intros H. unfold createExecutionStep in H. cbv zeta in H.
  step_cases H; cbn;
    first [ left; repeat split; try reflexivity;
            intros [F | [F | [F | [F | [F | []]]]]]; discriminate F
          | right; left; repeat split; auto; fail
          | right; right; repeat split; auto 6 ].
Qed.

(** The type of a step is the type of its node, which is not [Program]. *)
Lemma createExecutionStep_some (node parent lineOffset : value) (step : Step) :
  createExecutionStep node parent lineOffset = Ok (Some step) ->
  type step = nodeType node /\ isProgram node = false.
Proof.
  intros H. unfold createExecutionStep in H. cbv zeta in H.
  unfold isProgram, nodeType.
  destruct (getProp node "type") as [ty|e] eqn:Hty; cbn [bind] in H; [|discriminate H].
  destruct (is_str ty "Program") eqn:Hp.
  - step_cases H.
  - split; [|reflexivity]. clear Hp. step_cases H; reflexivity.
Qed.

Lemma createExecutionStep_none (node parent lineOffset : value) :
  createExecutionStep node parent lineOffset = Ok None -> isProgram node = true.
Proof.
  intros H. unfold createExecutionStep in H. cbv zeta in H.
  unfold isProgram, nodeType.
  destruct (getProp node "type") as [ty|e] eqn:Hty; cbn [bind] in H; [|discriminate H].
  destruct (is_str ty "Program") eqn:Hp; [reflexivity|].
  step_cases H.
Qed.

Lemma createExecutionStep_routed (node parent lineOffset : value) (step : Step) :
  createExecutionStep node parent lineOffset = Ok (Some step) -> routed step = true.
Proof.
  intros H. unfold createExecutionStep in H. cbv zeta in H.
  step_cases H; reflexivity.
Qed.

Lemma emit_routed lineOffset (nodes : list value) (mid : list Step) :
  emit lineOffset nodes [] = Ok mid -> forallb routed mid = true.
Proof.
  revert mid. induction nodes as [|n nodes IH]; intros mid H; cbn [emit] in H.
  - injection H as <-. reflexivity.
  - destruct (createExecutionStep n VNull lineOffset) as [step|e] eqn:Hn;
      cbn [bind] in H; [|discriminate H].
    rewrite CompilerProperties.emit_from in H.
    destruct (emit lineOffset nodes []) as [rest|e]; cbn [bind] in H; [|discriminate H].
    injection H as <-. specialize (IH rest eq_refl).
    destruct step as [step|]; cbn [push app forallb]; [|exact IH].
    rewrite (createExecutionStep_routed _ _ _ _ Hn), IH. reflexivity.
Qed.

Lemma emit_types lineOffset (nodes : list value) (mid : list Step) :
  emit lineOffset nodes [] = Ok mid ->
  map type mid = map nodeType (filter (fun n => negb (isProgram n)) nodes).
Proof.
  revert mid. induction nodes as [|n nodes IH]; intros mid H; cbn [emit] in H.
  - injection H as <-. reflexivity.
  - destruct (createExecutionStep n VNull lineOffset) as [step|e] eqn:Hn;
      cbn [bind] in H; [|discriminate H].
    rewrite CompilerProperties.emit_from in H.
    destruct (emit lineOffset nodes []) as [rest|e]; cbn [bind] in H; [|discriminate H].
    injection H as <-. specialize (IH rest eq_refl). cbn [filter].
    destruct step as [step|].
    + destruct (createExecutionStep_some _ _ _ _ Hn) as [Hty Hp].
      rewrite Hp. cbn [negb map push app]. rewrite IH, Hty. reflexivity.
    + rewrite (createExecutionStep_none _ _ _ Hn). cbn [negb push app]. exact IH.
Qed.

(** The property [p] of a visited value, [undefined] when it has none. *)
Definition field (node : value) (p : string) : value :=
  match getProp node p with
  | Ok v => v
  | Throw _ => VUndef
  end.

(** X2.  A visited value whose [type] is none of the kinds
    [createExecutionStep] has a [case] for is classified by the [default]
    branch, never rejected: whenever its line can be computed, the step has
    action [statement], targets the call stack with normal priority, is
    synchronous, and its description and code are the text of the type
    followed by " statement".  This covers the values that have no [type]
    at all (the text is then "undefined"). *)
Theorem createExecutionStep_default (node parent lineOffset ty : value) (text : string) :
  getProp node "type" = Ok ty ->
  (forall kind, In kind recognisedKinds -> is_str ty kind = false) ->
  toString ty = Ok text ->
  createExecutionStep node parent lineOffset
  = (ln <- stepLine node lineOffset;;
     Ok (Some (mkStep ty ln (field node "range") (field node "loc")
                      (text ++ " statement") "statement" false (VNum 0)
                      (text ++ " statement") [] VNull
                      (VStr "callStack") (VStr "normal")))).
Proof.
  intros Hty Hkind Htext.
  assert (Hprop : forall p, getProp node p = Ok (field node p)).
  { intros p. unfold field.
    destruct node; try reflexivity; discriminate Hty. }
  unfold createExecutionStep, stepLine, extractCodeFromNode. cbv zeta.
  rewrite Hty. cbn [bind]. rewrite (Hprop "loc"), (Hprop "range"). cbn [bind].
  rewrite Htext.
  repeat match goal with
         | |- context [is_str ty ?k] =>
             rewrite (Hkind k) by (cbn; tauto)
         end.
  destruct (truthy (field node "loc")); cbn [bind].
  - destruct (getProp (field node "loc") "start") as [start|e]; cbn [bind]; [|reflexivity].
    destruct (getProp start "line") as [l|e]; cbn [bind]; [|reflexivity].
    destruct (js_add l lineOffset); reflexivity.
  - reflexivity.
Qed.

Context {P : Parser}.

(** X3.  When the source parses and the walk throws nothing, the result has
    exactly one step for every visited value that is not a [Program] node,
    in visiting order and carrying that value's [type], between the start
    and the end step: nothing a [traverseAST] call reaches is skipped,
    whether it is a syntax node or not. *)
Theorem parseCodeToSteps_one_step_per_value (code : string) (ast : value)
  (steps : list Step) :
  parseScript code = Ok ast ->
  parseCodeToSteps_try code = Ok steps ->
  let visited := filter (fun n => negb (isProgram n)) (preorder ast) in
  parseCodeToSteps code = steps
  /\ map type steps = (VStr "Program" :: map nodeType visited ++ [VStr "Program"])%list
  /\ List.length steps = 2 + List.length visited.
Proof.
  intros Hast Htry visited.
  assert (Hres : parseCodeToSteps code = steps).
  { unfold parseCodeToSteps. rewrite Htry. reflexivity. }
  rewrite CompilerProperties.parseCodeToSteps_try_eq, Hast in Htry. cbn [bind] in Htry.
  destruct (emit (VNum 0) (preorder ast) []) as [mid|e] eqn:Hmid;
    cbn [bind] in Htry; [|discriminate Htry].
  injection Htry as <-.
  pose proof (emit_types _ _ _ Hmid) as Htypes. fold visited in Htypes.
  split; [exact Hres|]. split.
  - cbn [map]. rewrite map_app, Htypes. reflexivity.
  - cbn [List.length]. rewrite length_app. cbn [List.length].
    rewrite <- (length_map type mid), Htypes, length_map. lia.
Qed.

End Classifier.

(** *** The classifier on sample nodes *)

(** [setTimeout(f, 500)] *)
Definition call_setTimeout : value :=
  tree "CallExpression"
    [("callee", identifier "setTimeout" 0 10 (location 1 0 1 10));
     ("arguments",
      VArr [identifier "f" 11 12 (location 1 11 1 12);
            numericLiteral 500 "500" 14 17 (location 1 14 1 17)])]
    0 18 (location 1 0 1 18).

(** [;], an [EmptyStatement] *)
Definition emptyStatement : value := tree "EmptyStatement" [] 0 1 (location 1 0 1 1).

(** A step of a computation known to return one. *)
Definition theStep (r : result (option Step)) : Step :=
  match r with
  | Ok (Some step) => step
  | _ => startStep ""
  end.

Lemma createExecutionStep_routing_witness :
  let step := theStep (createExecutionStep call_setTimeout VNull (VNum 0)) in
  queue step = VStr "webAPIs" /\ action step = "setTimeout" /\ delay step = VNum 500.
Proof.
  intros step.
  destruct (createExecutionStep_routing call_setTimeout VNull (VNum 0) step eq_refl)
    as [(Hq & _) | [(Hq & _ & _ & [(Ha & Hd) | (Ha & _)]) | (Hq & _)]];
    try discriminate Hq; try discriminate Ha.
  exact (conj Hq (conj Ha Hd)).
Defined.

Lemma createExecutionStep_default_witness :
  createExecutionStep emptyStatement VNull (VNum 0)
  = Ok (Some (mkStep (VStr "EmptyStatement") (VNum 1) (VArr [VNum 0; VNum 1])
                     (location 1 0 1 1) "EmptyStatement statement" "statement" false
                     (VNum 0) "EmptyStatement statement" [] VNull
                     (VStr "callStack") (VStr "normal"))).
Proof.
  apply (createExecutionStep_default emptyStatement VNull (VNum 0)
           (VStr "EmptyStatement") "EmptyStatement").
  - reflexivity.
  - intros kind Hin. cbn in Hin.
    repeat (destruct Hin as [<- | Hin]; [reflexivity|]). destruct Hin.
  - reflexivity.
Defined.

Lemma parseCodeToSteps_one_step_per_value_witness :
  List.length (parseCodeToSteps (P := parserReturning (Ok ast_two_lines)) src_two_lines)
  = 2 + 26.
Proof.
  destruct (parseCodeToSteps_one_step_per_value
              (P := parserReturning (Ok ast_two_lines)) src_two_lines ast_two_lines
              (parseCodeToSteps (P := parserReturning (Ok ast_two_lines)) src_two_lines)
              eq_refl eq_refl) as (_ & _ & Hlen).
  exact Hlen.
Defined.

End ClassifierProperties.

(* ===================================================================== *)
(** ** Properties of ticks, completion and timers *)
(* ===================================================================== *)

Module QueueProperties.
Import JS CodeExecutor EventLoopSlice Notions Rounds Samples Scenarios.

Section Queues.
Context {E : Engine} {P : Parser}.

Lemma filter_all {A} (f : A -> bool) (l : list A) :
  forallb f l = true -> filter f l = l.
Proof.
  induction l as [|a l IH]; [reflexivity|]. cbn [forallb filter].
  intros H. apply andb_true_iff in H. destruct H as [Ha Hl].
  rewrite Ha, (IH Hl). reflexivity.
Qed.

(** No task is executing, the execution step is idle and the log is within
    its twenty entries. *)
Definition atRest (state : State) : Prop :=
  currentExecutingTask state = None
  /\ executionStep state = EXECUTION_STEPS.IDLE
  /\ List.length (consoleOutput state) <= 20.

Lemma atRest_reduce (state : State) (a : Action) :
  atRest state -> atRest (reduce state a).
Proof.
  intros (Hslot & Hstep & Hlog). destruct a as [t|payload|]; cbn [reduce].
  - unfold addTask_fulfilled. destruct (type t); repeat split; assumption.
  - unfold executeNextCodeStep_fulfilled. destruct payload as [step|];
      [|repeat split; assumption].
    cbv zeta.
    match goal with
    | |- atRest (if ?b then _ else _) => destruct b
    end; repeat split; assumption.
  - repeat split; assumption.
Qed.

Lemma atRest_executeNextCodeStep (state : State) (clock : Clock) (ref : nat) :
  atRest state -> atRest (fst (executeNextCodeStep state clock ref)).
Proof.
  intros (Hslot & Hstep & Hlog). unfold executeNextCodeStep.
  destruct (negb (isCodeExecuting state)
            || (List.length (codeExecutionSteps state) <=? currentCodeStep state)%nat);
    [repeat split; assumption|].
  destruct (nth_error (codeExecutionSteps state) (currentCodeStep state)) as [step|];
    [|repeat split; assumption].
  cbv zeta. cbn [fst]. unfold admitStep.
  destruct (is_str (queue step) "callStack");
    [|destruct (is_str (queue step) "webAPIs");
       [|destruct (is_str (queue step) "microtaskQueue")]];
    destruct (truthy (output step)); destruct (variables step);
    (split; [exact Hslot|split; [exact Hstep|]]);
    first [exact Hlog | apply SchedulerProperties.keepLast20_length].
Qed.

Lemma atRest_dispatch (sys : System) (ev : Event) :
  atRest (store sys) -> atRest (store (dispatch sys ev)).
Proof.
  intros Hrest. pose proof Hrest as (Hslot & Hstep & Hlog).
  destruct ev; cbn [dispatch].
  - exact Hrest.
  - pose proof (atRest_executeNextCodeStep (store sys) clock (nextRef sys) Hrest) as H.
    destruct (executeNextCodeStep (store sys) clock (nextRef sys)). exact H.
  - repeat split; assumption.
  - cbn [store]. unfold executeNextTask, dispatchStart, marksPayload.
    destruct (microtaskQueue (store sys)); [|exact Hrest].
    destruct (callbackQueue (store sys)); [|exact Hrest].
    destruct (callStack (store sys)); exact Hrest.
  - cbn [store]. unfold executeStep. rewrite Hslot. exact Hrest.
  - destruct (nth_error (inFlight sys) n) as [a|]; [|exact Hrest].
    cbn [store]. apply atRest_reduce, Hrest.
  - cbn [store]. unfold moveFromWebAPIToCallback.
    destruct (findIndex taskId (webAPIs (store sys))) as [index|]; [|exact Hrest].
    destruct (nth_error (webAPIs (store sys)) index); [|exact Hrest].
    repeat split; assumption.
  - cbn [store]. unfold completeTaskExecution. rewrite Hslot. exact Hrest.
  - cbn [store]. unfold setTaskError. rewrite Hslot. exact Hrest.
  - cbn [store]. split; [exact Hslot|split; [exact Hstep|apply SchedulerProperties.keepLast20_length]].
  - cbn [store]. split; [exact Hslot|split; [exact Hstep|]]. cbn. lia.
  - cbn [store]. split; [reflexivity|split; [reflexivity|exact Hlog]].
Qed.

Lemma atRest_run (events : list Event) (sys : System) :
  atRest (store sys) -> atRest (store (run sys events)).
Proof.
  revert sys. induction events as [|ev events IH]; intros sys Hrest; [exact Hrest|].
  cbn [run fold_left]. apply IH, atRest_dispatch, Hrest.
Qed.

(** Ticks return no task and leave the state as it is. *)
Lemma ticks_select_nothing (state : State) (clocks : list Clock) :
  ticks state clocks = (state, []).
Proof.
  induction clocks as [|clock rest IH]; [reflexivity|].
  cbn [ticks]. unfold executeNextTask, dispatchStart, marksPayload.
  destruct (microtaskQueue state); [|rewrite IH; reflexivity].
  destruct (callbackQueue state); [|rewrite IH; reflexivity].
  destruct (callStack state); rewrite IH; reflexivity.
Qed.

(** [started] is what one of the three start reducers makes of [state] when
    it is dispatched with [t], a task object of the dispatcher's own. *)
Definition startedBy (state : State) (t : Task) (clock : Clock) (started : State) : Prop :=
  marksPayload Own (executeMicrotaskWithSteps state t clock) = Ok started
  \/ marksPayload Own (executeCallbackWithSteps state t clock) = Ok started
  \/ marksPayload Own (executeSynchronousTaskWithSteps state t clock) = Ok started.

Lemma startedBy_slot (state started : State) (t : Task) (clock : Clock) :
  startedBy state t clock started ->
  currentExecutingTask started = Some (executing t)
  /\ consoleOutput started
     = (consoleOutput state
          ++ [entry clock (VStr (getTaskStartMessage t (timeString clock))) "info"])%list
  /\ webAPIs started = webAPIs state.
Proof.
  unfold startedBy, marksPayload.
  intros [H | [H | H]]; injection H as <-; repeat split; reflexivity.
Qed.

(** X4.  From the initial state, no sequence of dispatches of the thunks
    [addTask], [executeNextCodeStep], [executeCustomCode], [executeNextTask]
    and [executeStep], of settlements of their promises and of the reducers
    [moveFromWebAPIToCallback], [completeTaskExecution], [setTaskError],
    [addConsoleOutput], [clearConsoleOutput] and [clearAll] ever starts a
    task: in the state reached no task is executing, the execution step is
    idle and the log has at most twenty entries.  In any state whatever,
    dispatching [executeNextTask] any number of times returns no task and
    leaves the state as it is. *)
Theorem no_run_starts_a_task (events : list Event) :
  let reached := store (run initialSystem events) in
  currentExecutingTask reached = None
  /\ executionStep reached = EXECUTION_STEPS.IDLE
  /\ List.length (consoleOutput reached) <= 20
  /\ (forall state clocks, ticks state clocks = (state, [])).
Proof.
  intros reached.
  assert (Hrest : atRest reached).
  { apply atRest_run. repeat split; cbn; lia. }
  destruct Hrest as (Hslot & Hstep & Hlog).
  split; [exact Hslot|]. split; [exact Hstep|]. split; [exact Hlog|].
  apply ticks_select_nothing.
Qed.

(** The entries [completeTaskExecution] appends for a task. *)
Definition completionEntries (t : Task) (clock : Clock) : list ConsoleEntry :=
  entry clock (VStr (getTaskCompletionMessage t (timeString clock))) "success"
  :: match getTaskExecutionResult t (timeString clock) with
     | Some executionResult => [entry clock (VStr executionResult) "result"]
     | None => []
     end.

(** X5.  A task started by one of the three start reducers, dispatched
    with a task object of the dispatcher's own, and then completed under its
    own id: the executing slot is empty again and the execution step is
    idle, the four containers are as the start left them, the log is the
    newest twenty of the old log followed by the start entry, the completion
    entry and the result entry if the task has one, and completing the same
    id once more changes nothing. *)
Theorem completeTaskExecution_after_start (state started : State) (t : Task)
  (clock clock' : Clock) :
  startedBy state t clock started ->
  PrimFloat.eqb (id t) (id t) = true ->
  let done := completeTaskExecution started (id t) clock' in
  currentExecutingTask started = Some (executing t)
  /\ currentExecutingTask done = None
  /\ executionStep done = EXECUTION_STEPS.IDLE
  /\ queued done = queued started
  /\ consoleOutput done
     = keepLast20
         (consoleOutput state
            ++ entry clock (VStr (getTaskStartMessage t (timeString clock))) "info"
            :: completionEntries (executing t) clock')%list
  /\ completeTaskExecution done (id t) clock' = done.
Proof.
  intros Hstart Hid done.
  destruct (startedBy_slot _ _ _ _ Hstart) as (Hslot & Hlog & _).
  split; [exact Hslot|].
  subst done. unfold completeTaskExecution, completionEntries.
  rewrite Hslot. change (id (executing t)) with (id t). rewrite Hid, Hlog.
  destruct (getTaskExecutionResult (executing t) (timeString clock')) as [r|];
    cbn; rewrite <- ?app_assoc; repeat split; reflexivity.
Qed.

(** X6.  Completion and failure are settled once per id and never touch the
    containers: after [completeTaskExecution] or [setTaskError] for an id, a
    second dispatch of either for the same id leaves the state as it is, and
    without an executing task of that id neither changes anything. *)
Theorem completion_settles_once (state : State) (taskId : float) (error : value)
  (clock clock' : Clock) :
  let completed := completeTaskExecution state taskId clock in
  let failed := setTaskError state taskId error clock in
  completeTaskExecution completed taskId clock' = completed
  /\ setTaskError completed taskId error clock' = completed
  /\ completeTaskExecution failed taskId clock' = failed
  /\ setTaskError failed taskId error clock' = failed
  /\ queued completed = queued state
  /\ queued failed = queued state
  /\ ((forall t, currentExecutingTask state = Some t -> PrimFloat.eqb (id t) taskId = false) ->
      completed = state /\ failed = state).
Proof.
  intros completed failed. subst completed failed.
  unfold completeTaskExecution, setTaskError.
  destruct (currentExecutingTask state) as [t|] eqn:Hslot.
  - destruct (PrimFloat.eqb (id t) taskId) eqn:Hid.
    + cbn. repeat split; try reflexivity; exfalso;
        match goal with
        | H : forall u, Some _ = Some u -> _ |- _ => specialize (H _ eq_refl); congruence
        end.
    + rewrite Hslot, Hid. repeat split; reflexivity.
  - rewrite Hslot. repeat split; reflexivity.
Qed.

Lemma keepLast20_skipn (out : list ConsoleEntry) :
  keepLast20 out = skipn (List.length out - 20) out.
Proof.
  unfold keepLast20. destruct (20 <? List.length out)%nat eqn:Hlen; [reflexivity|].
  apply Nat.ltb_ge in Hlen. replace (List.length out - 20) with 0 by lia. reflexivity.
Qed.

(** X7.  [addConsoleOutput] appends the entry and keeps the newest twenty:
    the new log is the old log followed by the new entry, without its
    oldest entries beyond twenty.  The new entry is always its last one,
    nothing is dropped while the old log has fewer than twenty entries, and
    from twenty on exactly the oldest entry leaves for each one added. *)
Theorem addConsoleOutput_evicts_oldest (state : State) (payload : value) (clock : Clock) :
  let added := entry clock payload "log" in
  let before := consoleOutput state in
  let after := consoleOutput (addConsoleOutput state payload clock) in
  after = skipn (S (List.length before) - 20) (before ++ [added])%list
  /\ List.length after = Nat.min 20 (S (List.length before))
  /\ last after added = added
  /\ (List.length before < 20 -> after = (before ++ [added])%list)
  /\ (List.length before = 20 -> after = (tl before ++ [added])%list).
Proof.
  intros added before after.
  assert (Hafter : after = skipn (S (List.length before) - 20) (before ++ [added])%list).
  { subst after. unfold addConsoleOutput. cbn [consoleOutput set_consoleOutput].
    rewrite keepLast20_skipn, length_app. cbn [List.length].
    replace (List.length (consoleOutput state) + 1) with (S (List.length before))
      by (subst before; lia).
    reflexivity. }
  split; [exact Hafter|]. rewrite Hafter. clear Hafter after.
  split; [rewrite length_skipn, length_app; cbn [List.length]; lia|].
  split.
  { destruct (Nat.le_gt_cases (S (List.length before) - 20) (List.length before))
      as [Hle|Hgt]; [|lia].
    rewrite skipn_app.
    replace (S (List.length before) - 20 - List.length before) with 0 by lia.
    cbn [skipn]. apply last_last. }
  split.
  - intros Hlt. replace (S (List.length before) - 20) with 0 by lia. reflexivity.
  - intros Heq. replace (S (List.length before) - 20) with 1 by lia.
    destruct before as [|oldest rest]; [discriminate Heq | reflexivity].
Qed.

Lemma findIndex_first (taskId : float) (before after : list Task) (t : Task) :
  (forall u, In u before -> PrimFloat.eqb (id u) taskId = false) ->
  PrimFloat.eqb (id t) taskId = true ->
  findIndex taskId (before ++ t :: after) = Some (List.length before).
Proof.
  intros Hbefore Ht. induction before as [|u before IH]; cbn [app findIndex List.length].
  - rewrite Ht. reflexivity.
  - rewrite (Hbefore u (or_introl eq_refl)), IH; [reflexivity|].
    intros v Hv. apply Hbefore. right. exact Hv.
Qed.

Lemma findIndex_absent (taskId : float) (queue : list Task) :
  (forall u, In u queue -> PrimFloat.eqb (id u) taskId = false) ->
  findIndex taskId queue = None.
Proof.
  intros Hall. induction queue as [|u queue IH]; [reflexivity|]. cbn [findIndex].
  rewrite (Hall u (or_introl eq_refl)), IH; [reflexivity|].
  intros v Hv. apply Hall. right. exact Hv.
Qed.

Lemma moveFromWebAPIToCallback_found (state : State) (taskId : float)
  (before after : list Task) (t : Task) :
  webAPIs state = (before ++ t :: after)%list ->
  (forall u, In u before -> PrimFloat.eqb (id u) taskId = false) ->
  PrimFloat.eqb (id t) taskId = true ->
  moveFromWebAPIToCallback state taskId
  = set_callbackQueue
      (callbackQueue state ++ [set_animationState ANIMATION_STATES.MOVING t])%list
      (set_webAPIs (before ++ after)%list state).
Proof.
  intros Hw Hbefore Ht. unfold moveFromWebAPIToCallback, splice1.
  rewrite Hw, (findIndex_first _ _ _ _ Hbefore Ht), nth_error_app2 by lia.
  rewrite Nat.sub_diag. cbn [nth_error].
  rewrite SchedulerProperties.cut_middle. reflexivity.
Qed.

(** X8.  [moveFromWebAPIToCallback] takes the first Web-API task carrying
    the id, and only that one, out of [webAPIs] and appends it to the
    callback queue: the tasks before and after it keep their order, the
    callback queue grows at its end, and the moved task keeps its id and its
    status (a [WAITING] timer is still [WAITING] in the callback queue; only
    its animation state is set).  Nothing else in the state changes, and an
    id no Web-API task carries leaves the state as it is. *)
Theorem moveFromWebAPIToCallback_first_match (state : State) (taskId : float)
  (before after : list Task) (t : Task) :
  webAPIs state = (before ++ t :: after)%list ->
  (forall u, In u before -> PrimFloat.eqb (id u) taskId = false) ->
  PrimFloat.eqb (id t) taskId = true ->
  let moved := moveFromWebAPIToCallback state taskId in
  exists t',
    webAPIs moved = (before ++ after)%list
    /\ callbackQueue moved = (callbackQueue state ++ [t'])%list
    /\ ref t' = ref t /\ id t' = id t /\ status t' = status t
    /\ animationState t' = ANIMATION_STATES.MOVING
    /\ callStack moved = callStack state
    /\ microtaskQueue moved = microtaskQueue state
    /\ currentExecutingTask moved = currentExecutingTask state
    /\ consoleOutput moved = consoleOutput state
    /\ nextTaskId moved = nextTaskId state
    /\ (forall other,
          (forall u, In u (webAPIs state) -> PrimFloat.eqb (id u) other = false) ->
          moveFromWebAPIToCallback state other = state).
Proof.
  intros Hw Hbefore Ht moved. subst moved.
  rewrite (moveFromWebAPIToCallback_found _ _ _ _ _ Hw Hbefore Ht).
  exists (set_animationState ANIMATION_STATES.MOVING t).
  repeat split; try reflexivity.
  intros other Habsent. unfold moveFromWebAPIToCallback.
  rewrite (findIndex_absent _ _ Habsent). reflexivity.
Qed.

(** X9.  Timers enter the callback queue in the order in which they elapse,
    not in the order of admission: when a task admitted later is moved
    first, it stands before the earlier one in the callback queue, and both
    have left the Web APIs, whose other tasks keep their order. *)
Theorem timers_queue_in_elapsed_order (state : State) (early late : Task)
  (l1 l2 l3 : list Task) :
  webAPIs state = (l1 ++ early :: l2 ++ late :: l3)%list ->
  (forall u, In u (l1 ++ early :: l2)%list -> PrimFloat.eqb (id u) (id late) = false) ->
  (forall u, In u l1 -> PrimFloat.eqb (id u) (id early) = false) ->
  PrimFloat.eqb (id early) (id early) = true ->
  PrimFloat.eqb (id late) (id late) = true ->
  let elapsed :=
    moveFromWebAPIToCallback (moveFromWebAPIToCallback state (id late)) (id early) in
  callbackQueue elapsed
  = (callbackQueue state
       ++ [set_animationState ANIMATION_STATES.MOVING late;
           set_animationState ANIMATION_STATES.MOVING early])%list
  /\ webAPIs elapsed = (l1 ++ l2 ++ l3)%list.
Proof.
  intros Hw Hlate Hearly Hee Hll elapsed. subst elapsed.
  rewrite (moveFromWebAPIToCallback_found state (id late) (l1 ++ early :: l2) l3 late);
    [|rewrite Hw, <- app_assoc; reflexivity | exact Hlate | exact Hll].
  rewrite (moveFromWebAPIToCallback_found _ (id early) l1 (l2 ++ l3) early);
    [|cbn; rewrite <- app_assoc; reflexivity | exact Hearly | exact Hee].
  cbn. rewrite <- app_assoc. split; reflexivity.
Qed.

(** X23.  A start reducer does not wait for the executing task.  When a
    task is started, by a start reducer dispatched with a task object of the
    dispatcher's own, while another one is still executing, the new task
    takes the executing slot; the completion that arrives later for the
    first task (under its different id) finds another task in the slot and
    changes nothing, so the first task gets its start entry and never a
    completion entry. *)
Theorem start_replaces_the_executing_task (state first second : State) (t t' : Task)
  (clock clock' clock'' : Clock) :
  startedBy state t clock first ->
  startedBy first t' clock' second ->
  PrimFloat.eqb (id t') (id t) = false ->
  currentExecutingTask first = Some (executing t)
  /\ currentExecutingTask second = Some (executing t')
  /\ completeTaskExecution second (id t) clock'' = second
  /\ List.length (consoleOutput second) = 2 + List.length (consoleOutput state).
Proof.
  intros Hfirst Hsecond Hid.
  destruct (startedBy_slot _ _ _ _ Hfirst) as (Hslot & Hlog & _).
  destruct (startedBy_slot _ _ _ _ Hsecond) as (Hslot' & Hlog' & _).
  split; [exact Hslot|]. split; [exact Hslot'|]. split.
  - unfold completeTaskExecution. rewrite Hslot'.
    change (id (executing t')) with (id t'). rewrite Hid. reflexivity.
  - rewrite Hlog', Hlog, !length_app. cbn [List.length]. lia.
Qed.

End Queues.
End QueueProperties.

(* ===================================================================== *)
(** ** Properties of custom-code rounds *)
(* ===================================================================== *)

Module RoundProperties.
Import JS CodeExecutor EventLoopSlice Notions Rounds Samples Scenarios.

Section WithEngine.
Context {E : Engine}.

(** The descriptions of the steps routed to a container, in step order. *)
Definition routedTo (container : string) (steps : list Step) : list string :=
  map CodeExecutor.description (filter (fun s => is_str (queue s) container) steps).

Lemma is_str_exclusive (v : value) (a b : string) :
  is_str v a = true -> a <> b -> is_str v b = false.
Proof.
  destruct v; try discriminate. cbn [is_str]. intros Ha Hne.
  apply String.eqb_eq in Ha. subst. apply String.eqb_neq. exact Hne.
Qed.

Lemma round_spec (state : State) (clock : Clock) (ref : nat) (step : Step) :
  isCodeExecuting state = true ->
  nth_error (codeExecutionSteps state) (currentCodeStep state) = Some step ->
  let state' := round state clock ref in
  let last := (List.length (codeExecutionSteps state) <=? S (currentCodeStep state))%nat in
  codeExecutionSteps state' = codeExecutionSteps state
  /\ currentCodeStep state' = S (currentCodeStep state)
  /\ isCodeExecuting state' = negb last
  /\ codeExecutionState state'
     = (if last then CODE_EXECUTION_STEPS.COMPLETED else codeExecutionState state)
  /\ callbackQueue state' = callbackQueue state
  /\ map description (callStack state')
     = (map description (callStack state) ++ routedTo "callStack" [step])%list
  /\ map description (webAPIs state')
     = (map description (webAPIs state) ++ routedTo "webAPIs" [step])%list
  /\ map description (microtaskQueue state')
     = (map description (microtaskQueue state) ++ routedTo "microtaskQueue" [step])%list.
Proof.
  intros Hrun Hstep state' last. subst state' last.
  assert (Hlt : (List.length (codeExecutionSteps state) <=? currentCodeStep state)%nat = false).
  { apply Nat.leb_gt. apply nth_error_Some. congruence. }
  unfold round, executeNextCodeStep. rewrite Hrun, Hstep, Hlt. cbn [negb orb].
  unfold executeNextCodeStep_fulfilled, admitStep, routedTo. cbn [filter].
  destruct (is_str (queue step) "callStack") eqn:H1.
  { rewrite (is_str_exclusive _ _ "webAPIs" H1), (is_str_exclusive _ _ "microtaskQueue" H1)
      by discriminate.
    destruct (truthy (output step)); destruct (variables step);
      cbn; rewrite ?Nat.add_1_r;
      destruct (List.length (codeExecutionSteps state) <=? S (currentCodeStep state))%nat;
      cbn; rewrite ?map_app, ?app_nil_r, ?Hrun; repeat split; reflexivity. }
  destruct (is_str (queue step) "webAPIs") eqn:H2.
  { rewrite (is_str_exclusive _ _ "microtaskQueue" H2) by discriminate.
    destruct (truthy (output step)); destruct (variables step);
      cbn; rewrite ?Nat.add_1_r;
      destruct (List.length (codeExecutionSteps state) <=? S (currentCodeStep state))%nat;
      cbn; rewrite ?map_app, ?app_nil_r, ?Hrun; repeat split; reflexivity. }
  destruct (is_str (queue step) "microtaskQueue") eqn:H3;
    destruct (truthy (output step)); destruct (variables step);
      cbn; rewrite ?Nat.add_1_r;
      destruct (List.length (codeExecutionSteps state) <=? S (currentCodeStep state))%nat;
      cbn; rewrite ?map_app, ?app_nil_r, ?Hrun; repeat split; reflexivity.
Qed.

Lemma routedTo_cons (container : string) (step : Step) (steps : list Step) :
  routedTo container (step :: steps)
  = (routedTo container [step] ++ routedTo container steps)%list.
Proof.
  unfold routedTo. cbn [filter].
  destruct (is_str (queue step) container); reflexivity.
Qed.

Lemma skipn_nth {A} (l : list A) (n : nat) (x : A) :
  nth_error l n = Some x -> skipn n l = x :: skipn (S n) l.
Proof.
  revert n. induction l as [|a l IH]; intros [|n] H; try discriminate H.
  - injection H as ->. reflexivity.
  - cbn [nth_error] in H. cbn [skipn]. rewrite (IH n H). reflexivity.
Qed.

(** Outside an execution a round does nothing. *)
Lemma rounds_idle (state : State) (clocks : list Clock) (ref : nat) :
  isCodeExecuting state = false -> rounds state clocks ref = state.
Proof.
  intros Hidle. revert ref. induction clocks as [|clock rest IH]; intros ref; [reflexivity|].
  cbn [rounds]. unfold round, executeNextCodeStep. rewrite Hidle. cbn. apply IH.
Qed.

Lemma rounds_spec (state : State) (clocks : list Clock) (ref : nat) :
  isCodeExecuting state = true ->
  currentCodeStep state + List.length clocks <= List.length (codeExecutionSteps state) ->
  let consumed :=
    firstn (List.length clocks) (skipn (currentCodeStep state) (codeExecutionSteps state)) in
  let final := rounds state clocks ref in
  codeExecutionSteps final = codeExecutionSteps state
  /\ currentCodeStep final = currentCodeStep state + List.length clocks
  /\ callbackQueue final = callbackQueue state
  /\ map description (callStack final)
     = (map description (callStack state) ++ routedTo "callStack" consumed)%list
  /\ map description (webAPIs final)
     = (map description (webAPIs state) ++ routedTo "webAPIs" consumed)%list
  /\ map description (microtaskQueue final)
     = (map description (microtaskQueue state) ++ routedTo "microtaskQueue" consumed)%list
  /\ (currentCodeStep final < List.length (codeExecutionSteps state) ->
      isCodeExecuting final = true)
  /\ (clocks <> [] -> currentCodeStep final = List.length (codeExecutionSteps state) ->
      isCodeExecuting final = false
      /\ codeExecutionState final = CODE_EXECUTION_STEPS.COMPLETED
      /\ forall more ref', rounds final more ref' = final).
Proof.
  revert state ref. induction clocks as [|clock rest IH]; intros state ref Hrun Hbound.
  - cbn [List.length firstn rounds routedTo filter map]. rewrite !app_nil_r, Nat.add_0_r.
    repeat split; try reflexivity; [intros _; exact Hrun | congruence | congruence | congruence].
  - cbn [List.length] in Hbound |- *.
    destruct (nth_error (codeExecutionSteps state) (currentCodeStep state)) as [step|] eqn:Hstep;
      [|apply nth_error_None in Hstep; lia].
    destruct (round_spec state clock ref step Hrun Hstep)
      as (Hsteps & Hcur & Hexec & Hstate & Hcb & Hcs & Hw & Hm).
    cbn zeta in Hexec, Hstate. cbn [rounds].
    rewrite (skipn_nth _ _ _ Hstep). cbn [firstn].
    rewrite (routedTo_cons "callStack" step (firstn _ _)),
      (routedTo_cons "webAPIs" step (firstn _ _)),
      (routedTo_cons "microtaskQueue" step (firstn _ _)),
      !app_assoc, <- Hcs, <- Hw, <- Hm, <- Hcb.
    replace (currentCodeStep state + S (List.length rest))
      with (currentCodeStep (round state clock ref) + List.length rest) by lia.
    rewrite <- Hsteps, <- Hcur.
    destruct (List.length (codeExecutionSteps state) <=? S (currentCodeStep state))%nat eqn:Hlast.
    + apply Nat.leb_le in Hlast.
      destruct rest as [|clock' rest]; [|cbn [List.length] in Hbound; lia].
      cbn [rounds List.length firstn routedTo filter map]. rewrite !app_nil_r, Nat.add_0_r.
      cbn [negb] in Hexec.
      repeat split; try reflexivity; try assumption.
      * intros Hlt. rewrite Hsteps, Hcur in Hlt. lia.
      * intros more ref'. apply rounds_idle. exact Hexec.
    + apply Nat.leb_gt in Hlast. cbn [negb] in Hexec.
      assert (Hbound' : currentCodeStep (round state clock ref) + List.length rest
                        <= List.length (codeExecutionSteps (round state clock ref))).
      { rewrite Hsteps, Hcur. lia. }
      destruct (IH (round state clock ref) (S ref) Hexec Hbound')
        as (I1 & I2 & I3 & I4 & I5 & I6 & I7 & I8).
      rewrite I1 in *. do 7 (split; [assumption || reflexivity|]).
      intros _ Hend. destruct rest as [|clock' rest].
      { cbn [rounds] in Hend. rewrite Hsteps, Hcur in Hend. lia. }
      apply I8; [discriminate | exact Hend].
Qed.

(** X10.  Rounds of custom-code execution consume the program one step
    per round, in order: after [n] rounds the cursor has advanced by [n], the
    steps among those [n] that name the call stack, the Web APIs or the
    microtask queue have each become one task at the end of that container,
    in step order, and nothing has entered the callback queue.  The round
    that consumes the last step ends the execution ([isCodeExecuting] is
    reset and the state is [COMPLETED]); until then the execution goes on,
    and after it further rounds change nothing. *)
Theorem rounds_admit_steps_in_order (state : State) (clocks : list Clock) (ref : nat) :
  isCodeExecuting state = true ->
  currentCodeStep state + List.length clocks <= List.length (codeExecutionSteps state) ->
  let consumed :=
    firstn (List.length clocks) (skipn (currentCodeStep state) (codeExecutionSteps state)) in
  let final := rounds state clocks ref in
  codeExecutionSteps final = codeExecutionSteps state
  /\ currentCodeStep final = currentCodeStep state + List.length clocks
  /\ callbackQueue final = callbackQueue state
  /\ map description (callStack final)
     = (map description (callStack state) ++ routedTo "callStack" consumed)%list
  /\ map description (webAPIs final)
     = (map description (webAPIs state) ++ routedTo "webAPIs" consumed)%list
  /\ map description (microtaskQueue final)
     = (map description (microtaskQueue state) ++ routedTo "microtaskQueue" consumed)%list
  /\ (currentCodeStep final < List.length (codeExecutionSteps state) ->
      isCodeExecuting final = true)
  /\ (clocks <> [] -> currentCodeStep final = List.length (codeExecutionSteps state) ->
      isCodeExecuting final = false
      /\ codeExecutionState final = CODE_EXECUTION_STEPS.COMPLETED
      /\ forall more ref', rounds final more ref' = final).
Proof. exact (rounds_spec state clocks ref). Qed.


Lemma routedTo_total (steps : list Step) :
  List.length (routedTo "callStack" steps) + List.length (routedTo "webAPIs" steps)
  + List.length (routedTo "microtaskQueue" steps)
  = List.length (filter routed steps).
Proof.
  induction steps as [|step steps IH]; [reflexivity|].
  rewrite !(routedTo_cons _ step steps), !length_app. cbn [filter].
  unfold routed at 1. unfold routedTo at 1 3 5. cbn [filter].
  destruct (is_str (queue step) "callStack") eqn:H1.
  { rewrite (is_str_exclusive _ _ "webAPIs" H1), (is_str_exclusive _ _ "microtaskQueue" H1)
      by discriminate.
    cbn [orb map List.length]. lia. }
  destruct (is_str (queue step) "webAPIs") eqn:H2.
  { rewrite (is_str_exclusive _ _ "microtaskQueue" H2) by discriminate.
    cbn [orb map List.length]. lia. }
  destruct (is_str (queue step) "microtaskQueue"); cbn [orb map List.length]; lia.
Qed.

Lemma filter_routed_compiled (code : string) (mid : list Step) :
  forallb routed mid = true ->
  filter routed (startStep code :: mid ++ [endStep code])%list = mid.
Proof.
  intros Hmid. cbn [filter]. change (routed (startStep code)) with false. cbn iota.
  rewrite filter_app. cbn [filter]. change (routed (endStep code)) with false. cbn iota.
  rewrite app_nil_r. apply QueueProperties.filter_all. exact Hmid.
Qed.

Context {P : Parser}.

(** X11.  Custom code from source text to tasks: after [executeCustomCode]
    has loaded the steps of [code] and as many rounds have run as there are
    steps, the execution is over ([COMPLETED]), the callback queue is as it
    was, and the containers have gained exactly one task per step that the
    compiler created from a visited value.  When the source parses and is
    walked without exception that is every step except the synthetic first
    and last one; when [parseCodeToSteps] returns its single error step, no
    task at all. *)
Theorem custom_code_admits_every_compiled_step (state : State) (code : string)
  (clocks : list Clock) (ref : nat) :
  List.length clocks = List.length (parseCodeToSteps code) ->
  let loaded := executeCustomCode_fulfilled (executeCustomCode state code) in
  let final := rounds loaded clocks ref in
  isCodeExecuting final = false
  /\ codeExecutionState final = CODE_EXECUTION_STEPS.COMPLETED
  /\ currentCodeStep final = List.length (parseCodeToSteps code)
  /\ callbackQueue final = callbackQueue state
  /\ (forall steps,
        parseCodeToSteps_try code = Ok steps ->
        List.length (queued final) = List.length (queued state) + (List.length steps - 2))
  /\ (forall error,
        parseCodeToSteps_try code = Throw error ->
        List.length (queued final) = List.length (queued state)).
Proof.
  intros Hlen loaded final.
  assert (Hne : clocks <> []).
  { intros ->. cbn [List.length] in Hlen. symmetry in Hlen.
    apply length_zero_iff_nil in Hlen.
    destruct (CompilerProperties.parseCodeToSteps_total code) as (_ & _ & Hnil & _).
    exact (Hnil Hlen). }
  assert (Hrun : isCodeExecuting loaded = true) by reflexivity.
  assert (Hsteps : codeExecutionSteps loaded = parseCodeToSteps code) by reflexivity.
  assert (Hcur : currentCodeStep loaded = 0) by reflexivity.
  assert (Hbound : currentCodeStep loaded + List.length clocks
                   <= List.length (codeExecutionSteps loaded)).
  { rewrite Hcur, Hsteps, Hlen. cbn [Nat.add]. apply Nat.le_refl. }
  destruct (rounds_spec loaded clocks ref Hrun Hbound)
    as (F1 & F2 & F3 & F4 & F5 & F6 & _ & F8).
  fold final in F1, F2, F3, F4, F5, F6, F8.
  rewrite Hcur, Hsteps in *. cbn [Nat.add skipn] in *.
  rewrite Hlen, firstn_all in *.
  destruct (F8 Hne F2) as (G1 & G2 & _).
  assert (Hcount : List.length (queued final)
                   = List.length (queued state)
                     + List.length (filter routed (parseCodeToSteps code))).
  { apply (f_equal (@List.length _)) in F4, F5, F6.
    rewrite length_app, !length_map in F4, F5, F6.
    unfold queued. rewrite !length_app, F3, F4, F5, F6, <- routedTo_total.
    change (callStack loaded) with (callStack state).
    change (webAPIs loaded) with (webAPIs state).
    change (microtaskQueue loaded) with (microtaskQueue state).
    change (callbackQueue loaded) with (callbackQueue state). lia. }
  repeat split; try assumption.
  - intros steps Htry. rewrite Hcount. f_equal.
    unfold parseCodeToSteps. rewrite Htry.
    rewrite CompilerProperties.parseCodeToSteps_try_eq in Htry.
    destruct (parseScript code) as [ast|e]; cbn [bind] in Htry; [|discriminate Htry].
    destruct (emit (VNum 0) (preorder ast) []) as [mid|e] eqn:Hmid;
      cbn [bind] in Htry; [|discriminate Htry].
    injection Htry as <-.
    rewrite (filter_routed_compiled code mid (ClassifierProperties.emit_routed _ _ _ Hmid)).
    cbn [List.length]. rewrite length_app. cbn [List.length]. lia.
  - intros error Htry. rewrite Hcount.
    unfold parseCodeToSteps. rewrite Htry. cbn. lia.
Qed.

End WithEngine.
End RoundProperties.

(* ===================================================================== *)
(** ** Properties of the legacy reducers *)
(* ===================================================================== *)

Module LegacyProperties.
Import JS CodeExecutor EventLoopSlice Notions LegacyReducers.


End LegacyProperties.

(* ===================================================================== *)
(** ** The two admission paths *)
(* ===================================================================== *)

Module AdmissionProperties.
Import JS CodeExecutor EventLoopSlice Notions Rounds Samples.
Import ClassifierProperties.

(** X13.  The two admission paths agree on the container.  A step the
    compiler created is admitted by [executeNextCodeStep] according to its
    [queue]; a task of the same type dispatched through [addTask] is placed
    by [addTask.fulfilled] according to its type.  For every compiled step
    except a [yield] step both put the task object at the end of the same
    container and advance the id counter alike; a [yield] step goes to the
    microtask queue by its queue but, being of type [SYNCHRONOUS], to the
    call stack by its type. *)
Theorem admission_paths_agree {E : Engine} (node parent lineOffset : value) (step : Step)
  (state : State) (clock : Clock) (r : nat) :
  createExecutionStep node parent lineOffset = Ok (Some step) ->
  let byQueue := admitStep state step clock r in
  let byType := addTask_fulfilled state (taskOfStep step TASK_STATUS.PENDING clock r) in
  (action step <> "yield" ->
   map ref (callStack byQueue) = map ref (callStack byType)
   /\ map ref (webAPIs byQueue) = map ref (webAPIs byType)
   /\ map ref (microtaskQueue byQueue) = map ref (microtaskQueue byType)
   /\ callbackQueue byQueue = callbackQueue byType
   /\ nextTaskId byQueue = nextTaskId byType)
  /\ (action step = "yield" ->
      map ref (microtaskQueue byQueue) = (map ref (microtaskQueue state) ++ [r])%list
      /\ map ref (callStack byType) = (map ref (callStack state) ++ [r])%list).
Proof.
  intros H byQueue byType. subst byQueue byType.
  unfold createExecutionStep in H. cbv zeta in H.
  step_cases H;
    (split; [intros Hy | intros Hy; try discriminate Hy]);
    try (exfalso; apply Hy; reflexivity);
    cbn; rewrite ?map_app; repeat split; reflexivity.
Qed.

End AdmissionProperties.

(* ===================================================================== *)
(** ** Properties of variables and result entries *)
(* ===================================================================== *)

Module TraceProperties.
Import JS CodeExecutor EventLoopSlice Notions Rounds Validation Samples Scenarios.

(** *** Variables *)

Lemma lookup_obj_set (fields : list (string * value)) (p k : string) (v : value) :
  lookup (obj_set fields p v) k = if String.eqb p k then v else lookup fields k.
Proof.
  induction fields as [|[k0 w] rest IH]; cbn [obj_set lookup].
  - destruct (String.eqb p k); reflexivity.
  - destruct (String.eqb_spec k0 p) as [->|Hne]; cbn [lookup].
    + destruct (String.eqb p k); reflexivity.
    + rewrite IH. destruct (String.eqb_spec k0 k) as [->|Hne'].
      * apply String.eqb_neq in Hne. rewrite String.eqb_sym, Hne. reflexivity.
      * reflexivity.
Qed.

Lemma lookup_app (a b : list (string * value)) (k : string) :
  lookup (a ++ b) k = if hasOwn a k then lookup a k else lookup b k.
Proof.
  induction a as [|[k0 w] a IH]; [reflexivity|]. cbn [app lookup hasOwn].
  destruct (String.eqb k0 k); [reflexivity | exact IH].
Qed.

Lemma hasOwn_app (a b : list (string * value)) (k : string) :
  hasOwn (a ++ b) k = hasOwn a k || hasOwn b k.
Proof.
  induction a as [|[k0 w] a IH]; [reflexivity|]. cbn [app hasOwn].
  rewrite IH. apply orb_assoc.
Qed.

Lemma hasOwn_rev (a : list (string * value)) (k : string) :
  hasOwn (rev a) k = hasOwn a k.
Proof.
  induction a as [|[k0 w] a IH]; [reflexivity|]. cbn [rev hasOwn].
  rewrite hasOwn_app, IH. cbn [hasOwn]. rewrite orb_false_r. apply orb_comm.
Qed.

(** X14.  [updateCodeExecutionVariables] merges the payload into the
    variables: a name the payload binds reads as the payload binds it (its
    last binding, if the list holds the name twice), every other name reads
    as before, and nothing else in the state changes. *)
Theorem updateCodeExecutionVariables_merges (state : State)
  (payload : list (string * value)) (name : string) :
  let state' := updateCodeExecutionVariables state payload in
  lookup (codeExecutionVariables state') name
  = (if hasOwn payload name then lookup (rev payload) name
     else lookup (codeExecutionVariables state) name)
  /\ hasOwn (codeExecutionVariables state') name
     = hasOwn (codeExecutionVariables state) name || hasOwn payload name
  /\ set_codeExecutionVariables (codeExecutionVariables state) state' = state.
Proof.
  intros state'. subst state'. unfold updateCodeExecutionVariables.
  cbn [codeExecutionVariables set_codeExecutionVariables].
  split; [|split].
  - generalize (codeExecutionVariables state) as old.
    induction payload as [|[k v] rest IH]; intros old; [reflexivity|].
    cbn [fold_left fst snd hasOwn rev]. rewrite IH, lookup_app, hasOwn_rev, lookup_obj_set.
    cbn [lookup]. destruct (hasOwn rest name); [rewrite orb_true_r; reflexivity|].
    rewrite orb_false_r. destruct (String.eqb k name); reflexivity.
  - generalize (codeExecutionVariables state) as old.
    induction payload as [|[k v] rest IH]; intros old; [cbn; rewrite orb_false_r; reflexivity|].
    cbn [fold_left fst snd hasOwn]. rewrite IH.
    assert (Hset : forall fields, hasOwn (obj_set fields k v) name
                                  = hasOwn fields name || String.eqb k name).
    { induction fields as [|[k0 w] fields IHf]; cbn [obj_set hasOwn].
      - rewrite orb_false_r. reflexivity.
      - destruct (String.eqb_spec k0 k) as [->|Hne]; cbn [hasOwn].
        + destruct (String.eqb k name); cbn; rewrite ?orb_true_r, ?orb_false_r; reflexivity.
        + rewrite IHf. apply orb_assoc. }
    rewrite Hset, <- orb_assoc. reflexivity.
  - destruct state. reflexivity.
Qed.

(** *** Result entries *)

(** No line terminator anywhere in the text. *)
Fixpoint singleLine (s : string) : bool :=
  match s with
  | EmptyString => true
  | String _ rest => negb (lineTerminatorAt s) && singleLine rest
  end.

Lemma dotPlus_singleLine (s : string) : singleLine s = true -> dotPlus s = s.
Proof.
  induction s as [|c s IH]; [reflexivity|]. cbn [singleLine dotPlus].
  intros H. apply andb_true_iff in H. destruct H as [Hc Hs].
  apply negb_true_iff in Hc. rewrite Hc, (IH Hs). reflexivity.
Qed.

Lemma prefix_append (p s : string) : String.prefix p (p ++ s) = true.
Proof.
  induction p as [|c p IH]; cbn [append].
  - destruct s; reflexivity.
  - cbn [String.prefix]. destruct (ascii_dec c c) as [_|Hne]; [exact IH | destruct (Hne eq_refl)].
Qed.

Lemma skip_append (p s : string) : skip (String.length p) (p ++ s) = s.
Proof.
  induction p as [|c p IH]; cbn [append String.length skip]; [destruct s; reflexivity | exact IH].
Qed.

Lemma matchAfter_eq (prefix s : string) :
  matchAfter prefix s
  = match captureHere prefix s with
    | Some capture => Some capture
    | None => match s with
              | EmptyString => None
              | String _ rest => matchAfter prefix rest
              end
    end.
Proof. destruct s; reflexivity. Qed.

Lemma matchAfter_here (prefix body : string) :
  body <> "" -> singleLine body = true ->
  matchAfter prefix (prefix ++ body) = Some body.
Proof.
  intros Hne Hline. rewrite matchAfter_eq. unfold captureHere.
  rewrite prefix_append, skip_append, (dotPlus_singleLine _ Hline).
  destruct body; [destruct (Hne eq_refl) | reflexivity].
Qed.

Lemma matchAfter_absent (prefix s : string) :
  occursIn prefix s = false -> matchAfter prefix s = None.
Proof.
  induction s as [|c s IH]; cbn [occursIn matchAfter]; unfold captureHere; intros H.
  - rewrite orb_false_r in H. rewrite H. reflexivity.
  - apply orb_false_iff in H. destruct H as [Hp Hs]. rewrite Hp. apply IH, Hs.
Qed.

(** X18.  The result entry of a completed task is read back from its
    description.  For a variable-assignment or function-call task whose
    description is the label followed by a non-empty text on one line (as
    the visualizer builds it from a source line, and the compiler for a
    function call) the result entry carries exactly that text.  When the
    label does not occur in the description there is no result entry: so for
    every console task of the visualizer ("Console output: ...") and of the
    compiler ("Console output statement"), whose label would be
    "Console.log: ".  Timer, promise and await tasks always have a result
    entry; synchronous, interval and fetch tasks never. *)
Theorem getTaskExecutionResult_reads_description {E : Engine} (t : Task)
  (timestamp body : string) :
  body <> "" ->
  singleLine body = true ->
  (type t = TASK_TYPES.VARIABLE_ASSIGNMENT ->
   description t = "Variable assignment: " ++ body ->
   getTaskExecutionResult t timestamp = Some ("📊 [" ++ timestamp ++ "] Result: " ++ body))
  /\ (type t = TASK_TYPES.FUNCTION_CALL ->
      description t = "Function call: " ++ body ->
      getTaskExecutionResult t timestamp
      = Some ("📞 [" ++ timestamp ++ "] Function executed: " ++ body))
  /\ (type t = TASK_TYPES.CONSOLE_LOG ->
      occursIn "Console.log: " (description t) = false ->
      getTaskExecutionResult t timestamp = None)
  /\ (type t = TASK_TYPES.CONSOLE_LOG ->
      description t = "Console output: " ++ body ->
      occursIn "Console.log: " body = false ->
      getTaskExecutionResult t timestamp = None)
  /\ (In (type t) [TASK_TYPES.SYNCHRONOUS; TASK_TYPES.SET_INTERVAL; TASK_TYPES.FETCH] ->
      getTaskExecutionResult t timestamp = None)
  /\ (In (type t) [TASK_TYPES.SET_TIMEOUT; TASK_TYPES.PROMISE; TASK_TYPES.ASYNC_AWAIT] ->
      getTaskExecutionResult t timestamp <> None).
Proof.
  intros Hne Hline. unfold getTaskExecutionResult. repeat split.
  - intros -> ->. rewrite (matchAfter_here _ _ Hne Hline). reflexivity.
  - intros -> ->. rewrite (matchAfter_here _ _ Hne Hline). reflexivity.
  - intros -> Habsent. rewrite (matchAfter_absent _ _ Habsent). reflexivity.
  - intros -> -> Habsent.
    assert (H : occursIn "Console.log: " ("Console output: " ++ body) = false).
    { cbn. destruct body as [|c body]; [reflexivity|]. exact Habsent. }
    rewrite (matchAfter_absent _ _ H). reflexivity.
  - intros [<- | [<- | [<- | []]]]; reflexivity.
  - intros [<- | [<- | [<- | []]]]; discriminate.
Qed.

End TraceProperties.

(* ===================================================================== *)
(** ** Properties of the extractors *)
(* ===================================================================== *)

Module ExtractionProperties.
Import JS EventLoopSlice CodeExecutor Notions Samples.
Import ClassifierProperties.

Section Extraction.
Context {E : Engine}.

Lemma evaluateBinaryExpression_returns (node : value) :
  exists v, evaluateBinaryExpression node = Ok v.
Proof.
  unfold evaluateBinaryExpression.
  match goal with |- exists v, try_catch ?body _ = _ => destruct body as [v|e] end.
  - exists v. reflexivity.
  - exists (VStr "[Expression]"). reflexivity.
Qed.

(** X15.  [extractValue] throws only inside an object or array literal:
    when it throws, the node's type is [ObjectExpression] or
    [ArrayExpression].  A literal, an identifier, a missing node and a node
    of any other kind yield a value, and so does a binary expression,
    whatever its operands, because [evaluateBinaryExpression] catches what
    they throw. *)
Theorem extractValue_throws_only_in_literals (node : value) (error : exn) :
  extractValue node = Throw error ->
  is_str (field node "type") "ObjectExpression" = true
  \/ is_str (field node "type") "ArrayExpression" = true.
Proof.
  rewrite CompilerProperties.extractValue_eq. unfold extractValue_body, field.
  destruct (truthy node) eqn:Htruthy; cbn [negb]; [|discriminate].
  destruct (getProp node "type") as [ty|e] eqn:Hty; cbn [bind].
  - destruct (is_str ty "Literal").
    { destruct node; cbn in Hty |- *; discriminate. }
    destruct (is_str ty "Identifier").
    { destruct node; cbn in Hty |- *; discriminate. }
    destruct (is_str ty "BinaryExpression").
    { destruct (evaluateBinaryExpression_returns node) as [v ->]. discriminate. }
    destruct (is_str ty "ObjectExpression"); [left; reflexivity|].
    destruct (is_str ty "ArrayExpression"); [right; reflexivity|].
    discriminate.
  - destruct node; cbn in Htruthy, Hty; discriminate.
Qed.

(** X16.  [extractTimeoutDelay] never fails and falls back to 1000: that is
    its result when the call has no argument list, when the list is not an
    array or an object, and when it has fewer than two arguments.  With
    exactly two arguments the result is the [value] of the second when that
    is a [Literal] node (whatever the value is: a number, a string, [null])
    and 1000 otherwise. *)
Theorem extractTimeoutDelay_default (node : value) :
  ((forall arguments, getProp node "arguments" = Ok arguments -> is_object arguments = false) ->
   extractTimeoutDelay node = VNum 1000)
  /\ (forall arguments,
        getProp node "arguments" = Ok (VArr arguments) ->
        List.length arguments <= 1 ->
        extractTimeoutDelay node = VNum 1000)
  /\ (forall callback d,
        getProp node "arguments" = Ok (VArr [callback; d]) ->
        extractTimeoutDelay node
        = if is_str (field d "type") "Literal" then field d "value" else VNum 1000).
Proof.
  unfold extractTimeoutDelay. split; [|split].
  - intros Hnone.
    destruct (getProp node "arguments") as [arguments|e]; cbn [bind try_catch]; [|reflexivity].
    specialize (Hnone arguments eq_refl).
    destruct arguments as [| | b | n | s | l | fs]; try discriminate Hnone; try reflexivity.
    cbn. match goal with |- context [PrimFloat.ltb ?a ?b] => destruct (PrimFloat.ltb a b) end;
      [|reflexivity].
    destruct (String.get 1 s); reflexivity.
  - intros arguments -> Hlen. cbn [bind try_catch].
    destruct arguments as [|a [|b rest]]; [reflexivity | reflexivity |].
    cbn [List.length] in Hlen. lia.
  - intros callback d ->. cbn [bind try_catch]. unfold field.
    change (getProp (VArr [callback; d]) "length") with (Ok (VNum 2)).
    change (index1 (VArr [callback; d])) with d.
    cbn [bind toNumber toPrimitive is_object toNumber_prim].
    change (PrimFloat.ltb 1 2) with true. cbn iota.
    destruct (getProp d "type") as [ty|e] eqn:Hty; cbn [bind try_catch].
    + destruct (is_str ty "Literal"); [|reflexivity].
      destruct d; try discriminate Hty; reflexivity.
    + reflexivity.
Qed.

End Extraction.

(** [{}] as [esprima] would never build it: an object expression without
    its [properties]. *)
Definition objectExpression_without_properties : value :=
  VObj [("type", VStr "ObjectExpression")].

Lemma extractValue_throws_only_in_literals_witness :
  is_str (field objectExpression_without_properties "type") "ObjectExpression" = true
  \/ is_str (field objectExpression_without_properties "type") "ArrayExpression" = true.
Proof.
  apply (extractValue_throws_only_in_literals objectExpression_without_properties
           (TypeError (ReadOfNullish "forEach"))).
  reflexivity.
Defined.

End ExtractionProperties.

(* ===================================================================== *)
(** ** Properties of call classification *)
(* ===================================================================== *)

Module CallProperties.
Import JS EventLoopSlice CodeExecutor Notions Samples.
Import ClassifierProperties.

Section Calls.
Context {E : Engine}.

(** X21.  A call through a member expression, [object.method(...)], is a
    synchronous call-stack step whatever the names are: a console step
    when the object is named [console] and the method is [log], [error],
    [warn] or [info], and otherwise a plain function call described as
    "Function call: object.method".  In particular [Promise.resolve()],
    [window.setTimeout(...)] and [console.debug(...)] are function calls on
    the call stack: the timer, promise and fetch recognisers look at the
    [name] of the callee, which a member expression does not have. *)
Theorem member_call_stays_on_call_stack (node parent lineOffset : value)
  (callee object property : list (string * value)) (objectName method : string) :
  getProp node "type" = Ok (VStr "CallExpression") ->
  getProp node "callee" = Ok (VObj callee) ->
  lookup callee "type" = VStr "MemberExpression" ->
  lookup callee "name" = VUndef ->
  lookup callee "object" = VObj object ->
  lookup object "name" = VStr objectName ->
  lookup callee "property" = VObj property ->
  lookup property "name" = VStr method ->
  let console :=
    String.eqb objectName "console"
    && (String.eqb method "log" || String.eqb method "error"
        || String.eqb method "warn" || String.eqb method "info") in
  createExecutionStep node parent lineOffset
  = (ln <- stepLine node lineOffset;;
     Ok (Some (mkStep (VStr "CallExpression") ln (field node "range") (field node "loc")
                      (if console then "Console output statement"
                       else "Function call: " ++ objectName ++ "." ++ method)
                      (if console then "console" else "functionCall")
                      false (VNum 0) "CallExpression statement" []
                      (if console then extractConsoleLogMessage node else VNull)
                      (VStr "callStack") (VStr "normal")))).
Proof.
  intros Hty Hcallee Hct Hcn Hobj Hon Hprop Hpn console. subst console.
  assert (Hfield : forall p, getProp node p = Ok (field node p)).
  { intros p. unfold field. destruct node; try reflexivity; discriminate Hty. }
  unfold createExecutionStep, stepLine, extractCodeFromNode. cbv zeta.
  rewrite Hty. cbn [bind]. rewrite (Hfield "loc"), (Hfield "range"). cbn [bind toString].
  change (is_str (VStr "CallExpression") "Program") with false.
  change (is_str (VStr "CallExpression") "ExpressionStatement") with false.
  change (is_str (VStr "CallExpression") "CallExpression") with true.
  cbn iota.
  unfold isConsoleCall, isSetTimeoutCall, isPromiseCall, isFetchCall, isCallTo,
    getFunctionName.
  rewrite Hcallee. cbn [bind truthy negb getProp].
  rewrite Hct, Hcn, Hobj, Hprop. cbn [bind getProp is_str].
  rewrite Hon, Hpn. cbn [bind is_str toString].
  change (String.eqb "MemberExpression" "MemberExpression") with true.
  change (String.eqb "MemberExpression" "Identifier") with false.
  cbn [negb].
  destruct (truthy (field node "loc")); cbn [bind].
  - destruct (getProp (field node "loc") "start") as [start|e]; cbn [bind]; [|reflexivity].
    destruct (getProp start "line") as [l|e]; cbn [bind]; [|reflexivity].
    destruct (js_add l lineOffset); cbn [bind]; [|reflexivity].
    destruct (String.eqb objectName "console"); cbn [negb andb bind]; [|reflexivity].
    destruct (String.eqb method "log" || String.eqb method "error"
              || String.eqb method "warn" || String.eqb method "info"); reflexivity.
  - destruct (String.eqb objectName "console"); cbn [negb andb bind]; [|reflexivity].
    destruct (String.eqb method "log" || String.eqb method "error"
              || String.eqb method "warn" || String.eqb method "info"); reflexivity.
Qed.

(** X22.  A call whose callee is a plain identifier is classified by the
    identifier's name alone: [setTimeout] is a timer step for the Web APIs
    with the extracted delay, [Promise] a high-priority microtask step,
    [fetch] a Web-API step, and any other name a synchronous function call
    on the call stack, described as "Function call: name". *)
Theorem identifier_call_is_classified_by_name (node parent lineOffset : value)
  (callee : list (string * value)) (name : string) :
  getProp node "type" = Ok (VStr "CallExpression") ->
  getProp node "callee" = Ok (VObj callee) ->
  lookup callee "type" = VStr "Identifier" ->
  lookup callee "name" = VStr name ->
  createExecutionStep node parent lineOffset
  = (ln <- stepLine node lineOffset;;
     let step description action isAsync delay output queue priority :=
       Ok (Some (mkStep (VStr "CallExpression") ln (field node "range") (field node "loc")
                        description action isAsync delay "CallExpression statement" []
                        output (VStr queue) (VStr priority))) in
     if String.eqb name "setTimeout" then
       ds <- toString (extractTimeoutDelay node);;
       step "setTimeout call - moving to Web APIs" "setTimeout" true
            (extractTimeoutDelay node)
            (VStr ("Scheduled timeout with " ++ ds ++ "ms delay")) "webAPIs" "normal"
     else if String.eqb name "Promise" then
       step "Promise creation - moving to microtask queue" "promise" true (VNum 0)
            (VStr "Promise created") "microtaskQueue" "high"
     else if String.eqb name "fetch" then
       step "Fetch API call - moving to Web APIs" "fetch" true (VNum 0)
            (VStr "Network request initiated") "webAPIs" "normal"
     else
       step ("Function call: " ++ name) "functionCall" false (VNum 0) VNull
            "callStack" "normal").
Proof.
  intros Hty Hcallee Hct Hcn.
  assert (Hfield : forall p, getProp node p = Ok (field node p)).
  { intros p. unfold field. destruct node; try reflexivity; discriminate Hty. }
  unfold createExecutionStep, stepLine, extractCodeFromNode. cbv zeta.
  rewrite Hty. cbn [bind]. rewrite (Hfield "loc"), (Hfield "range"). cbn [bind toString].
  change (is_str (VStr "CallExpression") "Program") with false.
  change (is_str (VStr "CallExpression") "ExpressionStatement") with false.
  change (is_str (VStr "CallExpression") "CallExpression") with true.
  cbn iota.
  unfold isConsoleCall, isSetTimeoutCall, isPromiseCall, isFetchCall, isCallTo,
    getFunctionName.
  rewrite Hcallee. cbn [bind truthy negb getProp].
  rewrite Hct, Hcn. cbn [bind is_str toString].
  change (String.eqb "Identifier" "MemberExpression") with false.
  change (String.eqb "Identifier" "Identifier") with true.
  cbn [negb bind].
  destruct (if truthy (field node "loc")
            then start <- getProp (field node "loc") "start";;
                 l <- getProp start "line";;
                 js_add l lineOffset
            else Ok (VNum 1)) as [ln|e]; cbn [bind]; [|reflexivity].
  destruct (String.eqb name "setTimeout"); cbn [bind]; [reflexivity|].
  destruct (String.eqb name "Promise"); cbn [bind]; [reflexivity|].
  destruct (String.eqb name "fetch"); reflexivity.
Qed.

End Calls.
End CallProperties.

(* ===================================================================== *)
(** ** Properties of console output *)
(* ===================================================================== *)

Module ConsoleProperties.
Import JS EventLoopSlice CodeExecutor Notions Samples.
Import ClassifierProperties.

(** What [extractConsoleLogMessage] takes from an argument that is a literal
    or an identifier: the literal's value, the identifier's name. *)
Definition argumentValue (arg : value) : option value :=
  match arg with
  | VObj fields =>
      if is_str (lookup fields "type") "Literal" then Some (lookup fields "value")
      else if is_str (lookup fields "type") "Identifier" then Some (lookup fields "name")
      else None
  | _ => None
  end.

(** How [Array.prototype.join] prints an element. *)
Definition printed {E : Engine} (v : value) (text : string) : Prop :=
  match v with
  | VUndef | VNull => text = ""
  | _ => toString v = Ok text
  end.

(** X26.  The output of a console step is the joined text of the call's
    arguments: when every argument is a literal or an identifier,
    [extractConsoleLogMessage] returns the literals' values and the
    identifiers' names, printed as [join] prints them and separated by
    single spaces. *)
Theorem extractConsoleLogMessage_joins {E : Engine} (node : value)
  (arguments vals : list value) (texts : list string) :
  getProp node "arguments" = Ok (VArr arguments) ->
  Forall2 (fun arg v => argumentValue arg = Some v) arguments vals ->
  Forall2 printed vals texts ->
  extractConsoleLogMessage node = VStr (join " " texts).
Proof.
  intros Hargs Hvals Htexts. unfold extractConsoleLogMessage.
  rewrite Hargs. cbn [bind as_array].
  assert (Hmap : mapM (fun arg =>
                   ty <- getProp arg "type";;
                   if is_str ty "Literal" then getProp arg "value"
                   else if is_str ty "Identifier" then getProp arg "name"
                   else if is_str ty "BinaryExpression" then
                     s <- extractBinaryExpression arg;; Ok (VStr s)
                   else Ok (VStr "[Expression]")) arguments = Ok vals).
  { clear Hargs Htexts.
    induction Hvals as [|arg v args vs Harg _ IH]; [reflexivity|]. cbn [mapM].
    rewrite IH. destruct arg as [| | | | | |fields]; try discriminate Harg.
    cbn [argumentValue] in Harg. cbn [getProp bind].
    destruct (is_str (lookup fields "type") "Literal").
    - injection Harg as <-. reflexivity.
    - destruct (is_str (lookup fields "type") "Identifier"); [|discriminate Harg].
      injection Harg as <-. reflexivity. }
  rewrite Hmap. cbn [bind]. unfold array_join.
  assert (Hjoin : mapM (fun x => match x with
                                 | VUndef | VNull => Ok ""
                                 | _ => toString x
                                 end) vals = Ok texts).
  { clear Hvals Hmap.
    induction Htexts as [|v text vs ts Hv _ IH]; [reflexivity|]. cbn [mapM].
    rewrite IH. unfold printed in Hv.
    destruct v; try (rewrite Hv; reflexivity); subst text; reflexivity. }
  rewrite Hjoin. reflexivity.
Qed.

(** [console.log('a', x)] *)
Definition console_log_a_x : value :=
  tree "CallExpression"
    [("callee",
      tree "MemberExpression"
        [("computed", VBool false);
         ("object", identifier "console" 0 7 (location 1 0 1 7));
         ("property", identifier "log" 8 11 (location 1 8 1 11))]
        0 11 (location 1 0 1 11));
     ("arguments",
      VArr [tree "Literal" [("value", VStr "a"); ("raw", VStr "'a'")] 12 15
                 (location 1 12 1 15);
            identifier "x" 17 18 (location 1 17 1 18)])]
    0 19 (location 1 0 1 19).

Lemma extractConsoleLogMessage_joins_witness :
  extractConsoleLogMessage console_log_a_x = VStr "a x".
Proof.
  apply (extractConsoleLogMessage_joins console_log_a_x
           [tree "Literal" [("value", VStr "a"); ("raw", VStr "'a'")] 12 15
                 (location 1 12 1 15);
            identifier "x" 17 18 (location 1 17 1 18)]
           [VStr "a"; VStr "x"] ["a"; "x"]).
  - reflexivity.
  - repeat constructor.
  - repeat constructor.
Defined.

End ConsoleProperties.

(* ===================================================================== *)
(** ** Properties of the reset *)
(* ===================================================================== *)

Module ResetProperties.
Import JS CodeExecutor EventLoopSlice Notions Rounds.

(** X20.  [clearAll] is the reset: the four containers and the executing
    slot are empty and the custom-code execution is back at its initial
    state.  On the cleared state ticks select nothing, rounds do nothing,
    and a timer elapsing or a completion arriving for a task from before the
    reset finds no task and changes nothing.  The reset keeps the log and
    the id counter, and it does not cancel admissions in flight: an
    [addTask] dispatched before the reset and fulfilled after it puts its
    task into the cleared state. *)
Theorem clearAll_resets {E : Engine} {P : Parser} (sys : System) (clocks : list Clock) (r : nat) :
  let cleared := clearAll (store sys) in
  queued cleared = []
  /\ currentExecutingTask cleared = None
  /\ executionStep cleared = EXECUTION_STEPS.IDLE
  /\ codeExecutionSteps cleared = [] /\ isCodeExecuting cleared = false
  /\ ticks cleared clocks = (cleared, [])
  /\ rounds cleared clocks r = cleared
  /\ (forall taskId, moveFromWebAPIToCallback cleared taskId = cleared)
  /\ (forall taskId clock, completeTaskExecution cleared taskId clock = cleared)
  /\ consoleOutput cleared = consoleOutput (store sys)
  /\ nextTaskId cleared = nextTaskId (store sys)
  /\ clearAll cleared = cleared
  /\ (forall n t,
        nth_error (inFlight sys) n = Some (AddTaskFulfilled t) ->
        queued (store (run sys [ClearAll; Settle n])) = [t]).
Proof.
  intros cleared. destruct sys as [state next flight].
  destruct state as [cs w cb m next' cur es out steps c st pr vars ex pa].
  assert (Hcleared : cleared
                     = mkState [] [] [] [] next' None EXECUTION_STEPS.IDLE out [] 0
                               CODE_EXECUTION_STEPS.PARSING 0 [] false false)
    by (subst cleared; vm_compute; reflexivity).
  clearbody cleared. subst cleared. cbn [store inFlight].
  set (cleared := mkState [] [] [] [] next' None EXECUTION_STEPS.IDLE out [] 0
                          CODE_EXECUTION_STEPS.PARSING 0 [] false false).
  assert (Hidle : isCodeExecuting cleared = false) by reflexivity.
  assert (Hticks : ticks cleared clocks = (cleared, []))
    by apply QueueProperties.ticks_select_nothing.
  split; [reflexivity|]. split; [reflexivity|]. split; [reflexivity|].
  split; [reflexivity|]. split; [reflexivity|]. split; [exact Hticks|].
  split; [apply RoundProperties.rounds_idle, Hidle|].
  split; [intros taskId; reflexivity|]. split; [intros taskId clock; reflexivity|].
  split; [reflexivity|]. split; [reflexivity|]. split; [reflexivity|].
  intros n t Hn. cbn [run fold_left dispatch inFlight store]. rewrite Hn.
  cbn [store reduce].
  change (clearAll (mkState cs w cb m next' cur es out steps c st pr vars ex pa))
    with cleared.
  unfold addTask_fulfilled. destruct (type t); reflexivity.
Qed.

End ResetProperties.

(* ===================================================================== *)
(** ** Properties of [validateCode] *)
(* ===================================================================== *)

Module ValidationProperties.
Import JS EventLoopSlice Validation.

Lemma prefix_app (w s b : string) :
  String.prefix w s = true -> String.prefix w (s ++ b) = true.
Proof.
  revert s. induction w as [|c w IH]; intros s H; [destruct (s ++ b); reflexivity|].
  destruct s as [|c' s]; [discriminate H|]. cbn [String.prefix append] in *.
  destruct (ascii_dec c c'); [apply IH; exact H | discriminate H].
Qed.

Lemma skip_prefix_app (w s b : string) :
  String.prefix w s = true ->
  skip (String.length w) (s ++ b) = skip (String.length w) s ++ b.
Proof.
  revert s. induction w as [|c w IH]; intros s H.
  - destruct s; reflexivity.
  - destruct s as [|c' s]; [discriminate H|]. cbn [String.prefix] in H.
    destruct (ascii_dec c c'); [|discriminate H].
    cbn [String.length skip append]. apply IH. exact H.
Qed.

Lemma afterSpace_app (s s' b : string) :
  afterSpace s = Some s' -> afterSpace (s ++ b) = Some (s' ++ b).
Proof.
  unfold afterSpace. destruct s as [|c [|c1 [|c2 s2]]]; cbn [append]; try discriminate.
  - destruct (space1 c); [intros [= <-]; reflexivity | discriminate].
  - destruct (space1 c); [intros [= <-]; reflexivity|].
    destruct (space2 c c1); [intros [= <-]; reflexivity | discriminate].
  - destruct (space1 c); [intros [= <-]; reflexivity|].
    destruct (space2 c c1); [intros [= <-]; reflexivity|].
    destruct (space3 c c1 c2); [intros [= <-]; reflexivity | discriminate].
Qed.

Lemma afterSpace_shorter (s s' : string) :
  afterSpace s = Some s' -> String.length s' < String.length s.
Proof.
  unfold afterSpace. destruct s as [|c [|c1 [|c2 s2]]]; try discriminate.
  - destruct (space1 c); [intros [= <-]; cbn; lia | discriminate].
  - destruct (space1 c); [intros [= <-]; cbn; lia|].
    destruct (space2 c c1); [intros [= <-]; cbn; lia | discriminate].
  - destruct (space1 c); [intros [= <-]; cbn; lia|].
    destruct (space2 c c1); [intros [= <-]; cbn; lia|].
    destruct (space3 c c1 c2); [intros [= <-]; cbn; lia | discriminate].
Qed.

Lemma star_eq (continue : string -> bool) (s : string) :
  star continue s
  = continue s || match afterSpace s with
                  | Some s' => star continue s'
                  | None => false
                  end.
Proof.
  destruct s as [|c [|c1 [|c2 s2]]]; cbn [star afterSpace]; try reflexivity.
  - destruct (space1 c); reflexivity.
  - destruct (space1 c); [reflexivity|]. destruct (space2 c c1); reflexivity.
  - destruct (space1 c); [reflexivity|]. destruct (space2 c c1); [reflexivity|].
    destruct (space3 c c1 c2); reflexivity.
Qed.

Lemma star_app (continue : string -> bool) (b : string) :
  (forall s, continue s = true -> continue (s ++ b) = true) ->
  forall s, star continue s = true -> star continue (s ++ b) = true.
Proof.
  intros Hk s. remember (String.length s) as n eqn:Hn. revert s Hn.
  induction n as [n IH] using lt_wf_ind. intros s Hn.
  rewrite (star_eq continue s), (star_eq continue (s ++ b)).
  intros H. apply orb_true_iff in H. apply orb_true_iff. destruct H as [H|H].
  - left. apply Hk, H.
  - right. destruct (afterSpace s) as [s'|] eqn:Hs; [|discriminate H].
    rewrite (afterSpace_app _ _ b Hs).
    apply (IH (String.length s')); [|reflexivity | exact H].
    subst n. apply afterSpace_shorter, Hs.
Qed.

Lemma matchHere_app (pattern : list atom) (b : string) :
  forall s, matchHere pattern s = true -> matchHere pattern (s ++ b) = true.
Proof.
  induction pattern as [|[text|atLeastOne] rest IH]; intros s; cbn [matchHere].
  - reflexivity.
  - destruct (String.prefix text s) eqn:Hp; [|discriminate].
    rewrite (prefix_app _ _ b Hp), (skip_prefix_app _ _ b Hp). apply IH.
  - destruct atLeastOne.
    + destruct (afterSpace s) as [s'|] eqn:Hs; [|discriminate].
      rewrite (afterSpace_app _ _ b Hs). apply star_app, IH.
    + apply star_app, IH.
Qed.

Lemma test_eq (pattern : list atom) (code : string) :
  test pattern code
  = matchHere pattern code
    || match code with
       | String _ rest => test pattern rest
       | EmptyString => false
       end.
Proof. destruct code; reflexivity. Qed.

Lemma test_app (pattern : list atom) (a code b : string) :
  test pattern code = true -> test pattern (a ++ code ++ b) = true.
Proof.
  intros H. induction a as [|c a IH]; cbn [append].
  - induction code as [|c code IH]; cbn [append].
    + rewrite test_eq. apply orb_true_iff. left.
      apply (matchHere_app pattern b ""). cbn [test] in H.
      rewrite orb_false_r in H. exact H.
    + cbn [test] in H |- *. apply orb_true_iff in H. apply orb_true_iff.
      destruct H as [H|H].
      * left. apply (matchHere_app pattern b (String c code)), H.
      * right. apply IH, H.
  - cbn [test]. rewrite IH. apply orb_true_r.
Qed.

(** The literal text a pattern of the list begins with. *)
Definition keyword (pattern : Pattern) : string :=
  match atoms pattern with
  | Text text :: _ => text
  | _ => ""
  end.

Lemma test_occurs (text : string) (rest : list atom) (code : string) :
  test (Text text :: rest) code = true -> occursIn text code = true.
Proof.
  induction code as [|c code IH]; cbn [test occursIn matchHere].
  - destruct (String.prefix text ""); [reflexivity|]. discriminate.
  - intros H. apply orb_true_iff in H. apply orb_true_iff. destruct H as [H|H].
    + left. destruct (String.prefix text (String c code)); [reflexivity | discriminate H].
    + right. apply IH, H.
Qed.

(** X17.  [validateCode] judges by occurrence.  A warning raised for a text
    is raised for every text that contains it, so a text that passes has no
    part that fails; and a text in which none of the fourteen key words
    occurs ([eval], [Function], [setTimeout], [setInterval], [fetch],
    [XMLHttpRequest], [localStorage], [sessionStorage], [document.],
    [window.], [process.], [require], [import], [export]) passes without
    warnings. *)
Theorem validateCode_judges_by_occurrence (code : string) :
  (forall before after warning,
      In warning (warnings (validateCode code)) ->
      In warning (warnings (validateCode (before ++ code ++ after))))
  /\ (forall before after,
        isValid (validateCode (before ++ code ++ after)) = true ->
        isValid (validateCode code) = true)
  /\ ((forall pattern, In pattern dangerousPatterns -> occursIn (keyword pattern) code = false) ->
      validateCode code = mkVerdict true [])
  /\ map keyword dangerousPatterns
     = ["eval"; "Function"; "setTimeout"; "setInterval"; "fetch"; "XMLHttpRequest";
        "localStorage"; "sessionStorage"; "document."; "window."; "process.";
        "require"; "import"; "export"].
Proof.
  assert (Hgrow : forall before after warning,
             In warning (warnings (validateCode code)) ->
             In warning (warnings (validateCode (before ++ code ++ after)))).
  { intros before after warning. unfold validateCode. cbn [warnings].
    rewrite !in_map_iff. intros (pattern & Hw & Hin). exists pattern. split; [exact Hw|].
    apply filter_In in Hin. apply filter_In. destruct Hin as [Hin Htest].
    split; [exact Hin | apply test_app, Htest]. }
  split; [exact Hgrow|]. split; [|split; [|reflexivity]].
  - intros before after Hvalid.
    assert (Hnone : warnings (validateCode (before ++ code ++ after)) = []).
    { apply length_zero_iff_nil, Nat.eqb_eq. exact Hvalid. }
    assert (Hcode : warnings (validateCode code) = []).
    { destruct (warnings (validateCode code)) as [|w ws] eqn:Hw; [reflexivity|].
      pose proof (Hgrow before after w) as Hin. rewrite Hnone in Hin.
      destruct (Hin (or_introl eq_refl)). }
    change (isValid (validateCode code))
      with (List.length (warnings (validateCode code)) =? 0)%nat.
    rewrite Hcode. reflexivity.
  - intros Hwords. unfold validateCode.
    assert (Hfilter : filter (fun pattern => test (atoms pattern) code) dangerousPatterns = []).
    { assert (Hshape : forall pattern, In pattern dangerousPatterns ->
                 exists rest, atoms pattern = Text (keyword pattern) :: rest).
      { intros pattern Hin. cbn in Hin.
        repeat (destruct Hin as [<- | Hin]; [eexists; reflexivity|]). destruct Hin. }
      induction dangerousPatterns as [|p ps IH]; [reflexivity|]. cbn [filter].
      destruct (test (atoms p) code) eqn:Htest.
      - destruct (Hshape p (or_introl eq_refl)) as [rest Hrest]. rewrite Hrest in Htest.
        apply test_occurs in Htest. rewrite (Hwords p (or_introl eq_refl)) in Htest.
        discriminate Htest.
      - apply IH; intros q Hq; [apply Hwords | apply Hshape]; right; exact Hq. }
    rewrite Hfilter. reflexivity.
Qed.

(** A call with a gap and an import: two warnings, in the order of the
    list; a word that merely begins like a key word raises none. *)
Example validateCode_samples :
  validateCode "setTimeout (tick, 0); import x"
  = mkVerdict false ["Potentially unsafe code detected: setTimeout\s*\(";
                     "Potentially unsafe code detected: import\s+"]
  /\ validateCode "evaluate(x); important" = mkVerdict true [].
Proof. split; vm_compute; reflexivity. Qed.

End ValidationProperties.

(* ===================================================================== *)
(** ** Properties of the store as the components drive it *)
(* ===================================================================== *)

Module VisualizerProperties.
Import JS CodeExecutor EventLoopSlice Notions Visualizer.

Section Admission.
Context {E : Engine} {P : Parser}.

(** X24.  An [addTask] that is fulfilled before anything else is
    dispatched: the new task carries the current value of the id counter,
    its status is [PENDING] whatever its type, it stands at the end of the
    container of its type (call stack, microtask queue, or Web APIs for
    every other type), the other containers and the thunks in flight are as
    before, and the counter has advanced by one. *)
Theorem addTask_settled_at_once (sys : System) (args : AddTaskArgs) (clock : Clock) :
  let sys' := run sys [DispatchAddTask args clock; Settle (List.length (inFlight sys))] in
  let t := addTask (store sys) args clock (nextRef sys) in
  id t = nextTaskId (store sys)
  /\ status t = TASK_STATUS.PENDING
  /\ type t = argType args
  /\ nextTaskId (store sys') = PrimFloat.add (nextTaskId (store sys)) 1
  /\ inFlight sys' = inFlight sys
  /\ nextRef sys' = S (nextRef sys)
  /\ callbackQueue (store sys') = callbackQueue (store sys)
  /\ match argType args with
     | TASK_TYPES.SYNCHRONOUS | TASK_TYPES.CONSOLE_LOG
     | TASK_TYPES.VARIABLE_ASSIGNMENT | TASK_TYPES.FUNCTION_CALL =>
         callStack (store sys') = (callStack (store sys) ++ [t])%list
         /\ microtaskQueue (store sys') = microtaskQueue (store sys)
         /\ webAPIs (store sys') = webAPIs (store sys)
     | TASK_TYPES.PROMISE | TASK_TYPES.ASYNC_AWAIT =>
         microtaskQueue (store sys') = (microtaskQueue (store sys) ++ [t])%list
         /\ callStack (store sys') = callStack (store sys)
         /\ webAPIs (store sys') = webAPIs (store sys)
     | _ =>
         webAPIs (store sys') = (webAPIs (store sys) ++ [t])%list
         /\ callStack (store sys') = callStack (store sys)
         /\ microtaskQueue (store sys') = microtaskQueue (store sys)
     end.
Proof.
  intros sys' t. subst sys' t.
  cbn [run fold_left]. cbn [dispatch inFlight store nextRef].
  rewrite nth_error_app2, Nat.sub_diag by lia. cbn [nth_error].
  unfold remove_nth.
  rewrite (SchedulerProperties.cut_middle (inFlight sys) []), app_nil_r.
  cbn [store inFlight nextRef reduce]. unfold addTask_fulfilled.
  change (type (addTask (store sys) args clock (nextRef sys))) with (argType args).
  repeat split; destruct (argType args); repeat split; reflexivity.
Qed.

(** Every Web-API task and every admission in flight is [PENDING]. *)
Definition allPending (sys : System) : Prop :=
  Forall (fun t => status t = TASK_STATUS.PENDING) (webAPIs (store sys))
  /\ Forall (fun a => exists t, a = AddTaskFulfilled t /\ status t = TASK_STATUS.PENDING)
            (inFlight sys).

Lemma Forall_without (Q : Task -> Prop) (head : Task) (queue : list Task) :
  Forall Q queue -> Forall Q (without head queue).
Proof.
  intros H. unfold without. rewrite Forall_forall in *. intros t Hin.
  apply filter_In in Hin. apply H, Hin.
Qed.

Lemma Forall_cut {A} (Q : A -> Prop) (n m : nat) (l : list A) :
  Forall Q l -> Forall Q (firstn n l ++ skipn m l)%list.
Proof.
  intros H. rewrite Forall_forall in *. intros x Hin. apply H.
  apply in_app_or in Hin. destruct Hin as [Hin|Hin].
  - rewrite <- (firstn_skipn n l). apply in_or_app. left. exact Hin.
  - rewrite <- (firstn_skipn m l). apply in_or_app. right. exact Hin.
Qed.

Lemma allPending_dispatch (sys : System) (ev : Event) :
  dispatchedByComponents ev = true -> allPending sys -> allPending (dispatch sys ev).
Proof.
  intros Hev [Hw Hf]. unfold allPending.
  destruct ev as [args clock | clock | code | clock | step clock | n | taskId
                 | taskId clock | taskId error clock | payload clock | | ];
    try discriminate Hev; cbn [dispatch store inFlight].
  - split; [exact Hw|]. apply Forall_app. split; [exact Hf|].
    constructor; [|constructor]. eexists. split; reflexivity.
  - split; [|exact Hf]. unfold executeNextTask.
    destruct (microtaskQueue (store sys));
      [destruct (callbackQueue (store sys)); [destruct (callStack (store sys))|]|];
      exact Hw.
  - split; [|exact Hf]. unfold executeStep.
    destruct (currentExecutingTask (store sys)); [|exact Hw]. destruct step; exact Hw.
  - destruct (nth_error (inFlight sys) n) as [a|] eqn:Hn; [|split; assumption].
    cbn [store inFlight]. split; [|apply Forall_cut, Hf].
    rewrite Forall_forall in Hf. destruct (Hf a (nth_error_In _ _ Hn)) as (t & -> & Ht).
    cbn [reduce]. unfold addTask_fulfilled.
    destruct (type t); cbn [webAPIs set_nextTaskId set_callStack set_microtaskQueue set_webAPIs];
      first [ exact Hw
            | apply Forall_app; split; [exact Hw | constructor; [exact Ht | constructor]] ].
  - split; [|exact Hf]. unfold moveFromWebAPIToCallback.
    destruct (findIndex taskId (webAPIs (store sys))); [|exact Hw].
    destruct (nth_error (webAPIs (store sys)) n); [|exact Hw].
    cbn [webAPIs set_callbackQueue set_webAPIs]. apply Forall_cut, Hw.
  - split; [|exact Hf]. unfold completeTaskExecution.
    destruct (currentExecutingTask (store sys)) as [t|]; [|exact Hw].
    destruct (PrimFloat.eqb (id t) taskId); exact Hw.
  - split; [exact Hw | exact Hf].
  - split; [exact Hw | exact Hf].
  - split; [constructor | exact Hf].
Qed.

(** X25.  However the components drive the store, no timer of theirs is
    ever started.  In every state reached by the actions the components
    dispatch, each Web-API task is [PENDING], not [WAITING] ([addTask] marks
    every task [PENDING] and [addTask.fulfilled] stores it as it is), so the
    condition under which the visualizer starts a task's timer and later
    dispatches [moveFromWebAPIToCallback] holds for none of them.  Only a
    task admitted by [executeNextCodeStep] through [addToWebAPIs] is
    [WAITING], and no component dispatches that thunk. *)
Theorem component_timers_are_never_armed (events : list Event) (t : Task) :
  forallb dispatchedByComponents events = true ->
  In t (webAPIs (store (run initialSystem events))) ->
  status t = TASK_STATUS.PENDING /\ armsTimer t = false.
Proof.
  intros Hevents Hin.
  assert (Hinv : allPending (run initialSystem events)).
  { clear Hin. unfold run. induction events as [|ev evs IH] using rev_ind.
    - split; constructor.
    - rewrite forallb_app in Hevents. cbn [forallb] in Hevents.
      apply andb_true_iff in Hevents. destruct Hevents as [Hevs Hev].
      rewrite andb_true_r in Hev.
      rewrite fold_left_app. cbn [fold_left]. apply allPending_dispatch; [exact Hev|].
      apply IH, Hevs. }
  destruct Hinv as [Hw _]. rewrite Forall_forall in Hw. specialize (Hw t Hin).
  split; [exact Hw|]. unfold armsTimer. rewrite Hw. destruct (type t); reflexivity.
Qed.

End Admission.
End VisualizerProperties.

(* ===================================================================== *)
(** ** The theorems on the workloads *)
(* ===================================================================== *)

Module Instances.
Import JS CodeExecutor EventLoopSlice Notions Rounds LegacyReducers Visualizer Samples Scenarios.
Import Workloads.

#[local] Existing Instance twoLineParser.

Lemma completeTaskExecution_after_start_witness :
  let started := executeMicrotaskWithSteps (store fullLog) ownPromise noon in
  let done := completeTaskExecution started (id ownPromise) noon in
  currentExecutingTask started = Some (executing ownPromise)
  /\ currentExecutingTask done = None
  /\ List.length (consoleOutput started) = 21
  /\ List.length (consoleOutput done) = 20.
Proof.
  intros started done.
  destruct (QueueProperties.completeTaskExecution_after_start
              (store fullLog) started ownPromise noon noon
              (or_introl eq_refl) eq_refl) as (Hslot & Hdone & _ & _ & Hlog & _).
  fold done in Hdone, Hlog.
  split; [exact Hslot|]. split; [exact Hdone|].
  split; [vm_compute; reflexivity|].
  rewrite Hlog. vm_compute. reflexivity.
Defined.

Lemma start_replaces_the_executing_task_witness :
  let first := executeMicrotaskWithSteps mixedQueues promiseCopy noon in
  let second := executeCallbackWithSteps first timerCopy noon in
  currentExecutingTask second = Some (executing timerCopy)
  /\ completeTaskExecution second (id promiseCopy) noon = second
  /\ List.length (consoleOutput second) = 2 + List.length (consoleOutput mixedQueues).
Proof.
  intros first second.
  destruct (QueueProperties.start_replaces_the_executing_task
              mixedQueues first second promiseCopy timerCopy noon noon noon
              (or_introl eq_refl) (or_intror (or_introl eq_refl)) eq_refl)
    as (_ & Hslot & Hlate & Hlog).
  split; [exact Hslot|]. split; [exact Hlate|exact Hlog].
Defined.

Lemma moveFromWebAPIToCallback_first_match_witness :
  map ref (webAPIs (moveFromWebAPIToCallback twoTimers 2)) = [0]
  /\ map ref (callbackQueue (moveFromWebAPIToCallback twoTimers 2)) = [1].
Proof.
  destruct (QueueProperties.moveFromWebAPIToCallback_first_match
              twoTimers 2 [slowTimer] [] fastTimer eq_refl) as (t' & Hw & Hcb & Href & _).
  - intros u [<- | []]. reflexivity.
  - reflexivity.
  - rewrite Hw, Hcb. change (callbackQueue twoTimers) with (@nil Task).
    cbn [map app]. rewrite Href. split; reflexivity.
Defined.

Lemma timers_queue_in_elapsed_order_witness :
  map delay (callbackQueue
               (moveFromWebAPIToCallback (moveFromWebAPIToCallback twoTimers 2) 1))
  = [VNum 500; VNum 1000].
Proof.
  destruct (QueueProperties.timers_queue_in_elapsed_order
              twoTimers slowTimer fastTimer [] [] [] eq_refl) as (Hcb & _).
  - intros u [<- | []]. reflexivity.
  - intros u [].
  - reflexivity.
  - reflexivity.
  - change (id fastTimer) with 2%float in Hcb. change (id slowTimer) with 1%float in Hcb.
    rewrite Hcb. reflexivity.
Defined.

Lemma rounds_admit_steps_in_order_witness :
  currentCodeStep (rounds loaded [noon; noon] 0) = 2
  /\ map description (callStack (rounds loaded [noon; noon] 0))
     = ["Executing expression statement"].
Proof.
  destruct (RoundProperties.rounds_admit_steps_in_order loaded [noon; noon] 0 eq_refl)
    as (_ & Hcur & _ & Hcs & _).
  - vm_compute. lia.
  - split; [exact Hcur | exact Hcs].
Defined.

Lemma custom_code_admits_every_compiled_step_witness :
  List.length
    (queued (rounds (executeCustomCode_fulfilled (executeCustomCode initialState src_two_lines))
                    (repeat noon 28) 0))
  = 26.
Proof.
  destruct (RoundProperties.custom_code_admits_every_compiled_step
              (E := refEngine) (P := twoLineParser)
              initialState src_two_lines (repeat noon 28) 0
              ltac:(vm_compute; reflexivity)) as (_ & _ & _ & _ & Hok & _).
  exact (Hok (parseCodeToSteps (E := refEngine) (P := twoLineParser) src_two_lines)
             ltac:(vm_compute; reflexivity)).
Defined.


Lemma admission_paths_agree_witness :
  let step := ClassifierProperties.theStep
                (createExecutionStep ClassifierProperties.call_setTimeout VNull (VNum 0)) in
  map ref (webAPIs (admitStep initialState step noon 7)) = [7]
  /\ map ref (webAPIs (addTask_fulfilled initialState
                         (taskOfStep step TASK_STATUS.PENDING noon 7))) = [7].
Proof.
  intros step.
  destruct (AdmissionProperties.admission_paths_agree
              ClassifierProperties.call_setTimeout VNull (VNum 0) step initialState noon 7
              eq_refl) as (Hagree & _).
  destruct (Hagree ltac:(discriminate)) as (_ & Hw & _).
  rewrite <- Hw. split; reflexivity.
Defined.

Lemma getTaskExecutionResult_reads_description_witness :
  getTaskExecutionResult assignmentTask "12:00:00"
  = Some "📊 [12:00:00] Result: const x = 1;".
Proof.
  destruct (TraceProperties.getTaskExecutionResult_reads_description
              assignmentTask "12:00:00" "const x = 1;" ltac:(discriminate) eq_refl)
    as (Hvar & _).
  exact (Hvar eq_refl eq_refl).
Defined.

Lemma member_call_stays_on_call_stack_witness :
  createExecutionStep promise_resolve VNull (VNum 0)
  = Ok (Some (mkStep (VStr "CallExpression") (VNum 1) (VArr [VNum 0; VNum 17])
                     (location 1 0 1 17) "Function call: Promise.resolve" "functionCall"
                     false (VNum 0) "CallExpression statement" [] VNull
                     (VStr "callStack") (VStr "normal"))).
Proof.
  exact (CallProperties.member_call_stays_on_call_stack
           promise_resolve VNull (VNum 0) _ _ _ "Promise" "resolve"
           eq_refl eq_refl eq_refl eq_refl eq_refl eq_refl eq_refl eq_refl).
Defined.

Lemma identifier_call_is_classified_by_name_witness :
  option_map (fun step => (action step, queue step, CodeExecutor.delay step))
             (match createExecutionStep ClassifierProperties.call_setTimeout VNull (VNum 0) with
              | Ok step => step
              | Throw _ => None
              end)
  = Some ("setTimeout", VStr "webAPIs", VNum 500).
Proof.
  rewrite (CallProperties.identifier_call_is_classified_by_name
             ClassifierProperties.call_setTimeout VNull (VNum 0) _ "setTimeout"
             eq_refl eq_refl eq_refl eq_refl).
  reflexivity.
Defined.

Lemma component_timers_are_never_armed_witness :
  In slowTimer (webAPIs twoTimers) /\ armsTimer slowTimer = false.
Proof.
  assert (Hin : In slowTimer (webAPIs twoTimers)) by (left; reflexivity).
  split; [exact Hin|].
  destruct (VisualizerProperties.component_timers_are_never_armed
              (E := refEngine) (P := twoLineParser)
              [DispatchAddTask slowArgs noon; Settle 0;
               DispatchAddTask timeoutArgs noon; Settle 0]
              slowTimer eq_refl Hin) as [_ Hnot].
  exact Hnot.
Defined.

End Instances.
